(** * binprocessor.c: decoding of MKID readout packets into photon tables

    A shallow embedding of [src/mkidpipeline/hdf/binprocessor.c] and the
    properties of its timestamp corrector, packet decoder, per-pixel
    event store, table sorter and run extractor.

    Conventions of the embedding.
    - C integers are [Z] with the wrap-around of their width written out
      ([uint32], [int32], [uint64], [int64], [uint36]).  Signed overflow
      is given its two's-complement result, which is what the compiled
      code computes; theorems that depend on the absence of overflow say
      so in a hypothesis.
    - Memory the code indexes ([BeamMap[x][y]], [ptable[x][y]], ...) is a
      finite map from the index to the cell; a cell that was never
      written is absent from the map.  An access outside the allocated
      extent, or a read of a cell that was never written, is a [Fault].
    - Bit-fields are laid out as GCC does on x86-64: the first declared
      field occupies the least significant bits of the 64-bit word. *)

From Stdlib Require Import ZArith Lia List Strings.Byte Sorting.Sorted Sorting.Permutation.
From stdpp Require Import base option list gmap sorting.

Local Open Scope Z_scope.

(** ** Machine integers *)

Module CInt.

(** value of a [w]-bit unsigned object after a store of [z] *)
Definition wrapu (w z : Z) : Z := z mod 2 ^ w.

(** value of a [w]-bit two's-complement object after a store of [z] *)
Definition wraps (w z : Z) : Z := (z + 2 ^ (w - 1)) mod 2 ^ w - 2 ^ (w - 1).

Definition uint32 : Z -> Z := wrapu 32.
Definition uint64 : Z -> Z := wrapu 64.
Definition uint36 : Z -> Z := wrapu 36.  (* the 36-bit bit-field *)
Definition int32  : Z -> Z := wraps 32.
Definition int64  : Z -> Z := wraps 64.

Definition int_range (z : Z) : Prop := - 2 ^ 31 <= z < 2 ^ 31.

End CInt.

Import CInt.

(** ** Raw memory: bytes and 64-bit words *)

Definition byte_val (b : byte) : Z := Z.of_N (Byte.to_N b).

(** little-endian value of a run of bytes, the first byte least significant *)
Fixpoint le_value (bs : list byte) : Z :=
  match bs with
  | [] => 0
  | b :: rest => byte_val b + 256 * le_value rest
  end.

(** the load of a [uint64_t] through a pointer to [mem[off]]: the eight
    bytes at [off] read as one host-order word; [None] when they are not
    all inside [mem] *)
Definition load64 (mem : list byte) (off : Z) : option Z :=
  if bool_decide (0 <= off /\ off + 8 <= Z.of_nat (length mem))
  then Some (le_value (take 8 (drop (Z.to_nat off) mem)))
  else None.

(** [__bswap_64] *)
Definition bswap_64 (v : Z) : Z :=
  Z.lor (Z.shiftl (Z.land v 255) 56)
  (Z.lor (Z.shiftl (Z.land (Z.shiftr v 8) 255) 48)
  (Z.lor (Z.shiftl (Z.land (Z.shiftr v 16) 255) 40)
  (Z.lor (Z.shiftl (Z.land (Z.shiftr v 24) 255) 32)
  (Z.lor (Z.shiftl (Z.land (Z.shiftr v 32) 255) 24)
  (Z.lor (Z.shiftl (Z.land (Z.shiftr v 40) 255) 16)
  (Z.lor (Z.shiftl (Z.land (Z.shiftr v 48) 255) 8)
         (Z.land (Z.shiftr v 56) 255))))))).

(** an unsigned bit-field of [width] bits starting at bit [lo] *)
Definition ufield (word lo width : Z) : Z :=
  Z.land (Z.shiftr word lo) (Z.ones width).

(** a signed bit-field: the top bit of the field is its sign *)
Definition sfield (word lo width : Z) : Z :=
  let u := ufield word lo width in
  if Z.testbit u (width - 1) then u - 2 ^ width else u.

(** [struct datapacket] *)
Record datapacket := {
  data_baseline : Z;     (* int baseline:17 *)
  data_wvl : Z;          (* int wvl:18 *)
  data_timestamp : Z;    (* unsigned int timestamp:9 *)
  data_ycoord : Z;       (* unsigned int ycoord:10 *)
  data_xcoord : Z        (* unsigned int xcoord:10 *)
}.

(** [struct hdrpacket] *)
Record hdrpacket := {
  hdr_timestamp : Z;     (* unsigned long timestamp:36 *)
  hdr_frame : Z;         (* unsigned int frame:12 *)
  hdr_roach : Z;         (* unsigned int roach:8 *)
  hdr_start : Z          (* unsigned int start:8 *)
}.

(** the word [swp1] seen through a [struct datapacket] pointer *)
Definition as_datapacket (swp1 : Z) : datapacket :=
  {| data_baseline := sfield swp1 0 17;
     data_wvl := sfield swp1 17 18;
     data_timestamp := ufield swp1 35 9;
     data_ycoord := ufield swp1 44 10;
     data_xcoord := ufield swp1 54 10 |}.

(** the word [swp1] seen through a [struct hdrpacket] pointer *)
Definition as_hdrpacket (swp1 : Z) : hdrpacket :=
  {| hdr_timestamp := ufield swp1 0 36;
     hdr_frame := ufield swp1 36 12;
     hdr_roach := ufield swp1 48 8;
     hdr_start := ufield swp1 56 8 |}.

Definition set_hdr_timestamp (hdr : hdrpacket) (t : Z) : hdrpacket :=
  {| hdr_timestamp := t; hdr_frame := hdr_frame hdr;
     hdr_roach := hdr_roach hdr; hdr_start := hdr_start hdr |}.

(** ** Timestamp corrector *)

(** the local [nWraps] of [FixOverflowTimestamps] *)
Definition nWraps (hdr : hdrpacket) (fileNameTime tsOffs : Z) : Z :=
  let fudgeFactor := 3 in
  Z.quot
    (int32 (int32 (int32 (fileNameTime - tsOffs)
                   - int32 (hdr_timestamp hdr / 2000))
            + fudgeFactor))
    1048576.

Definition FixOverflowTimestamps (hdr : hdrpacket) (fileNameTime tsOffs : Z)
  : hdrpacket :=
  let n := nWraps hdr fileNameTime tsOffs in
  (* the product is an int; it is converted to unsigned long for the
     addition and the sum is stored back into the 36-bit field *)
  set_hdr_timestamp hdr
    (uint36 (uint64 (hdr_timestamp hdr + uint64 (int32 (int32 (2000 * n) * 1048576))))).

(** ** Faults

    What the C standard leaves undefined and the program can reach on
    some input: an access outside an allocated object, a read of an
    object that was never written, and the use of the null stream that
    [fopen] returns for a file that cannot be opened. *)

Inductive cobj :=
  | Otable | PacketBuf | DataBuf | PixelBuf
  | BeamMapArr | BeamFlagArr | DiskBeamMapArr | PtableArr | PtablectArr
  | LocalVar.

Inductive fault :=
  | OutOfBounds (o : cobj)
  | Uninitialised (o : cobj)
  | NullFile.

Inductive res (A : Type) : Type :=
  | Ok (a : A)
  | Fault (f : fault).
Arguments Ok {A} a.
Arguments Fault {A} f.

#[global] Instance res_ret : MRet res := fun A a => Ok a.
#[global] Instance res_bind : MBind res := fun A B k m =>
  match m with
  | Ok a => k a
  | Fault f => Fault f
  end.

(** a [for] loop whose body may fault: the bodies run left to right *)
Fixpoint for_each {S A : Type} (body : S -> A -> res S) (s : S) (l : list A)
  : res S :=
  match l with
  | [] => Ok s
  | a :: rest => s' ← body s a; for_each body s' rest
  end.

(** ** Photon events *)

(** The values the program stores in the [float] fields of a photon: the
    constant [1.0] and [((float) wvl)*RAD2DEG/32768.0] for a raw 18-bit
    [wvl].  They are kept symbolic: nothing proved below depends on their rounding. *)
Inductive cfloat :=
  | F_one
  | F_scaled (raw : Z).

(** Modelled from the spec: [binprocessor.h], which declares [photon], is
    not among the sources.  The fields are the five the code assigns; the
    timestamp is the 32-bit unsigned value the code casts to on store. *)
Record photon := {
  resID : Z;
  timestamp : Z;
  wvl : cfloat;
  wSpec : cfloat;
  wNoise : cfloat
}.

(** ** Two-dimensional arrays

    [T **a] allocated as [cols] rows of [rows] cells.  [g_cells] holds the
    cells that have been written. *)
Record grid (A : Type) := {
  g_cols : Z;
  g_rows : Z;
  g_cells : gmap (Z * Z) A
}.
Arguments g_cols {A} g.
Arguments g_rows {A} g.
Arguments g_cells {A} g.

Definition in_grid {A} (g : grid A) (x y : Z) : bool :=
  bool_decide (0 <= x < g_cols g /\ 0 <= y < g_rows g).

(** [malloc]: extent fixed, no cell written *)
Definition grid_alloc {A} (cols rows : Z) : grid A :=
  {| g_cols := cols; g_rows := rows; g_cells := ∅ |}.

Definition grid_set {A} (g : grid A) (x y : Z) (v : A) : grid A :=
  {| g_cols := g_cols g; g_rows := g_rows g;
     g_cells := <[(x, y) := v]> (g_cells g) |}.

(** [a[x][y]] as an rvalue *)
Definition grid_read {A} (o : cobj) (g : grid A) (x y : Z) : res A :=
  if in_grid g x y then
    match g_cells g !! (x, y) with
    | Some v => Ok v
    | None => Fault (Uninitialised o)
    end
  else Fault (OutOfBounds o).

(** [a[x][y] = v] *)
Definition grid_write {A} (o : cobj) (g : grid A) (x y : Z) (v : A)
  : res (grid A) :=
  if in_grid g x y then Ok (grid_set g x y v) else Fault (OutOfBounds o).

(** the index pairs visited by
    [for(x=0; x<cols; x++) for(y=0; y<rows; y++)], in that order *)
Definition grid_indices (cols rows : Z) : list (Z * Z) :=
  x ← seqZ 0 cols; y ← seqZ 0 rows; [(x, y)].

(** [ptable] and [ptablect].  A pixel's buffer is the list of its cells, as
    many as were allocated; a cell that was never stored to is [None]. *)
Record tables := {
  ptable : grid (list (option photon));
  ptablect : grid Z
}.

(** ** Table sorter *)

(** [for(photonSwapAddr = swap; photonSwapAddr > lo; photonSwapAddr--)
      *photonSwapAddr = *(photonSwapAddr-1);] *)
Fixpoint shift_up (a : list photon) (swap lo : nat) {struct swap}
  : list photon :=
  match swap with
  | O => a
  | S below =>
      if decide (lo < swap)%nat then
        match a !! below with
        | Some p => shift_up (<[swap := p]> a) below lo
        | None => a
        end
      else a
  end.

(** [photonToSort = *photonToSortAddr;] the shifting loop down to [dest],
    then [*dest = photonToSort;] *)
Definition move_down (a : list photon) (i dest : nat) : list photon :=
  match a !! i with
  | Some photonToSort => <[dest := photonToSort]> (shift_up a i dest)
  | None => a
  end.

(** the loop over [curPhotonAddr], entered at index [cur], for the
    element at index [i] *)
Fixpoint place (a : list photon) (i cur : nat) {struct cur} : list photon :=
  match a !! i, a !! cur with
  | Some toSort, Some curPhoton =>
      if bool_decide (timestamp toSort >= timestamp curPhoton) then
        if decide (cur = (i - 1)%nat) then a      (* already sorted *)
        else move_down a i (S cur)
      else
        match cur with
        | O => move_down a i 0                     (* smallest in the table *)
        | S before => place a i before
        end
  | _, _ => a
  end.

(** the loop over [photonToSortAddr], from index [i], [n] more rounds *)
Fixpoint sort_from (a : list photon) (i n : nat) {struct n} : list photon :=
  match n with
  | O => a
  | S n' => sort_from (place a i (i - 1)) (S i) n'
  end.

(** the three inner loops of [SortPhotonTables] on the [ptablect[x][y]]
    photons of one pixel *)
Definition sort_photons (a : list photon) : list photon :=
  sort_from a 1 (length a - 1).

(** [Some ps] when every cell of [cells] holds a photon *)
Definition all_written (cells : list (option photon)) : option (list photon) :=
  mapM id cells.

(** the body of the loops over [x] and [y].  With at most one photon the
    sorting loop does not run and [ptable[x][y]] is not dereferenced. *)
Definition sort_pixel (t : tables) (xy : Z * Z) : res tables :=
  let '(x, y) := xy in
  n ← grid_read PtablectArr (ptablect t) x y;
  if bool_decide (n <= 1) then Ok t
  else
    buf ← grid_read PtableArr (ptable t) x y;
    if bool_decide (Z.of_nat (length buf) < n) then Fault (OutOfBounds PixelBuf)
    else
      match all_written (take (Z.to_nat n) buf) with
      | None => Fault (Uninitialised PixelBuf)
      | Some ps =>
          pt ← grid_write PtableArr (ptable t) x y
                 ((Some <$> sort_photons ps) ++ drop (Z.to_nat n) buf);
          Ok {| ptable := pt; ptablect := ptablect t |}
      end.

Definition SortPhotonTables (t : tables) (beamCols beamRows : Z) : res tables :=
  for_each sort_pixel t (grid_indices beamCols beamRows).

(** ** Beam map *)

Definition InitializeBeamMap (BeamMap : grid Z) (value beamCols beamRows : Z)
  : res (grid Z) :=
  for_each (fun g '(x, y) => grid_write BeamMapArr g x y value)
           BeamMap (grid_indices beamCols beamRows).

(** What [fscanf] finds in the beam-map file: the lines on which it
    converts all four numbers, and the numbers (at most three) it
    converts and stores on the last, failing call. *)
Record beam_file := {
  bf_lines : list (Z * Z * Z * Z);     (* resid, flag, x, y *)
  bf_partial : list Z
}.

(** the locals [resid], [flag], [x], [y]; [None] before the first store *)
Record scan_vars := {
  v_resid : option Z;
  v_flag : option Z;
  v_x : option Z;
  v_y : option Z
}.

Record beam_state := {
  BeamMap : grid Z;
  BeamFlag : grid Z;
  DiskBeamMap : list (Z * Z * Z * Z);
  count : Z
}.

Definition local (v : option Z) : res Z :=
  match v with
  | Some z => Ok z
  | None => Fault (Uninitialised LocalVar)
  end.

(** the three stores that end every round of the [do] loop, also the
    last one *)
Definition store_beam (vars : scan_vars) (s : beam_state) : res beam_state :=
  resid ← local (v_resid vars);
  flag ← local (v_flag vars);
  x ← local (v_x vars);
  y ← local (v_y vars);
  bm ← grid_write BeamMapArr (BeamMap s) x y (uint32 resid);
  bfl ← grid_write BeamFlagArr (BeamFlag s) x y
          (if bool_decide (flag > 1) then 2 else uint32 flag);
  Ok {| BeamMap := bm; BeamFlag := bfl;
        DiskBeamMap := DiskBeamMap s; count := count s |}.

(** a round in which [fscanf] returns 4 *)
Definition scan_line (s : beam_state) (line : Z * Z * Z * Z) : res beam_state :=
  let '(resid, flag, x, y) := line in
  if bool_decide (0 <= count s < Z.of_nat (length (DiskBeamMap s))) then
    store_beam
      {| v_resid := Some resid; v_flag := Some flag; v_x := Some x; v_y := Some y |}
      {| BeamMap := BeamMap s; BeamFlag := BeamFlag s;
         DiskBeamMap := <[Z.to_nat (count s) := line]> (DiskBeamMap s);
         count := count s + 1 |}
  else Fault (OutOfBounds DiskBeamMapArr).

(** the locals after the failing call: the conversions it made are stored
    over the values of the last full line *)
Definition vars_at_end (f : beam_file) : scan_vars :=
  let last_line := last (bf_lines f) in
  let old (proj : Z * Z * Z * Z -> Z) := proj <$> last_line in
  let new (i : nat) (proj : Z * Z * Z * Z -> Z) :=
    match bf_partial f !! i with
    | Some z => Some z
    | None => old proj
    end in
  {| v_resid := new 0%nat (fun '(r, _, _, _) => r);
     v_flag := new 1%nat (fun '(_, fl, _, _) => fl);
     v_x := new 2%nat (fun '(_, _, x, _) => x);
     v_y := old (fun '(_, _, _, y) => y) |}.

Definition ParseBeamMapFile (f : beam_file) (s : beam_state) : res beam_state :=
  s' ← for_each scan_line s (bf_lines f);
  store_beam (vars_at_end f) s'.

(** ** Packet decoder *)

Definition load (o : cobj) (mem : list byte) (off : Z) : res Z :=
  match load64 mem off with
  | Some w => Ok w
  | None => Fault (OutOfBounds o)
  end.

(** [basetime = hdr->timestamp - tstart]: an unsigned 64-bit difference
    stored in an [int64_t] *)
Definition basetime_of (hdr : hdrpacket) (tstart : Z) : Z :=
  int64 (uint64 (hdr_timestamp hdr - tstart)).

(** the photon stored for a data word: lines 195 to 199 *)
Definition new_photon (bmval basetime : Z) (data : datapacket) : photon :=
  {| resID := bmval;
     timestamp := uint32 (int64 (int64 (basetime * 500) + data_timestamp data));
     wvl := F_scaled (data_wvl data);
     wSpec := F_one;
     wNoise := F_one |}.

(** [(long) ceil(ct/2500.0)] for a 32-bit unsigned [ct]: the quotient is
    not an integer unless [ct] is a multiple of 2500, and is then further
    from one than a double's rounding error, so the result is the exact
    integer ceiling. *)
Definition cursize_of (ct : Z) : Z := (ct + 2499) / 2500.

(** [realloc(buf, 2500*sizeof(photon)*n)]: the cells kept, the new ones
    unwritten *)
Definition realloc_photons (buf : list (option photon)) (n : Z)
  : list (option photon) :=
  resize (Z.to_nat (2500 * n)) None buf.

(** [buf[ct] = p] *)
Definition store_photon (buf : list (option photon)) (ct : Z) (p : photon)
  : res (list (option photon)) :=
  if bool_decide (0 <= ct < Z.of_nat (length buf))
  then Ok (<[Z.to_nat ct := Some p]> buf)
  else Fault (OutOfBounds PixelBuf).

(** lines 188 to 192: when the count calls for it the pixel's buffer is
    reallocated one chunk larger *)
Definition grow_pixel (t : tables) (x y : Z) : res tables :=
  ct ← grid_read PtablectArr (ptablect t) x y;
  if bool_decide (ct mod 2500 = 2498) then
    buf ← grid_read PtableArr (ptable t) x y;
    pt ← grid_write PtableArr (ptable t) x y
           (realloc_photons buf (cursize_of ct + 1));
    Ok {| ptable := pt; ptablect := ptablect t |}
  else Ok t.

(** lines 195 to 200: the photon is stored at the count and the count is
    incremented *)
Definition push_photon (t : tables) (x y : Z) (p : photon) : res tables :=
  ct ← grid_read PtablectArr (ptablect t) x y;
  buf ← grid_read PtableArr (ptable t) x y;
  buf' ← store_photon buf ct p;
  pt ← grid_write PtableArr (ptable t) x y buf';
  ctg ← grid_write PtablectArr (ptablect t) x y (uint32 (ct + 1));
  Ok {| ptable := pt; ptablect := ctg |}.

(** one append to the event store of pixel [(x, y)] *)
Definition append_photon (t : tables) (x y : Z) (p : photon) : res tables :=
  t' ← grow_pixel t x y; push_photon t' x y p.

(** the read-only arguments of [ParseToMem] and the global [tstart] *)
Record decode_ctx := {
  tstart : Z;
  c_BeamMap : grid Z;
  c_BeamFlag : grid Z;
  mapflag : Z;
  beamCols : Z;
  beamRows : Z
}.

(** is the word skipped by the two [continue] tests of lines 183, 184 *)
Definition skipped (c : decode_ctx) (data : datapacket) : res bool :=
  if bool_decide (data_xcoord data >= beamCols c \/ data_ycoord data >= beamRows c)
  then Ok true
  else if bool_decide (mapflag c > 0) then
    fl ← grid_read BeamFlagArr (c_BeamFlag c) (data_xcoord data) (data_ycoord data);
    Ok (bool_decide (fl > 0))
  else Ok false.

(** the body of the loop over [i] *)
Definition ParseToMem_word (c : decode_ctx) (packet : list byte) (basetime : Z)
    (t : tables) (i : Z) : res tables :=
  swp ← load PacketBuf packet (i * 8);
  let data := as_datapacket (bswap_64 swp) in
  skip ← skipped c data;
  if (skip : bool) then Ok t
  else
    t' ← grow_pixel t (data_xcoord data) (data_ycoord data);
    bmval ← grid_read BeamMapArr (c_BeamMap c) (data_xcoord data) (data_ycoord data);
    push_photon t' (data_xcoord data) (data_ycoord data)
      (new_photon bmval basetime data).

(** the header of a packet after [FixOverflowTimestamps] *)
Definition fixed_header (swp : Z) (tsOffs FirstFile iFile : Z) : hdrpacket :=
  FixOverflowTimestamps (as_hdrpacket (bswap_64 swp)) (int32 (FirstFile + iFile)) tsOffs.

Definition ParseToMem (c : decode_ctx) (packet : list byte) (l : Z)
    (tsOffs FirstFile iFile : Z) (t : tables) : res tables :=
  swp ← load PacketBuf packet 0;
  if bool_decide (hdr_start (as_hdrpacket (bswap_64 swp)) <> 255) then Ok t
  else
    let basetime := basetime_of (fixed_header swp tsOffs FirstFile iFile) (tstart c) in
    if bool_decide (basetime < 0) then Ok t
    else for_each (ParseToMem_word c packet basetime) t (seqZ 1 (l / 8 - 1)).

(** ** Run extractor *)

(** What the run reads from outside the process. *)
Record world := {
  opendir_enoent : bool;             (* [errno] is [ENOENT] after [opendir(binpath)] *)
  year_start : Z -> Z;               (* [timegm] of 1 January 00:00 of the year of [gmtime(t)] *)
  beammap : beam_file;               (* the file named [beammap_file] *)
  binfile : Z -> option (list byte)  (* the bytes of [<binpath>/<n>.bin], if it opens *)
}.

(** The arguments of [extract_photons] other than the two paths.
    [otable] is the caller's array, as long as the caller made it. *)
Record call := {
  start_timestamp : Z;
  integration_time : Z;
  bmap_ncol : Z;
  bmap_nrow : Z;
  n_max_photons : Z;
  otable : list (option photon)
}.

Definition beamMapInitVal : Z := uint32 (-1).

(** [calloc]: every cell written with zero *)
Definition grid_calloc (cols rows : Z) : grid Z :=
  foldl (fun g '(x, y) => grid_set g x y 0) (grid_alloc cols rows)
        (grid_indices cols rows).

(** lines 309 to 322: a buffer of one chunk for every mapped pixel *)
Definition alloc_pixel (bm : grid Z) (pt : grid (list (option photon)))
    (xy : Z * Z) : res (grid (list (option photon))) :=
  let '(i, j) := xy in
  v ← grid_read BeamMapArr bm i j;
  if bool_decide (v = beamMapInitVal) then Ok pt
  else grid_write PtableArr pt i j (replicate 2500 None).

(** the locals of [extract_photons] that live across packets and files *)
Record frame_state := {
  firstHeader : option Z;
  pstart : option Z;
  packet : list byte;
  f_tables : tables
}.

Definition is_header (swp : Z) : bool :=
  bool_decide (hdr_start (as_hdrpacket (bswap_64 swp)) = 255).

(** lines 351 to 361: the index of the first header word, if there is one *)
Fixpoint first_header (data : list byte) (js : list Z) : res (option Z) :=
  match js with
  | [] => Ok None
  | j :: rest =>
      swp ← load DataBuf data (j * 8);
      if is_header swp then Ok (Some j) else first_header data rest
  end.

(** [memmove(packet, src, l)] with [src] at byte [from] of [data] *)
Definition memmove_packet (packet data : list byte) (from l : Z)
  : res (list byte) :=
  if bool_decide (l <= Z.of_nat (length packet)) then
    if bool_decide (from + l <= Z.of_nat (length data)) then
      Ok (take (Z.to_nat l) (drop (Z.to_nat from) data) ++ drop (Z.to_nat l) packet)
    else Fault (OutOfBounds DataBuf)
  else Fault (OutOfBounds PacketBuf).

(** the body of the loop over [k], lines 365 to 378 *)
Definition frame_word (c : decode_ctx) (data : list byte)
    (tsOffs FirstFile i : Z) (s : frame_state) (k : Z) : res frame_state :=
  swp ← load DataBuf data (k * 8);
  if is_header swp then
    ps ← local (pstart s);
    let l := uint64 (k * 8 - ps) in
    pkt ← memmove_packet (packet s) data (ps / 8 * 8) l;
    t ← ParseToMem c pkt l (int32 tsOffs) FirstFile (int32 i) (f_tables s);
    Ok {| firstHeader := firstHeader s; pstart := Some (k * 8);
          packet := pkt; f_tables := t |}
  else Ok s.

(** the body of the loop over the files, lines 338 to 379 *)
Definition parse_file (w : world) (c : decode_ctx) (tsOffs FirstFile : Z)
    (s : frame_state) (i : Z) : res frame_state :=
  match binfile w (int64 (FirstFile + i)) with
  | None => Fault NullFile
  | Some data =>
      let nwords := Z.of_nat (length data) / 8 in
      found ← first_header data (seqZ 0 nwords);
      let s1 :=
        match found with
        | Some j => {| firstHeader := Some j; pstart := Some j;
                       packet := packet s; f_tables := f_tables s |}
        | None => s
        end in
      fh ← local (firstHeader s1);
      for_each (frame_word c data tsOffs FirstFile i) s1
               (seqZ (fh + 1) (nwords - (fh + 1)))
  end.

(** [memcpy(&otable[nPhot], buf, ct * sizeof(photon))] *)
Definition memcpy_photons (out : list (option photon)) (nPhot : Z)
    (buf : list (option photon)) (ct : Z) : res (list (option photon)) :=
  if bool_decide (ct <= Z.of_nat (length buf)) then
    if bool_decide (nPhot + ct <= Z.of_nat (length out)) then
      Ok (take (Z.to_nat nPhot) out ++ take (Z.to_nat ct) buf
          ++ drop (Z.to_nat (nPhot + ct)) out)
    else Fault (OutOfBounds Otable)
  else Fault (OutOfBounds PixelBuf).

(** the body of the loop over [j], lines 393 to 400; the state is [nPhot]
    and the output array *)
Definition flatten_entry (bs : beam_state) (t : tables)
    (acc : Z * list (option photon)) (j : Z) : res (Z * list (option photon)) :=
  let '(nPhot, out) := acc in
  match DiskBeamMap bs !! Z.to_nat j with
  | None => Fault (OutOfBounds DiskBeamMapArr)
  | Some (_, _, x, y) =>
      bm ← grid_read BeamMapArr (BeamMap bs) x y;
      if bool_decide (bm = beamMapInitVal) then Ok acc
      else
        ct ← grid_read PtablectArr (ptablect t) x y;
        if bool_decide (ct = 0) then Ok acc
        else
          buf ← grid_read PtableArr (ptable t) x y;
          out' ← memcpy_photons out nPhot buf ct;
          Ok (nPhot + ct, out')
  end.

(** line 269: [tstart = (uint64_t)(FirstFile-tsOffs)*2000], the difference
    taken in [unsigned int] *)
Definition tick_origin (FirstFile tsOffs : Z) : Z :=
  uint64 (uint32 (FirstFile - tsOffs) * 2000).

(** everything up to the copy into the output array: the beam map as
    loaded and the sorted tables *)
Definition run_tables (w : world) (a : call) : res (beam_state * tables) :=
  let FirstFile := int32 (start_timestamp a) in
  let nFiles := uint32 (integration_time a + 1) in
  let mapflag := 1 in
  let beamCols := uint32 (bmap_ncol a) in
  let beamRows := uint32 (bmap_nrow a) in
  let tsOffs := uint32 (year_start w FirstFile) in
  let tstart := tick_origin FirstFile tsOffs in
  bm ← InitializeBeamMap (grid_alloc beamCols beamRows) beamMapInitVal beamCols beamRows;
  bfl ← InitializeBeamMap (grid_alloc beamCols beamRows) 1 beamCols beamRows;
  bs ← ParseBeamMapFile (beammap w)
         {| BeamMap := bm; BeamFlag := bfl;
            DiskBeamMap := replicate (Z.to_nat (uint32 (beamCols * beamRows))) (0, 0, 0, 0);
            count := 0 |};
  pt ← for_each (alloc_pixel (BeamMap bs)) (grid_alloc beamCols beamRows)
         (grid_indices beamCols beamRows);
  let c := {| tstart := tstart; c_BeamMap := BeamMap bs; c_BeamFlag := BeamFlag bs;
              mapflag := mapflag; beamCols := beamCols; beamRows := beamRows |} in
  s ← for_each (parse_file w c tsOffs FirstFile)
        {| firstHeader := None; pstart := None;
           packet := replicate (808 * 16) x00;
           f_tables := {| ptable := pt; ptablect := grid_calloc beamCols beamRows |} |}
        (seqZ 0 nFiles);
  t ← SortPhotonTables (f_tables s) beamCols beamRows;
  Ok (bs, t).

(** lines 405 to 410: [free(ptable[i][j])] unless [BeamMap[i][j]] is 0.
    The pointer is read from [ptable]; no array is read after the loop,
    so the loop carries no state. *)
Definition free_pixel (bm : grid Z) (pt : grid (list (option photon)))
    (_ : unit) (xy : Z * Z) : res unit :=
  let '(i, j) := xy in
  v ← grid_read BeamMapArr bm i j;
  if bool_decide (v = 0) then Ok tt
  else _ ← grid_read PtableArr pt i j; Ok tt.

Definition release_tables (bm : grid Z) (pt : grid (list (option photon)))
    (beamCols beamRows : Z) : res unit :=
  for_each (free_pixel bm pt) tt (grid_indices beamCols beamRows).

(** [extract_photons]: the value returned and the output array when it
    returns.  After the copy the pixels' buffers are released (lines 404
    to 410).  The frees that follow (lines 416 to 440) are of pointers
    that were all assigned by then, and are left out. *)
Definition extract_photons (w : world) (a : call)
  : res (Z * list (option photon)) :=
  if opendir_enoent w then Ok (-1, otable a)
  else
    let nFiles := uint32 (integration_time a + 1) in
    if bool_decide (nFiles < 1 \/ nFiles > 1800) then Ok (-1, otable a)
    else
      '(bs, t) ← run_tables w a;
      r ← for_each (flatten_entry bs t) (0, otable a)
            (seqZ 0 (uint32 (uint32 (bmap_ncol a) * uint32 (bmap_nrow a))));
      _ ← release_tables (BeamMap bs) (ptable t)
            (uint32 (bmap_ncol a)) (uint32 (bmap_nrow a));
      Ok r.

(** ** Vocabulary of the statements *)

(** the order the sorter establishes *)
Definition ts_le (p q : photon) : Prop := timestamp p <= timestamp q.

(** the count and the buffer of pixel [(x, y)] *)
Definition count_at (t : tables) (xy : Z * Z) : option Z :=
  g_cells (ptablect t) !! xy.
Definition buffer_at (t : tables) (xy : Z * Z) : option (list (option photon)) :=
  g_cells (ptable t) !! xy.

(** what [SortPhotonTables] needs of a pixel: a count, and when the count
    is two or more a buffer whose cells up to the count were all stored *)
Definition sortable (t : tables) (xy : Z * Z) : Prop :=
  in_grid (ptablect t) xy.1 xy.2 = true
  /\ exists n, count_at t xy = Some n
     /\ (1 < n ->
         in_grid (ptable t) xy.1 xy.2 = true
         /\ exists buf ps, buffer_at t xy = Some buf
            /\ take (Z.to_nat n) buf = Some <$> ps
            /\ n <= Z.of_nat (length buf)).

(** what one round of the loops over [x] and [y] does to its pixel *)
Definition pixel_sorted (t : tables) (xy : Z * Z) (t' : tables) : Prop :=
  forall n buf ps,
    count_at t xy = Some n -> buffer_at t xy = Some buf ->
    take (Z.to_nat n) buf = Some <$> ps ->
    exists qs,
      buffer_at t' xy = Some ((Some <$> qs) ++ drop (Z.to_nat n) buf)
      /\ Sorted ts_le qs /\ Permutation ps qs /\ (Sorted ts_le ps -> qs = ps).


(** pixel [xy] as [extract_photons] sets it up before the first file: a
    zero count and a buffer of one chunk, no cell stored *)
Definition fresh_pixel (t : tables) (xy : Z * Z) : Prop :=
  in_grid (ptablect t) xy.1 xy.2 = true
  /\ in_grid (ptable t) xy.1 xy.2 = true
  /\ count_at t xy = Some 0
  /\ buffer_at t xy = Some (replicate 2500 None).

(** the appends of the photons [ps] to pixel [(x, y)], in order *)
Definition appends (t : tables) (x y : Z) (ps : list photon) : res tables :=
  for_each (fun t p => append_photon t x y p) t ps.

(** the capacity of a buffer after [n] appends *)
Definition capacity_after (n : Z) : Z := 2500 * ((n + 1) / 2500 + 1).

(** the state of pixel [(x, y)] between two appends *)
Definition store_inv (t : tables) (x y : Z) (ps : list photon) : Prop :=
  in_grid (ptablect t) x y = true
  /\ in_grid (ptable t) x y = true
  /\ count_at t (x, y) = Some (Z.of_nat (length ps))
  /\ exists buf,
       buffer_at t (x, y) = Some buf
       /\ take (length ps) buf = Some <$> ps
       /\ Z.of_nat (length buf) = capacity_after (Z.of_nat (length ps)).

(** the pixel a line of the beam-map file names *)
Definition line_pixel (line : Z * Z * Z * Z) : Z * Z :=
  let '(_, _, x, y) := line in (x, y).

(** the pixels [ParseBeamMapFile] stores to: those of the full lines, and
    the one the locals name after the failing call *)
Definition file_pixels (f : beam_file) : list (Z * Z) :=
  (line_pixel <$> bf_lines f)
  ++ match v_x (vars_at_end f), v_y (vars_at_end f) with
     | Some x, Some y => [(x, y)]
     | _, _ => []
     end.

(** the beam map while it is loaded: both arrays keep the extent of the
    map, every [BeamMap] cell of the map is written, no flag is negative *)
Definition beam_ok (cols rows : Z) (s : beam_state) : Prop :=
  g_cols (BeamMap s) = cols /\ g_rows (BeamMap s) = rows
  /\ g_cols (BeamFlag s) = cols /\ g_rows (BeamFlag s) = rows
  /\ (forall x y, 0 <= x < cols -> 0 <= y < rows ->
        is_Some (g_cells (BeamMap s) !! (x, y)))
  /\ (forall xy fl, g_cells (BeamFlag s) !! xy = Some fl -> 0 <= fl).

(** the counts while the files are decoded in valid-pixels-only mode: a
    pixel of the map whose flag is not zero has count zero *)
Definition flagged_empty (flags : grid Z) (cols rows : Z) (t : tables) : Prop :=
  g_cols (ptablect t) = cols /\ g_rows (ptablect t) = rows
  /\ forall x y fl,
       0 <= x < cols -> 0 <= y < rows ->
       g_cells flags !! (x, y) = Some fl -> fl <> 0 ->
       count_at t (x, y) = Some 0.

(** ** Sample inputs *)

Definition byte_of (z : Z) : byte :=
  default x00 (Byte.of_N (Z.to_N (z mod 256))).

(** the eight bytes of a word as the readout sends them, most
    significant first *)
Definition be_bytes (w : Z) : list byte :=
  (fun i => byte_of (Z.shiftr w (8 * (7 - i)))) <$> seqZ 0 8.

(** a header with hardware timestamp [ts] *)
Definition header_at (ts : Z) : hdrpacket :=
  {| hdr_timestamp := ts; hdr_frame := 0; hdr_roach := 0; hdr_start := 255 |}.

(** a header word with the marker set *)
Definition hdr_word (ts fr ro : Z) : Z :=
  ts + fr * 2 ^ 36 + ro * 2 ^ 48 + 255 * 2 ^ 56.

(** a data word for pixel column [x], row [y] *)
Definition data_word (x y ts wv bl : Z) : Z :=
  bl mod 2 ^ 17 + (wv mod 2 ^ 18) * 2 ^ 17 + ts * 2 ^ 35 + y * 2 ^ 44 + x * 2 ^ 54.

(** a run of one file, named [1514764900]: 100 seconds into 2018 *)
Definition one_file (lines : list (Z * Z * Z * Z)) (data : list byte) : world :=
  {| opendir_enoent := false;
     year_start := fun _ => 1514764800;
     beammap := {| bf_lines := lines; bf_partial := [] |};
     binfile := fun n => if bool_decide (n = 1514764900) then Some data else None |}.

(** the same run with a beam-map file that ends in the numbers
    [partial], too few for a line *)
Definition one_file_partial (lines : list (Z * Z * Z * Z)) (partial : list Z)
    (data : list byte) : world :=
  {| opendir_enoent := false;
     year_start := fun _ => 1514764800;
     beammap := {| bf_lines := lines; bf_partial := partial |};
     binfile := fun n => if bool_decide (n = 1514764900) then Some data else None |}.

Definition one_second (cols rows : Z) (n_max : nat) : call :=
  {| start_timestamp := 1514764900; integration_time := 0;
     bmap_ncol := cols; bmap_nrow := rows;
     n_max_photons := Z.of_nat n_max; otable := replicate n_max None |}.

(** a header 5 ticks after the start of the file and one photon on
    pixel (0, 0): a file that holds one packet, its last *)
Definition last_packet_only : list byte :=
  be_bytes (hdr_word 200005 0 0) ++ be_bytes (data_word 0 0 3 10 0).

(** the same packet followed by the header of a next one *)
Definition packet_then_header : list byte :=
  last_packet_only ++ be_bytes (hdr_word 200006 0 0).

(** a packet of one photon on pixel (0, 0) and one on pixel (1, 0),
    closed by a header *)
Definition two_pixel_packet : list byte :=
  be_bytes (hdr_word 200005 0 0)
  ++ be_bytes (data_word 0 0 3 10 0) ++ be_bytes (data_word 1 0 4 11 0)
  ++ be_bytes (hdr_word 200006 0 0).

(** a packet of two photons on pixel (0, 0), closed by a header *)
Definition two_photons : list byte :=
  be_bytes (hdr_word 200005 0 0)
  ++ be_bytes (data_word 0 0 3 10 0) ++ be_bytes (data_word 0 0 4 11 0)
  ++ be_bytes (hdr_word 200006 0 0).

Definition sample_photon (ts : Z) : photon :=
  {| resID := 7; timestamp := ts; wvl := F_scaled 0; wSpec := F_one; wNoise := F_one |}.

(** one pixel holding three photons out of order in a buffer of four cells *)
Definition unsorted_tables : tables :=
  {| ptable := grid_set (grid_alloc 1 1) 0 0
                 [Some (sample_photon 30); Some (sample_photon 10);
                  Some (sample_photon 20); None];
     ptablect := grid_set (grid_alloc 1 1) 0 0 3 |}.

(** one pixel as set up before the first file *)
Definition fresh_tables : tables :=
  {| ptable := grid_set (grid_alloc 1 1) 0 0 (replicate 2500 None);
     ptablect := grid_set (grid_alloc 1 1) 0 0 0 |}.

(** 2500 * 3 - 1 photons, enough to cross two chunk boundaries *)
Definition many_photons : list photon :=
  replicate (Z.to_nat 7499) (sample_photon 1).

(** a one-pixel map, flag 0, tick origin at 100 seconds *)
Definition sample_ctx : decode_ctx :=
  {| tstart := 200000;
     c_BeamMap := grid_set (grid_alloc 1 1) 0 0 7;
     c_BeamFlag := grid_set (grid_alloc 1 1) 0 0 0;
     mapflag := 1; beamCols := 1; beamRows := 1 |}.

(** a packet stamped 50 ticks into the year, before the tick origin *)
Definition early_packet : list byte :=
  be_bytes (hdr_word 50 0 0) ++ be_bytes (data_word 0 0 3 10 0).

(** a packet whose second data word names column 5 *)
Definition stray_packet : list byte :=
  be_bytes (hdr_word 200005 0 0)
  ++ be_bytes (data_word 0 0 3 10 0) ++ be_bytes (data_word 5 0 4 11 0).

(** ** Vocabulary of the further statements *)

(** big-endian value of a run of bytes, the first byte most significant *)
Definition be_value (bs : list byte) : Z :=
  foldl (fun acc b => acc * 256 + byte_val b) 0 bs.

(** the photons of a list that carry timestamp [v], in their order *)
Definition at_time (v : Z) (ps : list photon) : list photon :=
  filter (fun p => timestamp p = v) ps.

(** one pixel holding two photons of one timestamp after a later one *)
Definition tied_tables : tables :=
  {| ptable := grid_set (grid_alloc 1 1) 0 0
                 [Some (sample_photon 30);
                  Some {| resID := 1; timestamp := 10; wvl := F_scaled 0;
                          wSpec := F_one; wNoise := F_one |};
                  Some {| resID := 2; timestamp := 10; wvl := F_scaled 0;
                          wSpec := F_one; wNoise := F_one |};
                  None];
     ptablect := grid_set (grid_alloc 1 1) 0 0 3 |}.

(** the last line of a beam-map file that names pixel [xy] *)
Definition last_line_for (lines : list (Z * Z * Z * Z)) (xy : Z * Z)
  : option (Z * Z * Z * Z) :=
  last (filter (fun line => line_pixel line = xy) lines).

(** what [ParseBeamMapFile] stores for a line: the resid cut to 32 bits,
    and the flag with everything above 1 made 2 *)
Definition stored_resid (line : Z * Z * Z * Z) : Z :=
  let '(resid, _, _, _) := line in uint32 resid.
Definition stored_flag (line : Z * Z * Z * Z) : Z :=
  let '(_, flag, _, _) := line in
  if bool_decide (flag > 1) then 2 else uint32 flag.

(** a state of the beam-map load with both arrays of extent [cols] by
    [rows] *)
Definition beam_extent (cols rows : Z) (s : beam_state) : Prop :=
  g_cols (BeamMap s) = cols /\ g_rows (BeamMap s) = rows
  /\ g_cols (BeamFlag s) = cols /\ g_rows (BeamFlag s) = rows.

Definition in_map (cols rows : Z) (line : Z * Z * Z * Z) : Prop :=
  0 <= (line_pixel line).1 < cols /\ 0 <= (line_pixel line).2 < rows.

(** a two-by-one map before the load, as [extract_photons] sets it up *)
Definition blank_beam_state : beam_state :=
  {| BeamMap := grid_set (grid_set (grid_alloc 2 1) 0 0 beamMapInitVal) 1 0 beamMapInitVal;
     BeamFlag := grid_set (grid_set (grid_alloc 2 1) 0 0 1) 1 0 1;
     DiskBeamMap := [(0, 0, 0, 0); (0, 0, 0, 0)];
     count := 0 |}.

Definition sample_beam_file : beam_file :=
  {| bf_lines := [(7, 5, 1, 0); (9, 0, 1, 0)]; bf_partial := [] |}.

(** is the first byte of word [j] of a file the header marker 0xff *)
Definition word_is_header (data : list byte) (j : Z) : bool :=
  match data !! Z.to_nat (j * 8) with
  | Some b => Byte.eqb b xff
  | None => false
  end.

(** the header words of a file among the words [js] *)
Definition header_words (data : list byte) (js : list Z) : list Z :=
  filter (fun j => word_is_header data j = true) js.

(** the bytes of the words [p] up to [k], [k] left out *)
Definition words_between (data : list byte) (p k : Z) : list byte :=
  take (Z.to_nat ((k - p) * 8)) (drop (Z.to_nat (p * 8)) data).

(** the packets a file is cut into by the header words [hs] after the
    header word [p]: each runs from one header to the next, and nothing
    is cut after the last header *)
Fixpoint packets_from (data : list byte) (p : Z) (hs : list Z)
  : list (list byte) :=
  match hs with
  | [] => []
  | k :: rest => words_between data p k :: packets_from data k rest
  end.

(** [ParseToMem] on a packet of its own length, as file [i] hands it over *)
Definition decode_packet (c : decode_ctx) (tsOffs FirstFile i : Z)
    (t : tables) (pk : list byte) : res tables :=
  ParseToMem c pk (Z.of_nat (length pk)) (int32 tsOffs) FirstFile (int32 i) t.

(** a state of the framing loop before the first file *)
Definition idle_frame : frame_state :=
  {| firstHeader := None; pstart := None;
     packet := replicate (808 * 16) x00; f_tables := fresh_tables |}.

(** the framing loop after the scan found the first header at word [j] *)
Definition after_first_header (j : Z) : frame_state :=
  {| firstHeader := Some j; pstart := Some j;
     packet := replicate (808 * 16) x00; f_tables := fresh_tables |}.

(** a file whose first header is its word 1: a stray data word, then a
    packet of one photon, then the header of a next packet *)
Definition late_header_file : list byte :=
  be_bytes (data_word 0 0 1 10 0) ++ be_bytes (hdr_word 200005 0 0)
  ++ be_bytes (data_word 0 0 3 10 0) ++ be_bytes (hdr_word 200007 0 0).

(** the cells entry [j] of [DiskBeamMap] adds to the output: those below
    the count of the pixel it names, none when the pixel has the initial
    resid *)
Definition entry_cells (bs : beam_state) (t : tables) (j : Z)
  : list (option photon) :=
  match DiskBeamMap bs !! Z.to_nat j with
  | Some (_, _, x, y) =>
      match g_cells (BeamMap bs) !! (x, y), count_at t (x, y), buffer_at t (x, y) with
      | Some bm, Some ct, Some buf =>
          if bool_decide (bm = beamMapInitVal) then [] else take (Z.to_nat ct) buf
      | _, _, _ => []
      end
  | None => []
  end.



(** a pixel of the map while the files are decoded: it has a count; a
    pixel whose resid is the initial one has no buffer and count zero,
    any other has a buffer whose cells below the count are all stored *)
Definition pixel_ok (bm : grid Z) (t : tables) (xy : Z * Z) : Prop :=
  exists n v,
    count_at t xy = Some n /\ 0 <= n
    /\ g_cells bm !! xy = Some v
    /\ match buffer_at t xy with
       | None => n = 0 /\ v = beamMapInitVal
       | Some buf =>
           v <> beamMapInitVal /\ n <= Z.of_nat (length buf)
           /\ exists ps, take (Z.to_nat n) buf = Some <$> ps
       end.

Definition tables_ok (bm : grid Z) (cols rows : Z) (t : tables) : Prop :=
  g_cols (ptable t) = cols /\ g_rows (ptable t) = rows
  /\ g_cols (ptablect t) = cols /\ g_rows (ptablect t) = rows
  /\ forall x y, 0 <= x < cols -> 0 <= y < rows -> pixel_ok bm t (x, y).

(** the pixel and the photon a data word of a packet adds, when the loop
    of [ParseToMem] does not skip the word *)
Definition word_event (c : decode_ctx) (packet : list byte) (basetime i : Z)
  : option (Z * Z * photon) :=
  match load64 packet (i * 8) with
  | Some swp =>
      let data := as_datapacket (bswap_64 swp) in
      match skipped c data,
            g_cells (c_BeamMap c) !! (data_xcoord data, data_ycoord data) with
      | Ok false, Some bmval =>
          Some (data_xcoord data, data_ycoord data, new_photon bmval basetime data)
      | _, _ => None
      end
  | None => None
  end.

(** the photons the words [js] of a packet add to pixel [xy], in the
    order of the words *)
Definition events_for (c : decode_ctx) (packet : list byte) (basetime : Z)
    (xy : Z * Z) (js : list Z) : list photon :=
  js ≫= (fun i =>
           match word_event c packet basetime i with
           | Some (x, y, p) => if decide ((x, y) = xy) then [p] else []
           | None => []
           end).

(** pixel [xy] holds the photons [ps]: they are as many as its count
    says, and the first cells of its buffer, in order *)
Definition holds (t : tables) (xy : Z * Z) (ps : list photon) : Prop :=
  count_at t xy = Some (Z.of_nat (length ps))
  /\ exists buf, buffer_at t xy = Some buf /\ take (length ps) buf = Some <$> ps.

(** a one-pixel map whose pixel kept the initial resid but has flag 0,
    as after the line [4294967295 0 0 0], and the tables of that map *)
Definition unnamed_ctx : decode_ctx :=
  {| tstart := 200000;
     c_BeamMap := grid_set (grid_alloc 1 1) 0 0 beamMapInitVal;
     c_BeamFlag := grid_set (grid_alloc 1 1) 0 0 0;
     mapflag := 1; beamCols := 1; beamRows := 1 |}.

Definition unnamed_tables : tables :=
  {| ptable := grid_alloc 1 1; ptablect := grid_set (grid_alloc 1 1) 0 0 0 |}.

(** * Properties *)

(** closed comparisons of integers, by evaluation *)
Ltac zclosed :=
  vm_compute; repeat split; try reflexivity; try discriminate;
  try (let H := fresh in intros H; discriminate H).

(** ** Machine integers *)

Lemma wrapu_range w z : 0 <= w -> 0 <= wrapu w z < 2 ^ w.
Proof. intros Hw. unfold wrapu. apply Z.mod_pos_bound. lia. Qed.

Lemma wrapu_small w z : 0 <= z < 2 ^ w -> wrapu w z = z.
Proof. intros H. unfold wrapu. now apply Z.mod_small. Qed.

Lemma wraps_small w z :
  0 < w -> - 2 ^ (w - 1) <= z < 2 ^ (w - 1) -> wraps w z = z.
Proof.
  intros Hw H. unfold wraps.
  assert (E : 2 ^ w = 2 * 2 ^ (w - 1)).
  { replace w with (1 + (w - 1)) at 1 by lia.
    rewrite Z.pow_add_r by lia. reflexivity. }
  rewrite Z.mod_small by lia. lia.
Qed.

Lemma int32_small z : int_range z -> int32 z = z.
Proof. intros H. apply wraps_small; [lia | exact H]. Qed.

(** the signed wrap differs from its argument by a multiple of [2^w] *)
Lemma wraps_eqm w z : 0 < w -> exists k, wraps w z = z + k * 2 ^ w.
Proof.
  intros Hw. unfold wraps.
  exists (- ((z + 2 ^ (w - 1)) / 2 ^ w)).
  pose proof (Z.div_mod (z + 2 ^ (w - 1)) (2 ^ w)) as D.
  assert (2 ^ w <> 0) by (apply Z.pow_nonzero; lia).
  specialize (D ltac:(assumption)). lia.
Qed.

Lemma wrapu_wraps_sub w v z :
  0 < v <= w -> wrapu v (wraps w z) = wrapu v z.
Proof.
  intros Hvw. destruct (wraps_eqm w z ltac:(lia)) as [k ->].
  unfold wrapu.
  replace (2 ^ w) with (2 ^ (w - v) * 2 ^ v)
    by (rewrite <- Z.pow_add_r by lia; f_equal; lia).
  rewrite Z.mul_assoc. apply Z.mod_add.
  apply Z.pow_nonzero; lia.
Qed.

Lemma wraps_add_mul w a k : 0 < w -> wraps w (a + k * 2 ^ w) = wraps w a.
Proof.
  intros Hw. unfold wraps. f_equal.
  replace (a + k * 2 ^ w + 2 ^ (w - 1)) with (a + 2 ^ (w - 1) + k * 2 ^ w) by lia.
  apply Z.mod_add. apply Z.pow_nonzero; lia.
Qed.

Lemma wrapu_idemp_add w a b : 0 < w -> wrapu w (a + wrapu w b) = wrapu w (a + b).
Proof.
  intros Hw. unfold wrapu. apply Zplus_mod_idemp_r.
Qed.

Lemma wrapu_narrow v w z : 0 < v <= w -> wrapu v (wrapu w z) = wrapu v z.
Proof.
  intros Hvw. unfold wrapu. apply Z.mod_mod_divide.
  exists (2 ^ (w - v)). rewrite <- Z.pow_add_r by lia. f_equal; lia.
Qed.

(** ** Timestamp corrector *)

(** the numerator of the division, when it fits an [int] *)
Lemma nWraps_quot hdr f e :
  int_range (f - e - hdr_timestamp hdr / 2000 + 3) ->
  nWraps hdr f e = Z.quot (f - e - hdr_timestamp hdr / 2000 + 3) 1048576.
Proof.
  intros Hr. unfold nWraps. cbv zeta. f_equal.
  rewrite <- (int32_small _ Hr). unfold int32.
  destruct (wraps_eqm 32 (f - e) ltac:(lia)) as [k1 ->].
  destruct (wraps_eqm 32 (hdr_timestamp hdr / 2000) ltac:(lia)) as [k2 ->].
  destruct (wraps_eqm 32 (f - e + k1 * 2 ^ 32 - (hdr_timestamp hdr / 2000 + k2 * 2 ^ 32))
              ltac:(lia)) as [k3 ->].
  rewrite <- (wraps_add_mul 32 (f - e - hdr_timestamp hdr / 2000 + 3) (k1 - k2 + k3))
    by lia.
  f_equal. lia.
Qed.

Lemma FixOverflowTimestamps_small_wraps hdr f e :
  -1 <= nWraps hdr f e <= 1 ->
  hdr_timestamp (FixOverflowTimestamps hdr f e)
  = (hdr_timestamp hdr + 2000 * nWraps hdr f e * 1048576) mod 2 ^ 36.
Proof.
  intros Hn. unfold FixOverflowTimestamps. cbn [hdr_timestamp set_hdr_timestamp].
  set (n := nWraps hdr f e) in *.
  rewrite (int32_small (2000 * n)) by (unfold int_range; lia).
  rewrite (int32_small (2000 * n * 1048576)) by (unfold int_range; lia).
  unfold uint36, uint64.
  rewrite wrapu_idemp_add by lia.
  rewrite wrapu_narrow by lia. reflexivity.
Qed.

(** C2, for the division the code performs.  [FixOverflowTimestamps]
    divides with C's integer division, which rounds toward zero: for a header timestamp [t] below
    [2^36] and a numerator [f - e - t/2000 + 3] that fits an [int],
    [nWraps] is the quotient of the numerator by 1048576 rounded toward
    zero.  When [nWraps] is -1, 0 or 1 the timestamp becomes
    [t + 2000 * nWraps * 1048576] reduced modulo [2^36], the width of
    the field.  [nWraps] is 0 for a gap [f - e - t/2000] within one
    period of -3 (so for a pre-wrap timestamp), 1 for a gap of exactly
    one period, and it does not decrease when the gap grows. *)
Theorem FixOverflowTimestamps_wraps (hdr : hdrpacket) (f e : Z) :
  0 <= hdr_timestamp hdr < 2 ^ 36 ->
  int_range (f - e - hdr_timestamp hdr / 2000 + 3) ->
  let gap := f - e - hdr_timestamp hdr / 2000 in
  let n := nWraps hdr f e in
  n = Z.quot (gap + 3) 1048576
  /\ (-1 <= n <= 1 ->
      hdr_timestamp (FixOverflowTimestamps hdr f e)
      = (hdr_timestamp hdr + 2000 * n * 1048576) mod 2 ^ 36)
  /\ (- 1048576 < gap + 3 < 1048576 -> n = 0)
  /\ (gap = 1048576 -> n = 1)
  /\ (forall hdr' f' e',
        int_range (f' - e' - hdr_timestamp hdr' / 2000 + 3) ->
        gap <= f' - e' - hdr_timestamp hdr' / 2000 ->
        n <= nWraps hdr' f' e').
Proof.
  intros Ht Hr gap n.
  assert (En : n = Z.quot (gap + 3) 1048576) by (apply nWraps_quot; exact Hr).
  split; [exact En|].
  split; [apply FixOverflowTimestamps_small_wraps|].
  split.
  { intros Hg. rewrite En.
    destruct (Z.le_gt_cases 0 (gap + 3)) as [Hpos|Hneg].
    - apply Z.quot_small. lia.
    - replace (gap + 3) with (- (- (gap + 3))) by lia.
      rewrite Z.quot_opp_l by lia.
      rewrite Z.quot_small by lia. reflexivity. }
  split.
  { intros Hg. rewrite En, Hg. reflexivity. }
  intros hdr' f' e' Hr' Hle.
  rewrite En, (nWraps_quot hdr' f' e' Hr').
  apply Z.quot_le_mono; lia.
Qed.

(** A header one period behind its file, five seconds into the file on
    25 January: one wrap is added back. *)
Lemma FixOverflowTimestamps_wraps_witness :
  nWraps (header_at (2000 * 1000005)) (1514764800 + 2048581) 1514764800 = 1
  /\ hdr_timestamp (FixOverflowTimestamps (header_at (2000 * 1000005))
                      (1514764800 + 2048581) 1514764800)
     = 2000 * (1000005 + 1048576).
Proof.
  assert (Ht : 0 <= hdr_timestamp (header_at (2000 * 1000005)) < 2 ^ 36) by zclosed.
  assert (Hr : int_range (1514764800 + 2048581 - 1514764800
                          - hdr_timestamp (header_at (2000 * 1000005)) / 2000 + 3))
    by zclosed.
  pose proof (FixOverflowTimestamps_wraps (header_at (2000 * 1000005))
                (1514764800 + 2048581) 1514764800 Ht Hr) as H.
  cbv zeta in H. destruct H as (_ & Hts & _ & Hone & _).
  assert (E : nWraps (header_at (2000 * 1000005)) (1514764800 + 2048581) 1514764800 = 1)
    by (apply Hone; reflexivity).
  split; [exact E|].
  rewrite Hts by lia. rewrite E. reflexivity.
Defined.

(** C2 with a floor does not hold: a header ten seconds ahead of its file makes the
    numerator -7; the code computes 0 wraps and leaves the timestamp,
    where the floor is -1 and would take a period off. *)
Lemma FixOverflowTimestamps_floor_counterexample :
  nWraps (header_at 20000) 1514764800 1514764800 = 0
  /\ (1514764800 - 1514764800 - hdr_timestamp (header_at 20000) / 2000 + 3) / 1048576
     = -1
  /\ hdr_timestamp (FixOverflowTimestamps (header_at 20000) 1514764800 1514764800)
     <> hdr_timestamp (header_at 20000)
        + 2000 * ((1514764800 - 1514764800
                   - hdr_timestamp (header_at 20000) / 2000 + 3) / 1048576)
          * 1048576.
Proof.
  split; [reflexivity|]. split; [reflexivity|].
  vm_compute. discriminate.
Qed.

(** The timestamp is a 36-bit field: a wrap added to a timestamp near the
    top of the field is cut to 36 bits. *)
Lemma FixOverflowTimestamps_field_example :
  nWraps (header_at (2 ^ 36 - 1)) 35408314 0 = 1
  /\ hdr_timestamp (FixOverflowTimestamps (header_at (2 ^ 36 - 1)) 35408314 0)
     = 2 ^ 36 - 1 + 2000 * 1048576 - 2 ^ 36.
Proof. split; reflexivity. Qed.

(** From two wraps on, the product [2000*nWraps*1048576] no longer fits
    the [int] it is computed in: with the two's-complement result the
    timestamp moves by [4194304000 - 2^32] in place of [4194304000]. *)
Lemma FixOverflowTimestamps_two_wraps_example :
  nWraps (header_at 0) 2097152 0 = 2
  /\ hdr_timestamp (FixOverflowTimestamps (header_at 0) 2097152 0)
     = (4194304000 - 2 ^ 32) mod 2 ^ 36.
Proof. split; reflexivity. Qed.

(** ** Loops and arrays *)

Lemma bind_Ok {A B : Type} (m : res A) (k : A -> res B) (b : B) :
  m ≫= k = Ok b <-> exists a, m = Ok a /\ k a = Ok b.
Proof.
  destruct m as [a|f]; cbn.
  - split; [intros H; exists a; auto|intros (a' & [= <-] & H); exact H].
  - split; [discriminate|intros (a' & [=] & _)].
Qed.

Lemma for_each_app {S A : Type} (body : S -> A -> res S) (s : S) (l1 l2 : list A) :
  for_each body s (l1 ++ l2) = s' ← for_each body s l1; for_each body s' l2.
Proof.
  revert s. induction l1 as [|a l1 IH]; intros s; cbn; [reflexivity|].
  destruct (body s a) as [s1|f]; cbn; [apply IH|reflexivity].
Qed.

(** a property kept by every round of a loop is kept by the loop *)
Lemma for_each_inv {S A : Type} (P : S -> Prop) (body : S -> A -> res S)
    (l : list A) :
  (forall s a s', a ∈ l -> P s -> body s a = Ok s' -> P s') ->
  forall s s', P s -> for_each body s l = Ok s' -> P s'.
Proof.
  induction l as [|a l IH]; intros Hstep s s' Hs Hrun; cbn in Hrun.
  - injection Hrun as <-. exact Hs.
  - apply bind_Ok in Hrun as (s1 & H1 & Hrest).
    eapply IH; [|eapply Hstep; [apply elem_of_cons; left; reflexivity|exact Hs|exact H1]|exact Hrest].
    intros s0 a0 s0' Hin. apply Hstep. apply elem_of_cons. right. exact Hin.
Qed.

Lemma in_grid_spec {A} (g : grid A) (x y : Z) :
  in_grid g x y = true <-> 0 <= x < g_cols g /\ 0 <= y < g_rows g.
Proof. unfold in_grid. apply bool_decide_eq_true. Qed.

Lemma grid_read_Ok {A} (o : cobj) (g : grid A) (x y : Z) (v : A) :
  grid_read o g x y = Ok v
  <-> in_grid g x y = true /\ g_cells g !! (x, y) = Some v.
Proof.
  unfold grid_read. destruct (in_grid g x y).
  - destruct (g_cells g !! (x, y)) as [v'|].
    + split; [intros [= ->]; auto|intros [_ [= ->]]; reflexivity].
    + split; [discriminate|intros [_ [=]]].
  - split; [discriminate|intros [[=] _]].
Qed.

Lemma grid_read_Ok_2 {A} (o : cobj) (g : grid A) (x y : Z) (v : A) :
  in_grid g x y = true -> g_cells g !! (x, y) = Some v ->
  grid_read o g x y = Ok v.
Proof. intros. apply grid_read_Ok. auto. Qed.

Lemma grid_write_Ok {A} (o : cobj) (g g' : grid A) (x y : Z) (v : A) :
  grid_write o g x y v = Ok g'
  <-> in_grid g x y = true /\ g' = grid_set g x y v.
Proof.
  unfold grid_write. destruct (in_grid g x y).
  - split; [intros [= <-]; auto|intros [_ ->]; reflexivity].
  - split; [discriminate|intros [[=] _]].
Qed.

Lemma in_grid_set {A} (g : grid A) (x y x' y' : Z) (v : A) :
  in_grid (grid_set g x y v) x' y' = in_grid g x' y'.
Proof. reflexivity. Qed.

Lemma cells_set_eq {A} (g : grid A) (x y : Z) (v : A) :
  g_cells (grid_set g x y v) !! (x, y) = Some v.
Proof. cbn. apply lookup_insert_eq. Qed.

Lemma cells_set_ne {A} (g : grid A) (x y : Z) (v : A) (xy : Z * Z) :
  xy <> (x, y) -> g_cells (grid_set g x y v) !! xy = g_cells g !! xy.
Proof. intros Hne. cbn. apply lookup_insert_ne. congruence. Qed.

Lemma elem_of_grid_indices (cols rows x y : Z) :
  (x, y) ∈ grid_indices cols rows <-> 0 <= x < cols /\ 0 <= y < rows.
Proof.
  unfold grid_indices. rewrite list_elem_of_bind. split.
  - intros (x' & Hy & Hx). apply list_elem_of_bind in Hy as (y' & Hxy & Hy).
    apply list_elem_of_singleton in Hxy. injection Hxy as -> ->.
    apply elem_of_seqZ in Hx, Hy. lia.
  - intros [Hx Hy]. exists x. split; [|apply elem_of_seqZ; lia].
    apply list_elem_of_bind. exists y. split; [|apply elem_of_seqZ; lia].
    apply list_elem_of_singleton. reflexivity.
Qed.

Lemma NoDup_grid_indices (cols rows : Z) : NoDup (grid_indices cols rows).
Proof.
  unfold grid_indices. apply NoDup_bind; [| |apply NoDup_seqZ].
  - intros x1 x2 [x y] _ _ H1 H2.
    apply list_elem_of_bind in H1 as (y1 & H1 & _).
    apply list_elem_of_bind in H2 as (y2 & H2 & _).
    apply list_elem_of_singleton in H1, H2. congruence.
  - intros x _. apply NoDup_bind; [| |apply NoDup_seqZ].
    + intros y1 y2 [x' y] _ _ H1 H2.
      apply list_elem_of_singleton in H1, H2. congruence.
    + intros y _. apply NoDup_singleton.
Qed.

(** ** Table sorter: the three loops on one pixel *)


Section SortKernel.

Lemma shift_up_app (l1 l2 : list photon) (x : photon) (post : list photon) :
  shift_up (l1 ++ l2 ++ x :: post) (length l1 + length l2) (length l1)
  = l1 ++ hd x l2 :: l2 ++ post.
Proof.
  revert x post. induction l2 as [|z l2' IH] using rev_ind; intros x post.
  - rewrite Nat.add_0_r. cbn [app hd length].
    destruct (length l1) eqn:E; cbn [shift_up]; [reflexivity|].
    rewrite decide_False by lia. reflexivity.
  - rewrite length_app. cbn [length].
    replace (length l1 + (length l2' + 1))%nat
      with (S (length l1 + length l2')) by lia.
    cbn [shift_up]. rewrite decide_True by lia.
    replace (l1 ++ (l2' ++ [z]) ++ x :: post)
      with ((l1 ++ l2') ++ z :: x :: post)
      by (rewrite <- !app_assoc; reflexivity).
    rewrite list_lookup_middle by (rewrite length_app; reflexivity).
    replace ((l1 ++ l2') ++ z :: x :: post)
      with (((l1 ++ l2') ++ [z]) ++ x :: post)
      by (rewrite <- !app_assoc; reflexivity).
    rewrite insert_app_r_alt by (rewrite !length_app; cbn; lia).
    replace (S (length l1 + length l2') - length ((l1 ++ l2') ++ [z]))%nat
      with 0%nat by (rewrite !length_app; cbn; lia).
    cbn [insert list_insert].
    replace (((l1 ++ l2') ++ [z]) ++ z :: post)
      with (l1 ++ l2' ++ z :: z :: post)
      by (rewrite <- !app_assoc; reflexivity).
    rewrite IH. rewrite <- !app_assoc. cbn [app].
    destruct l2'; reflexivity.
Qed.

Lemma move_down_app (l1 l2 : list photon) (x : photon) (post : list photon) :
  move_down (l1 ++ l2 ++ x :: post) (length l1 + length l2) (length l1)
  = l1 ++ x :: l2 ++ post.
Proof.
  unfold move_down.
  replace ((l1 ++ l2 ++ x :: post) !! (length l1 + length l2)%nat)
    with (Some x).
  2:{ rewrite app_assoc. symmetry. apply list_lookup_middle.
      rewrite length_app. reflexivity. }
  rewrite shift_up_app.
  rewrite insert_app_r_alt by lia. rewrite Nat.sub_diag. reflexivity.
Qed.

Lemma place_unfold (a : list photon) (i cur : nat) :
  place a i cur =
  match a !! i, a !! cur with
  | Some toSort, Some curPhoton =>
      if bool_decide (timestamp toSort >= timestamp curPhoton) then
        if decide (cur = (i - 1)%nat) then a else move_down a i (S cur)
      else
        match cur with
        | O => move_down a i 0
        | S before => place a i before
        end
  | _, _ => a
  end.
Proof. destruct cur; reflexivity. Qed.

(** where the scan from [cur] leaves the element at [i]: after the
    last of the elements before it that is not later than it *)
Lemma place_app (l1 : list photon) (c : photon) (l2 : list photon)
    (x : photon) (post : list photon) :
  Forall (fun q => timestamp x < timestamp q) l2 ->
  exists m1 m2,
    (l1 ++ [c]) ++ l2 = m1 ++ m2
    /\ place ((l1 ++ [c]) ++ l2 ++ x :: post)
             (length l1 + 1 + length l2) (length l1)
       = m1 ++ x :: m2 ++ post
    /\ Forall (fun q => timestamp x < timestamp q) m2
    /\ (forall q, last m1 = Some q -> timestamp q <= timestamp x)
    /\ (l2 = [] -> timestamp c <= timestamp x -> m2 = []).
Proof.
  revert c l2. induction l1 as [|c' l1' IH] using rev_ind; intros c l2 Hl2.
  - cbn [app length Nat.add].
    rewrite place_unfold.
    replace ((c :: l2 ++ x :: post) !! S (length l2)) with (Some x).
    2:{ symmetry. apply (list_lookup_middle (c :: l2)). reflexivity. }
    cbn [lookup list_lookup].
    case_bool_decide as Hge.
    + case_decide as E.
      * destruct l2; [|cbn in E; lia].
        exists [c], []. cbn [app].
        split; [reflexivity|]. split; [reflexivity|]. split; [constructor|].
        split; [|reflexivity]. intros q [= <-]. lia.
      * exists [c], l2. split; [reflexivity|]. split.
        { apply (move_down_app [c] l2 x post). }
        split; [exact Hl2|]. split.
        { intros q [= <-]. lia. }
        { intros ->. cbn in E. lia. }
    + exists [], (c :: l2). split; [reflexivity|]. split.
      { apply (move_down_app [] (c :: l2) x post). }
      split; [constructor; [lia|exact Hl2]|]. split.
      { intros q [=]. }
      { intros _ ?. lia. }
  - rewrite place_unfold.
    replace (((l1' ++ [c']) ++ [c]) ++ l2 ++ x :: post)
      with ((((l1' ++ [c']) ++ [c]) ++ l2) ++ x :: post)
      by (rewrite <- !app_assoc; reflexivity).
    rewrite list_lookup_middle by (rewrite !length_app; cbn; lia).
    replace ((((l1' ++ [c']) ++ [c]) ++ l2) ++ x :: post)
      with ((l1' ++ [c']) ++ c :: l2 ++ x :: post)
      by (rewrite <- !app_assoc; reflexivity).
    rewrite list_lookup_middle by reflexivity.
    case_bool_decide as Hge.
    + case_decide as E.
      * assert (l2 = []) as -> by (destruct l2; [reflexivity|cbn in E; lia]).
        exists ((l1' ++ [c']) ++ [c]), []. cbn [app].
        split; [reflexivity|]. split.
        { rewrite <- !app_assoc. reflexivity. }
        split; [constructor|]. split; [|reflexivity].
        intros q. rewrite last_snoc. intros [= <-]. lia.
      * exists ((l1' ++ [c']) ++ [c]), l2. split; [reflexivity|]. split.
        { replace ((l1' ++ [c']) ++ c :: l2 ++ x :: post)
            with (((l1' ++ [c']) ++ [c]) ++ l2 ++ x :: post)
            by (rewrite <- !app_assoc; reflexivity).
          replace (length (l1' ++ [c']) + 1 + length l2)%nat
            with (length ((l1' ++ [c']) ++ [c]) + length l2)%nat
            by (rewrite !length_app; cbn; lia).
          replace (S (length (l1' ++ [c']))) with (length ((l1' ++ [c']) ++ [c]))
            by (rewrite !length_app; cbn; lia).
          apply move_down_app. }
        split; [exact Hl2|]. split.
        { intros q. rewrite last_snoc. intros [= <-]. lia. }
        { intros ->. cbn in E. lia. }
    + rewrite length_app. cbn [length].
      replace (length l1' + 1)%nat with (S (length l1')) by lia.
      destruct (IH c' (c :: l2)) as (m1 & m2 & Hsplit & Hplace & Hm2 & Hm1 & _).
      { constructor; [lia|exact Hl2]. }
      exists m1, m2. split.
      { rewrite <- Hsplit. rewrite <- !app_assoc. reflexivity. }
      split.
      { rewrite <- Hplace. cbn [length].
        replace (S (length l1') + 1 + length l2)%nat
          with (length l1' + 1 + S (length l2))%nat by lia.
        rewrite <- !app_assoc. reflexivity. }
      split; [exact Hm2|]. split; [exact Hm1|].
      intros _ ?. lia.
Qed.

End SortKernel.

Lemma sorted_le_last (m : list photon) (p q : photon) :
  StronglySorted ts_le m -> last m = Some q -> p ∈ m -> ts_le p q.
Proof.
  intros Hs Hl Hp. apply last_Some in Hl as [m' ->].
  apply elem_of_app in Hp as [Hp|Hp].
  - eapply StronglySorted_app_1_elem_of; [exact Hs|exact Hp|]. set_solver.
  - apply list_elem_of_singleton in Hp as ->. unfold ts_le. lia.
Qed.

Lemma sort_from_spec (rest pre : list photon) :
  pre <> [] -> StronglySorted ts_le pre ->
  StronglySorted ts_le (sort_from (pre ++ rest) (length pre) (length rest))
  /\ Permutation (pre ++ rest) (sort_from (pre ++ rest) (length pre) (length rest)).
Proof.
  revert pre. induction rest as [|x rest' IH]; intros pre Hne Hs.
  - cbn [sort_from length]. rewrite app_nil_r. split; [exact Hs|reflexivity].
  - cbn [sort_from length].
    destruct pre as [|c l1 _] using rev_ind; [congruence|].
    destruct (place_app l1 c [] x rest' ltac:(constructor))
      as (m1 & m2 & Hsplit & Hplace & Hm2 & Hm1 & _).
    cbn [app length] in Hplace. rewrite app_nil_r in Hsplit.
    replace (length (l1 ++ [c]) - 1)%nat with (length l1)
      by (rewrite length_app; cbn; lia).
    replace (length (l1 ++ [c])) with (length l1 + 1 + 0)%nat
      by (rewrite length_app; cbn; lia).
    rewrite Hplace.
    assert (Hs' : StronglySorted ts_le (m1 ++ x :: m2)).
    { rewrite Hsplit in Hs. apply StronglySorted_app in Hs as (H12 & Hs1 & Hs2).
      apply StronglySorted_app_2.
      - intros x1 x2 H1 H2. apply elem_of_cons in H2 as [->|H2].
        + destruct (last m1) as [q|] eqn:El.
          * pose proof (sorted_le_last m1 x1 q Hs1 El H1) as Hle.
            specialize (Hm1 q eq_refl). unfold ts_le in *. lia.
          * apply last_None in El. subst m1. set_solver.
        + apply H12; assumption.
      - exact Hs1.
      - constructor; [exact Hs2|].
        eapply Forall_impl; [exact Hm2|]. intros q Hq. cbn beta in Hq. unfold ts_le. lia. }
    replace (m1 ++ x :: m2 ++ rest') with ((m1 ++ x :: m2) ++ rest')
      by (rewrite <- app_assoc; reflexivity).
    replace (S (length l1 + 1 + 0)) with (length (m1 ++ x :: m2)).
    2:{ apply (f_equal length) in Hsplit. rewrite !length_app in Hsplit.
        rewrite length_app. cbn [length] in *. lia. }
    destruct (IH (m1 ++ x :: m2)) as [IHs IHp].
    { destruct m1; discriminate. }
    { exact Hs'. }
    split; [exact IHs|].
    etransitivity; [|exact IHp].
    rewrite Hsplit. rewrite <- !app_assoc. cbn [app].
    apply Permutation_app_head. symmetry. apply Permutation_middle.
  Qed.

Lemma Sorted_adjacent (a : list photon) :
  Sorted ts_le a ->
  forall k p q, a !! k = Some p -> a !! S k = Some q -> ts_le p q.
Proof.
  induction 1 as [|p0 l Hs IH Hhd]; intros k p q Hp Hq; [discriminate|].
  destruct k as [|k].
  - cbn in Hp, Hq. injection Hp as <-.
    destruct l as [|q0 l']; [discriminate|].
    cbn in Hq. injection Hq as <-. now inversion Hhd.
  - cbn in Hp, Hq. eapply IH; eassumption.
Qed.

Lemma sort_from_sorted (a : list photon) (n i : nat) :
  (1 <= i)%nat -> (i + n = length a)%nat ->
  (forall k p q, a !! k = Some p -> a !! S k = Some q -> ts_le p q) ->
  sort_from a i n = a.
Proof.
  revert i. induction n as [|n IH]; intros i Hi Hlen Hadj; [reflexivity|].
  cbn [sort_from].
  assert (Hplace : place a i (i - 1) = a).
  { rewrite place_unfold.
    destruct (lookup_lt_is_Some_2 a i ltac:(lia)) as [x Hx].
    destruct (lookup_lt_is_Some_2 a (i - 1) ltac:(lia)) as [c Hc].
    rewrite Hx, Hc.
    assert (ts_le c x) as Hle.
    { apply (Hadj (i - 1)%nat); [exact Hc|].
      replace (S (i - 1)) with i by lia. exact Hx. }
    unfold ts_le in Hle.
    rewrite bool_decide_true by lia. rewrite decide_True by reflexivity.
    reflexivity. }
  rewrite Hplace. apply IH; [lia|lia|exact Hadj].
Qed.

Lemma sort_photons_cons (p : photon) (rest : list photon) :
  sort_photons (p :: rest) = sort_from ([p] ++ rest) (length [p]) (length rest).
Proof.
  unfold sort_photons. cbn [length app].
  replace (S (length rest) - 1)%nat with (length rest) by lia. reflexivity.
Qed.

(** the sorter on one pixel: the result is ordered by timestamp, it is a
    rearrangement of the input, and an ordered input comes back as it is *)
Lemma sort_photons_correct (a : list photon) :
  Sorted ts_le (sort_photons a)
  /\ Permutation a (sort_photons a)
  /\ (Sorted ts_le a -> sort_photons a = a).
Proof.
  destruct a as [|p rest].
  { split; [constructor|]. split; [reflexivity|]. reflexivity. }
  rewrite sort_photons_cons.
  destruct (sort_from_spec rest [p]) as [Hs Hp]; [discriminate| |].
  { constructor; constructor. }
  split; [apply StronglySorted_Sorted; exact Hs|].
  split; [exact Hp|].
  intros Hsorted. apply sort_from_sorted; [cbn; lia|cbn; lia|].
  apply Sorted_adjacent. exact Hsorted.
Qed.

Lemma sort_photons_length (a : list photon) :
  length (sort_photons a) = length a.
Proof.
  symmetry. apply Permutation_length. apply sort_photons_correct.
Qed.

(** ** Table sorter: all pixels *)

Lemma all_written_Some (cells : list (option photon)) (ps : list photon) :
  all_written cells = Some ps <-> cells = Some <$> ps.
Proof.
  unfold all_written. rewrite mapM_Some. split.
  - induction 1 as [|c p cells ps Hc _ IH]; [reflexivity|].
    cbn in Hc. subst c. cbn. now f_equal.
  - intros ->. induction ps; constructor; auto.
Qed.

Lemma fmap_Some_inj (ps qs : list photon) :
  Some <$> ps = Some <$> qs -> ps = qs.
Proof.
  revert qs. induction ps as [|p ps IH]; intros [|q qs] H; try discriminate.
  - reflexivity.
  - cbn in H. injection H as -> H. f_equal. now apply IH.
Qed.

Lemma short_Sorted (ps : list photon) : (length ps <= 1)%nat -> Sorted ts_le ps.
Proof.
  destruct ps as [|p [|q ps]]; cbn; intros H; try lia; repeat constructor.
Qed.

Lemma sort_pixel_spec (t : tables) (xy : Z * Z) :
  sortable t xy ->
  exists t', sort_pixel t xy = Ok t'
    /\ ptablect t' = ptablect t
    /\ g_cols (ptable t') = g_cols (ptable t)
    /\ g_rows (ptable t') = g_rows (ptable t)
    /\ (forall xy', xy' <> xy -> buffer_at t' xy' = buffer_at t xy')
    /\ pixel_sorted t xy t'.
Proof.
  destruct xy as [x y]. intros (Hin & n & Hn & Hbig). cbn [fst snd] in *.
  unfold sort_pixel.
  assert (Hr : grid_read PtablectArr (ptablect t) x y = Ok n)
    by (apply grid_read_Ok; auto).
  rewrite Hr. cbn [mbind res_bind].
  case_bool_decide as Hle.
  - exists t. do 4 (split; [reflexivity|]). split; [intros; reflexivity|].
    intros n' buf ps Hn' Hbuf Htake.
    unfold count_at in *. rewrite Hn in Hn'. injection Hn' as <-.
    exists ps. split.
    { rewrite Hbuf, <- Htake, take_drop. reflexivity. }
    assert (length ps <= 1)%nat.
    { apply (f_equal length) in Htake.
      rewrite length_take, length_fmap in Htake. lia. }
    split; [now apply short_Sorted|]. split; [reflexivity|]. reflexivity.
  - destruct (Hbig ltac:(lia)) as (Hinp & buf & ps & Hbuf & Htake & Hlen).
    assert (Hrb : grid_read PtableArr (ptable t) x y = Ok buf)
      by (apply grid_read_Ok; auto).
    rewrite Hrb. cbn [mbind res_bind].
    rewrite bool_decide_false by lia.
    apply all_written_Some in Htake as Hall. rewrite Hall.
    unfold grid_write. rewrite Hinp. cbn [mbind res_bind].
    eexists. split; [reflexivity|]. cbn [ptable ptablect].
    do 3 (split; [reflexivity|]). split.
    { intros xy' Hne. unfold buffer_at. cbn [ptable].
      now apply cells_set_ne. }
    intros n' buf' ps' Hn' Hbuf' Htake'.
    unfold count_at, buffer_at in *. rewrite Hn in Hn'. injection Hn' as <-.
    rewrite Hbuf in Hbuf'. injection Hbuf' as <-.
    rewrite Htake in Htake'. apply fmap_Some_inj in Htake' as <-.
    exists (sort_photons ps). cbn [ptable]. split; [apply cells_set_eq|].
    apply sort_photons_correct.
Qed.

Lemma sortable_same (t t' : tables) (xy : Z * Z) :
  ptablect t' = ptablect t ->
  g_cols (ptable t') = g_cols (ptable t) ->
  g_rows (ptable t') = g_rows (ptable t) ->
  buffer_at t' xy = buffer_at t xy ->
  sortable t xy -> sortable t' xy.
Proof.
  intros Hc Hcols Hrows Hb (Hin & n & Hn & Hbig).
  unfold sortable, count_at, in_grid in *. rewrite Hc, Hcols, Hrows, Hb.
  split; [exact Hin|]. exists n. split; [exact Hn|exact Hbig].
Qed.

Lemma for_each_sort_pixel (l : list (Z * Z)) (t : tables) :
  NoDup l -> (forall xy, xy ∈ l -> sortable t xy) ->
  exists t', for_each sort_pixel t l = Ok t'
    /\ ptablect t' = ptablect t
    /\ g_cols (ptable t') = g_cols (ptable t)
    /\ g_rows (ptable t') = g_rows (ptable t)
    /\ (forall xy, xy ∉ l -> buffer_at t' xy = buffer_at t xy)
    /\ (forall xy, xy ∈ l -> pixel_sorted t xy t').
Proof.
  revert t. induction l as [|a l IH]; intros t Hnd Hwf.
  - exists t. cbn. do 4 (split; [reflexivity|]). split; [intros; reflexivity|].
    intros xy Hin. inversion Hin.
  - apply NoDup_cons in Hnd as [Hnotin Hnd].
    destruct (sort_pixel_spec t a (Hwf a ltac:(apply elem_of_cons; left; reflexivity)))
      as (t1 & Hrun1 & Hc1 & Hcols1 & Hrows1 & Hother1 & Hsorted1).
    destruct (IH t1 Hnd) as (t' & Hrun & Hc & Hcols & Hrows & Hother & Hsorted).
    { intros xy Hin. apply (sortable_same t); auto.
      - apply Hother1. intros ->. contradiction.
      - apply Hwf. apply elem_of_cons. right. exact Hin. }
    exists t'. cbn [for_each]. rewrite Hrun1. cbn [mbind res_bind].
    split; [exact Hrun|]. split; [congruence|]. split; [congruence|].
    split; [congruence|]. split.
    { intros xy Hxy. apply not_elem_of_cons in Hxy as [Hne Hxy].
      rewrite Hother by exact Hxy. now apply Hother1. }
    intros xy Hxy n buf ps Hn Hbuf Htake.
    apply elem_of_cons in Hxy as [->|Hxy].
    + destruct (Hsorted1 n buf ps Hn Hbuf Htake) as (qs & Hq & Hrest).
      exists qs. split; [|exact Hrest].
      rewrite Hother by exact Hnotin. exact Hq.
    + assert (xy <> a) by (intros ->; contradiction).
      apply (Hsorted xy Hxy n buf ps).
      * unfold count_at in *. now rewrite Hc1.
      * rewrite Hother1 by assumption. exact Hbuf.
      * exact Htake.
Qed.

(** C3.  When every pixel of the map has a count and, if the count is
    two or more, a buffer whose cells up to the count hold photons,
    [SortPhotonTables] returns; it leaves every count as it was, and for
    every pixel the photons [ps] in the cells below the count are replaced
    by a list [qs] that is non-decreasing in timestamp, is a rearrangement
    of [ps] (no photon created, dropped or duplicated), and is [ps] itself
    when [ps] was already non-decreasing; the cells from the count on are
    not touched. *)
Theorem SortPhotonTables_sorts (t : tables) (cols rows : Z) :
  (forall x y, 0 <= x < cols -> 0 <= y < rows -> sortable t (x, y)) ->
  exists t',
    SortPhotonTables t cols rows = Ok t'
    /\ ptablect t' = ptablect t
    /\ forall x y n buf ps,
         0 <= x < cols -> 0 <= y < rows ->
         count_at t (x, y) = Some n ->
         buffer_at t (x, y) = Some buf ->
         take (Z.to_nat n) buf = Some <$> ps ->
         exists qs,
           buffer_at t' (x, y) = Some ((Some <$> qs) ++ drop (Z.to_nat n) buf)
           /\ Sorted ts_le qs
           /\ Permutation ps qs
           /\ (Sorted ts_le ps -> qs = ps).
Proof.
  intros Hwf. unfold SortPhotonTables.
  destruct (for_each_sort_pixel (grid_indices cols rows) t)
    as (t' & Hrun & Hc & _ & _ & _ & Hsorted).
  { apply NoDup_grid_indices. }
  { intros [x y] Hin. apply elem_of_grid_indices in Hin. now apply Hwf. }
  exists t'. split; [exact Hrun|]. split; [exact Hc|].
  intros x y n buf ps Hx Hy. apply Hsorted.
  apply elem_of_grid_indices. auto.
Qed.

(** ** Per-pixel event store *)

Lemma store_at_count (buf : list (option photon)) (ps : list photon) (p : photon) :
  take (length ps) buf = Some <$> ps ->
  (length ps < length buf)%nat ->
  take (S (length ps)) (<[length ps := Some p]> buf) = Some <$> (ps ++ [p]).
Proof.
  intros Htake Hlt.
  rewrite (take_S_r _ _ (Some p)) by (now apply list_lookup_insert_eq).
  rewrite take_insert_ge by lia. rewrite Htake, fmap_app. reflexivity.
Qed.

Lemma take_realloc (buf : list (option photon)) (n : nat) (m : Z) :
  (n <= length buf)%nat -> Z.of_nat (length buf) <= 2500 * m ->
  take n (realloc_photons buf m) = take n buf.
Proof.
  intros Hn Hm. unfold realloc_photons.
  rewrite resize_ge by lia. now rewrite take_app_le.
Qed.

Lemma capacity_after_grow (n : Z) :
  0 <= n -> n mod 2500 = 2498 ->
  2500 * (cursize_of n + 1) = capacity_after (n + 1)
  /\ capacity_after (n + 1) = capacity_after n + 2500
  /\ n = capacity_after n - 2.
Proof.
  intros Hn Hm. unfold cursize_of, capacity_after.
  Z.div_mod_to_equations. lia.
Qed.

Lemma capacity_after_keep (n : Z) :
  0 <= n -> n mod 2500 <> 2498 ->
  capacity_after (n + 1) = capacity_after n /\ n <> capacity_after n - 2.
Proof.
  intros Hn Hm. unfold capacity_after.
  Z.div_mod_to_equations. lia.
Qed.

Lemma capacity_after_room (n : Z) : 0 <= n -> n + 1 < capacity_after n.
Proof.
  intros Hn. unfold capacity_after. Z.div_mod_to_equations. lia.
Qed.

(** one append to a pixel in the state [store_inv] *)
Lemma append_photon_step (t : tables) (x y : Z) (ps : list photon) (p : photon) :
  store_inv t x y ps ->
  Z.of_nat (length ps) + 1 < 2 ^ 32 ->
  exists t',
    append_photon t x y p = Ok t'
    /\ store_inv t' x y (ps ++ [p])
    /\ (forall xy, xy <> (x, y) ->
          count_at t' xy = count_at t xy /\ buffer_at t' xy = buffer_at t xy).
Proof.
  intros (Hinc & Hinp & Hct & buf & Hbuf & Htake & Hcap) Hsmall.
  set (n := Z.of_nat (length ps)) in *.
  assert (Hn : 0 <= n) by lia.
  pose proof (capacity_after_room n Hn) as Hroom.
  unfold count_at, buffer_at in *.
  unfold append_photon, grow_pixel.
  rewrite (grid_read_Ok_2 PtablectArr (ptablect t) x y n) by assumption.
  cbn [mbind res_bind].
  (* the two ways through [grow_pixel] end in the same shape *)
  assert (Hpush : forall t1 buf1,
    ptablect t1 = ptablect t ->
    g_cols (ptable t1) = g_cols (ptable t) ->
    g_rows (ptable t1) = g_rows (ptable t) ->
    g_cells (ptable t1) !! (x, y) = Some buf1 ->
    (forall xy, xy <> (x, y) -> g_cells (ptable t1) !! xy = g_cells (ptable t) !! xy) ->
    take (length ps) buf1 = Some <$> ps ->
    Z.of_nat (length buf1) = capacity_after (n + 1) ->
    exists t',
      push_photon t1 x y p = Ok t'
      /\ store_inv t' x y (ps ++ [p])
      /\ (forall xy, xy <> (x, y) ->
            g_cells (ptablect t') !! xy = g_cells (ptablect t) !! xy
            /\ g_cells (ptable t') !! xy = g_cells (ptable t) !! xy)).
  { intros t1 buf1 Hc1 Hcols1 Hrows1 Hb1 Hother1 Htake1 Hcap1.
    assert (Hinp1 : in_grid (ptable t1) x y = true).
    { unfold in_grid in *. now rewrite Hcols1, Hrows1. }
    unfold push_photon. rewrite Hc1.
    rewrite (grid_read_Ok_2 PtablectArr (ptablect t) x y n) by assumption.
    cbn [mbind res_bind].
    rewrite (grid_read_Ok_2 PtableArr (ptable t1) x y buf1) by assumption.
    cbn [mbind res_bind].
    assert (Hlt : (length ps < length buf1)%nat).
    { pose proof (capacity_after_room (n + 1) ltac:(lia)). lia. }
    unfold store_photon. rewrite bool_decide_true by lia.
    cbn [mbind res_bind]. unfold grid_write. rewrite Hinp1, Hinc.
    cbn [mbind res_bind]. eexists. split; [reflexivity|].
    split.
    - unfold store_inv, count_at, buffer_at. cbn [ptable ptablect].
      rewrite !in_grid_set. split; [exact Hinc|]. split; [exact Hinp1|].
      rewrite !cells_set_eq, length_app. cbn [length].
      split.
      { f_equal. unfold uint32. rewrite wrapu_small by lia. lia. }
      eexists. split; [reflexivity|].
      replace (Z.to_nat n) with (length ps) by lia.
      replace (length ps + 1)%nat with (S (length ps)) by lia.
      split; [now apply store_at_count|].
      rewrite length_insert, Hcap1. f_equal. lia.
    - intros xy Hne. cbn [ptable ptablect].
      rewrite !cells_set_ne by exact Hne. split; [reflexivity|].
      now apply Hother1. }
  case_bool_decide as Hmod.
  - rewrite (grid_read_Ok_2 PtableArr (ptable t) x y buf) by assumption.
    cbn [mbind res_bind]. unfold grid_write at 1. rewrite Hinp.
    cbn [mbind res_bind].
    destruct (capacity_after_grow n Hn Hmod) as (Hnew & Hplus & _).
    apply (Hpush _ (realloc_photons buf (cursize_of n + 1)));
      cbn [ptable ptablect]; try reflexivity.
    + apply cells_set_eq.
    + intros xy Hne. now apply cells_set_ne.
    + rewrite take_realloc; [exact Htake|lia|lia].
    + unfold realloc_photons. rewrite length_resize. lia.
  - destruct (capacity_after_keep n Hn Hmod) as [Hsame _].
    apply (Hpush t buf); try reflexivity; try assumption. lia.
Qed.

Lemma appends_inv (qs ps : list photon) (t : tables) (x y : Z) :
  store_inv t x y ps ->
  Z.of_nat (length ps) + Z.of_nat (length qs) < 2 ^ 32 ->
  exists t', appends t x y qs = Ok t' /\ store_inv t' x y (ps ++ qs).
Proof.
  revert ps t. induction qs as [|q qs IH]; intros ps t Hinv Hsmall.
  - exists t. rewrite app_nil_r. split; [reflexivity|exact Hinv].
  - cbn [length] in Hsmall.
    destruct (append_photon_step t x y ps q Hinv ltac:(lia)) as (t1 & Hrun1 & Hinv1 & _).
    destruct (IH (ps ++ [q]) t1 Hinv1) as (t' & Hrun & Hinv').
    { rewrite length_app. cbn [length]. lia. }
    exists t'. unfold appends in *. cbn [for_each]. rewrite Hrun1.
    cbn [mbind res_bind]. split; [exact Hrun|].
    rewrite <- app_assoc in Hinv'. exact Hinv'.
Qed.

Lemma fresh_store_inv (t : tables) (x y : Z) :
  fresh_pixel t (x, y) -> store_inv t x y [].
Proof.
  intros (Hinc & Hinp & Hct & Hbuf). cbn [fst snd] in *.
  split; [exact Hinc|]. split; [exact Hinp|]. split; [exact Hct|].
  exists (replicate 2500 None). split; [exact Hbuf|]. split; [reflexivity|].
  rewrite length_replicate. reflexivity.
Qed.

(** C4.  On a pixel set up with a zero count and one chunk of 2500
    cells, any [N] appends with [N] below [2^32] (the count is a 32-bit
    unsigned integer) all succeed; afterwards the count is [N], the first
    [N] cells of the buffer hold the appended photons in the order of the
    appends, and the capacity is a positive multiple of 2500.  One more
    append (while the count stays below [2^32]) keeps that, and it
    changes the capacity exactly when it finds the count at the capacity
    less 2, then adding one chunk of 2500. *)
Theorem event_store_appends (t : tables) (x y : Z) (ps : list photon) (p : photon) :
  fresh_pixel t (x, y) ->
  Z.of_nat (length ps) < 2 ^ 32 ->
  exists t' buf,
    appends t x y ps = Ok t'
    /\ count_at t' (x, y) = Some (Z.of_nat (length ps))
    /\ buffer_at t' (x, y) = Some buf
    /\ take (length ps) buf = Some <$> ps
    /\ (exists k, 0 < k /\ Z.of_nat (length buf) = 2500 * k)
    /\ (Z.of_nat (length ps) + 1 < 2 ^ 32 ->
        exists t'' buf'',
          append_photon t' x y p = Ok t''
          /\ count_at t'' (x, y) = Some (Z.of_nat (length ps) + 1)
          /\ buffer_at t'' (x, y) = Some buf''
          /\ take (length ps + 1) buf'' = Some <$> (ps ++ [p])
          /\ Z.of_nat (length buf'')
             = if bool_decide (Z.of_nat (length ps) = Z.of_nat (length buf) - 2)
               then Z.of_nat (length buf) + 2500
               else Z.of_nat (length buf)).
Proof.
  intros Hfresh Hsmall.
  destruct (appends_inv ps [] t x y (fresh_store_inv t x y Hfresh))
    as (t' & Hrun & Hinv); [cbn [length]; lia|].
  cbn [app] in Hinv.
  pose proof Hinv as (_ & _ & Hct & buf & Hbuf & Htake & Hcap).
  exists t', buf. split; [exact Hrun|]. split; [exact Hct|].
  split; [exact Hbuf|]. split; [exact Htake|]. split.
  { exists ((Z.of_nat (length ps) + 1) / 2500 + 1). split; [|exact Hcap].
    Z.div_mod_to_equations. lia. }
  intros Hnext.
  destruct (append_photon_step t' x y ps p Hinv Hnext) as (t'' & Hrun' & Hinv' & _).
  destruct Hinv' as (_ & _ & Hct' & buf' & Hbuf' & Htake' & Hcap').
  rewrite length_app in Hct', Htake', Hcap'. cbn [length] in Hct', Htake', Hcap'.
  exists t'', buf'. split; [exact Hrun'|]. split.
  { rewrite Hct'. f_equal. lia. }
  split; [exact Hbuf'|]. split; [exact Htake'|].
  rewrite Hcap', Hcap.
  replace (Z.of_nat (length ps + 1)) with (Z.of_nat (length ps) + 1) by lia.
  destruct (decide (Z.of_nat (length ps) mod 2500 = 2498)) as [Hmod|Hmod].
  - destruct (capacity_after_grow (Z.of_nat (length ps)) ltac:(lia) Hmod)
      as (_ & Hplus & Hat).
    rewrite bool_decide_true by exact Hat. exact Hplus.
  - destruct (capacity_after_keep (Z.of_nat (length ps)) ltac:(lia) Hmod)
      as (Hsame & Hnot).
    rewrite bool_decide_false by exact Hnot. exact Hsame.
Qed.

(** the loop body of [ParseToMem] on a word it accepts is one append *)
Lemma ParseToMem_word_appends (c : decode_ctx) (packet : list byte)
    (basetime : Z) (t : tables) (i swp bmval : Z) :
  load64 packet (i * 8) = Some swp ->
  skipped c (as_datapacket (bswap_64 swp)) = Ok false ->
  grid_read BeamMapArr (c_BeamMap c)
    (data_xcoord (as_datapacket (bswap_64 swp)))
    (data_ycoord (as_datapacket (bswap_64 swp))) = Ok bmval ->
  ParseToMem_word c packet basetime t i
  = append_photon t (data_xcoord (as_datapacket (bswap_64 swp)))
      (data_ycoord (as_datapacket (bswap_64 swp)))
      (new_photon bmval basetime (as_datapacket (bswap_64 swp))).
Proof.
  intros Hload Hskip Hbm. unfold ParseToMem_word, append_photon, load.
  rewrite Hload. cbn [mbind res_bind]. rewrite Hskip. cbn [mbind res_bind].
  destruct (grow_pixel t _ _) as [t1|f]; cbn [mbind res_bind]; [|reflexivity].
  rewrite Hbm. reflexivity.
Qed.

(** a word the loop accepts, on a pixel in the state [store_inv], is
    decoded without a fault and adds its photon after those held *)
Lemma ParseToMem_word_accepts (c : decode_ctx) (packet : list byte)
    (basetime : Z) (t : tables) (i swp bmval : Z) (ps : list photon) :
  load64 packet (i * 8) = Some swp ->
  skipped c (as_datapacket (bswap_64 swp)) = Ok false ->
  grid_read BeamMapArr (c_BeamMap c)
    (data_xcoord (as_datapacket (bswap_64 swp)))
    (data_ycoord (as_datapacket (bswap_64 swp))) = Ok bmval ->
  store_inv t (data_xcoord (as_datapacket (bswap_64 swp)))
    (data_ycoord (as_datapacket (bswap_64 swp))) ps ->
  Z.of_nat (length ps) + 1 < 2 ^ 32 ->
  exists t',
    ParseToMem_word c packet basetime t i = Ok t'
    /\ store_inv t' (data_xcoord (as_datapacket (bswap_64 swp)))
         (data_ycoord (as_datapacket (bswap_64 swp)))
         (ps ++ [new_photon bmval basetime (as_datapacket (bswap_64 swp))]).
Proof.
  intros Hload Hskip Hbm Hinv Hsmall.
  rewrite (ParseToMem_word_appends c packet basetime t i swp bmval Hload Hskip Hbm).
  destruct (append_photon_step t _ _ ps
              (new_photon bmval basetime (as_datapacket (bswap_64 swp))) Hinv Hsmall)
    as (t' & Hrun & Hinv' & _).
  exists t'. split; assumption.
Qed.

(** ** Packet decoder *)

Lemma wraps_wrapu (w z : Z) : 0 < w -> wraps w (wrapu w z) = wraps w z.
Proof.
  intros Hw. unfold wrapu.
  rewrite <- (wraps_add_mul w (z mod 2 ^ w) (z / 2 ^ w)) by lia.
  f_equal. pose proof (Z.div_mod z (2 ^ w)) as D.
  assert (2 ^ w <> 0) by (apply Z.pow_nonzero; lia). lia.
Qed.

Lemma wraps_add_l (w a b : Z) :
  0 < w -> wraps w (wraps w a + b) = wraps w (a + b).
Proof.
  intros Hw. destruct (wraps_eqm w a Hw) as [k ->].
  rewrite <- (wraps_add_mul w (a + b) k) by lia. f_equal. lia.
Qed.

(** with a tick origin below [2^63] the 64-bit difference is the exact one *)
Lemma basetime_exact (hdr : hdrpacket) (origin : Z) :
  0 <= hdr_timestamp hdr < 2 ^ 36 -> 0 <= origin < 2 ^ 63 ->
  basetime_of hdr origin = hdr_timestamp hdr - origin.
Proof.
  intros Ht Ho. unfold basetime_of, int64, uint64.
  rewrite wraps_wrapu by lia. apply wraps_small; lia.
Qed.

(** every tick origin [extract_photons] computes is below [2^43] *)
Lemma tick_origin_range (FirstFile tsOffs : Z) :
  0 <= tick_origin FirstFile tsOffs < 2 ^ 43.
Proof.
  unfold tick_origin, uint64.
  pose proof (wrapu_range 32 (FirstFile - tsOffs) ltac:(lia)) as H.
  fold uint32 in H. rewrite wrapu_small; lia.
Qed.

Lemma FixOverflowTimestamps_range (hdr : hdrpacket) (f e : Z) :
  0 <= hdr_timestamp (FixOverflowTimestamps hdr f e) < 2 ^ 36.
Proof.
  unfold FixOverflowTimestamps. cbn [hdr_timestamp set_hdr_timestamp].
  apply wrapu_range. lia.
Qed.

Lemma load_Some (o : cobj) (mem : list byte) (off swp : Z) :
  load64 mem off = Some swp -> load o mem off = Ok swp.
Proof. intros H. unfold load. now rewrite H. Qed.

(** the test the code makes: a negative [basetime] ends [ParseToMem]
    before the first data word *)
Lemma ParseToMem_negative_basetime (c : decode_ctx) (packet : list byte)
    (l tsOffs FirstFile iFile : Z) (t : tables) (swp : Z) :
  load64 packet 0 = Some swp ->
  basetime_of (fixed_header swp tsOffs FirstFile iFile) (tstart c) < 0 ->
  ParseToMem c packet l tsOffs FirstFile iFile t = Ok t.
Proof.
  intros Hload Hneg. unfold ParseToMem.
  rewrite (load_Some _ _ _ _ Hload). cbn [mbind res_bind].
  case_bool_decide; [reflexivity|].
  rewrite bool_decide_true by exact Hneg. reflexivity.
Qed.

(** C6.  A packet whose header timestamp, after the correction, is
    earlier than the tick origin of the run (an origin below [2^63], as
    every origin [extract_photons] computes is) appends nothing:
    [ParseToMem] returns with every buffer and every count as it found
    them, whatever data words follow the header. *)
Theorem ParseToMem_early_packet (c : decode_ctx) (packet : list byte)
    (l tsOffs FirstFile iFile : Z) (t : tables) (swp : Z) :
  load64 packet 0 = Some swp ->
  0 <= tstart c < 2 ^ 63 ->
  hdr_timestamp (fixed_header swp tsOffs FirstFile iFile) - tstart c < 0 ->
  ParseToMem c packet l tsOffs FirstFile iFile t = Ok t.
Proof.
  intros Hload Horigin Hearly.
  apply (ParseToMem_negative_basetime c packet l tsOffs FirstFile iFile t swp Hload).
  rewrite basetime_exact; [exact Hearly| |exact Horigin].
  apply FixOverflowTimestamps_range.
Qed.

(** C8.  A data word whose column is not below the column extent, or
    whose row is not below the row extent, or (when [mapflag] is set)
    whose pixel has a quality flag above zero, appends nothing: the round
    of the loop returns the tables unchanged, and the loop goes on with
    the words that follow exactly as if the word were not there. *)
Theorem ParseToMem_word_skips (c : decode_ctx) (packet : list byte)
    (basetime : Z) (t : tables) (i swp : Z) (rest : list Z) :
  load64 packet (i * 8) = Some swp ->
  (let data := as_datapacket (bswap_64 swp) in
   data_xcoord data >= beamCols c
   \/ data_ycoord data >= beamRows c
   \/ (mapflag c > 0
       /\ exists fl,
            grid_read BeamFlagArr (c_BeamFlag c) (data_xcoord data) (data_ycoord data)
            = Ok fl /\ fl > 0)) ->
  ParseToMem_word c packet basetime t i = Ok t
  /\ for_each (ParseToMem_word c packet basetime) t (i :: rest)
     = for_each (ParseToMem_word c packet basetime) t rest.
Proof.
  intros Hload Hskip. cbv zeta in Hskip.
  assert (Hword : ParseToMem_word c packet basetime t i = Ok t).
  { unfold ParseToMem_word. rewrite (load_Some _ _ _ _ Hload).
    cbn [mbind res_bind]. unfold skipped.
    case_bool_decide as Hout; [reflexivity|].
    destruct Hskip as [Hx|[Hy|(Hmf & fl & Hfl & Hpos)]]; [lia|lia|].
    rewrite bool_decide_true by exact Hmf. rewrite Hfl.
    cbn [mbind res_bind]. rewrite bool_decide_true by exact Hpos. reflexivity. }
  split; [exact Hword|].
  cbn [for_each]. rewrite Hword. reflexivity.
Qed.

Lemma new_photon_timestamp (bmval basetime : Z) (data : datapacket) :
  timestamp (new_photon bmval basetime data)
  = (basetime * 500 + data_timestamp data) mod 2 ^ 32.
Proof.
  cbn [timestamp new_photon]. unfold uint32, int64.
  rewrite wrapu_wraps_sub by lia.
  destruct (wraps_eqm 64 (basetime * 500) ltac:(lia)) as [k ->].
  unfold wrapu.
  replace (basetime * 500 + k * 2 ^ 64 + data_timestamp data)
    with (basetime * 500 + data_timestamp data + (k * 2 ^ 32) * 2 ^ 32) by lia.
  apply Z.mod_add. lia.
Qed.

Lemma grow_pixel_Ok (t t' : tables) (x y : Z) :
  grow_pixel t x y = Ok t' -> ptablect t' = ptablect t.
Proof.
  unfold grow_pixel. intros H.
  apply bind_Ok in H as (ct & _ & H).
  case_bool_decide; [|now injection H as <-].
  apply bind_Ok in H as (buf & _ & H).
  apply bind_Ok in H as (pt & _ & H). now injection H as <-.
Qed.

Lemma push_photon_Ok (t t' : tables) (x y : Z) (p : photon) :
  push_photon t x y p = Ok t' ->
  exists ct buf,
    count_at t (x, y) = Some ct
    /\ buffer_at t (x, y) = Some buf
    /\ 0 <= ct < Z.of_nat (length buf)
    /\ ptable t' = grid_set (ptable t) x y (<[Z.to_nat ct := Some p]> buf)
    /\ ptablect t' = grid_set (ptablect t) x y (uint32 (ct + 1)).
Proof.
  unfold push_photon. intros H.
  apply bind_Ok in H as (ct & Hct & H). apply grid_read_Ok in Hct as [_ Hct].
  apply bind_Ok in H as (buf & Hbuf & H). apply grid_read_Ok in Hbuf as [_ Hbuf].
  apply bind_Ok in H as (buf' & Hstore & H).
  apply bind_Ok in H as (pt & Hpt & H). apply grid_write_Ok in Hpt as [_ ->].
  apply bind_Ok in H as (ctg & Hctg & H). apply grid_write_Ok in Hctg as [_ ->].
  injection H as <-.
  unfold store_photon in Hstore. case_bool_decide as Hr; [|discriminate].
  injection Hstore as <-.
  exists ct, buf. auto.
Qed.

(** C10.  The photon appended for a data word is stored at the pixel's
    count with the timestamp [(basetime * 500 + t) mod 2^32], [t] the
    word's 9-bit timestamp: the 64-bit sum is cut to 32 bits by the
    store.  The stored timestamp is the sum itself exactly when the sum
    is below [2^32] (and not negative); from [2^32] on it has wrapped. *)
Theorem stored_timestamp_mod (c : decode_ctx) (packet : list byte)
    (basetime : Z) (t t' : tables) (i swp : Z) :
  load64 packet (i * 8) = Some swp ->
  skipped c (as_datapacket (bswap_64 swp)) = Ok false ->
  ParseToMem_word c packet basetime t i = Ok t' ->
  let data := as_datapacket (bswap_64 swp) in
  let xy := (data_xcoord data, data_ycoord data) in
  let sum := basetime * 500 + data_timestamp data in
  exists ct buf p,
    count_at t xy = Some ct
    /\ count_at t' xy = Some (uint32 (ct + 1))
    /\ buffer_at t' xy = Some buf
    /\ buf !! Z.to_nat ct = Some (Some p)
    /\ timestamp p = sum mod 2 ^ 32
    /\ (timestamp p = sum <-> 0 <= sum < 2 ^ 32).
Proof.
  intros Hload Hskip Hrun data xy sum.
  unfold ParseToMem_word in Hrun. rewrite (load_Some _ _ _ _ Hload) in Hrun.
  cbn [mbind res_bind] in Hrun. fold data in Hrun, Hskip. rewrite Hskip in Hrun.
  cbn [mbind res_bind] in Hrun.
  apply bind_Ok in Hrun as (t1 & Hgrow & Hrun).
  apply bind_Ok in Hrun as (bmval & _ & Hpush).
  apply grow_pixel_Ok in Hgrow as Hc1.
  apply push_photon_Ok in Hpush as (ct & buf & Hct & Hbuf & Hrange & Hpt & Hctg).
  exists ct, (<[Z.to_nat ct := Some (new_photon bmval basetime data)]> buf),
         (new_photon bmval basetime data).
  unfold count_at, buffer_at in *. rewrite Hc1 in Hct.
  split; [exact Hct|]. rewrite Hctg, Hpt.
  split; [apply cells_set_eq|]. split; [apply cells_set_eq|].
  split; [apply list_lookup_insert_eq; lia|].
  rewrite new_photon_timestamp. fold sum. split; [reflexivity|].
  split.
  - intros E. rewrite <- E. apply Z.mod_pos_bound. lia.
  - intros Hr. now apply Z.mod_small.
Qed.

(** ** Beam map *)

Lemma for_each_grid_write (o : cobj) (v : Z) (l : list (Z * Z)) (g g' : grid Z) :
  for_each (fun g '(x, y) => grid_write o g x y v) g l = Ok g' ->
  g_cols g' = g_cols g /\ g_rows g' = g_rows g
  /\ forall xy, (xy ∈ l -> g_cells g' !! xy = Some v)
             /\ (xy ∉ l -> g_cells g' !! xy = g_cells g !! xy).
Proof.
  revert g. induction l as [|[x y] l IH]; intros g Hrun; cbn [for_each] in Hrun.
  - injection Hrun as <-. split; [reflexivity|]. split; [reflexivity|].
    intros xy. split; [intros H; inversion H|reflexivity].
  - apply bind_Ok in Hrun as (g1 & Hw & Hrun).
    apply grid_write_Ok in Hw as [_ ->].
    destruct (IH _ Hrun) as (Hc & Hr & Hcells).
    split; [exact Hc|]. split; [exact Hr|].
    intros xy. destruct (Hcells xy) as [Hin Hout]. split.
    + intros Hxy. destruct (decide (xy ∈ l)) as [Hl|Hl]; [now apply Hin|].
      apply elem_of_cons in Hxy as [->|Hxy]; [|contradiction].
      rewrite Hout by exact Hl. apply cells_set_eq.
    + intros Hxy. apply not_elem_of_cons in Hxy as [Hne Hxy].
      rewrite Hout by exact Hxy. now apply cells_set_ne.
Qed.

Lemma InitializeBeamMap_spec (v cols rows : Z) (g : grid Z) :
  InitializeBeamMap (grid_alloc cols rows) v cols rows = Ok g ->
  g_cols g = cols /\ g_rows g = rows
  /\ (forall x y, 0 <= x < cols -> 0 <= y < rows -> g_cells g !! (x, y) = Some v)
  /\ (forall xy v', g_cells g !! xy = Some v' -> v' = v).
Proof.
  intros Hrun. unfold InitializeBeamMap in Hrun.
  apply for_each_grid_write in Hrun as (Hc & Hr & Hcells).
  split; [exact Hc|]. split; [exact Hr|]. split.
  - intros x y Hx Hy. apply Hcells. apply elem_of_grid_indices. auto.
  - intros xy v' Hv'.
    destruct (decide (xy ∈ grid_indices cols rows)) as [Hin|Hout].
    + apply Hcells in Hin. congruence.
    + apply Hcells in Hout. rewrite Hout in Hv'. cbn in Hv'.
      rewrite lookup_empty in Hv'. discriminate.
Qed.

Lemma foldl_grid_set (l : list (Z * Z)) (g : grid Z) :
  let g' := foldl (fun g '(x, y) => grid_set g x y 0) g l in
  g_cols g' = g_cols g /\ g_rows g' = g_rows g
  /\ forall xy, xy ∈ l -> g_cells g' !! xy = Some 0.
Proof.
  revert g. induction l as [|[x y] l IH]; intros g; cbn [foldl].
  - split; [reflexivity|]. split; [reflexivity|]. intros xy H. inversion H.
  - destruct (IH (grid_set g x y 0)) as (Hc & Hr & Hcells).
    split; [exact Hc|]. split; [exact Hr|].
    intros xy Hxy. destruct (decide (xy ∈ l)) as [Hl|Hl]; [now apply Hcells|].
    apply elem_of_cons in Hxy as [->|Hxy]; [|contradiction].
    clear IH Hcells Hc Hr. revert g Hl.
    induction l as [|[x' y'] l IHl]; intros g Hl; cbn [foldl].
    + apply cells_set_eq.
    + apply not_elem_of_cons in Hl as [Hne Hl].
      assert (E : grid_set (grid_set g x y 0) x' y' 0
                  = grid_set (grid_set g x' y' 0) x y 0).
      { unfold grid_set. cbn. f_equal. apply insert_insert_ne. congruence. }
      rewrite E. now apply IHl.
Qed.

Lemma grid_calloc_spec (cols rows : Z) :
  g_cols (grid_calloc cols rows) = cols /\ g_rows (grid_calloc cols rows) = rows
  /\ forall x y, 0 <= x < cols -> 0 <= y < rows ->
       g_cells (grid_calloc cols rows) !! (x, y) = Some 0.
Proof.
  unfold grid_calloc.
  destruct (foldl_grid_set (grid_indices cols rows) (grid_alloc cols rows))
    as (Hc & Hr & Hcells).
  split; [exact Hc|]. split; [exact Hr|].
  intros x y Hx Hy. apply Hcells. apply elem_of_grid_indices. auto.
Qed.

Lemma local_Ok (v : option Z) (z : Z) : local v = Ok z <-> v = Some z.
Proof. destruct v; cbn; split; congruence. Qed.

Lemma store_beam_Ok (vars : scan_vars) (s s' : beam_state) :
  store_beam vars s = Ok s' ->
  exists resid flag x y,
    v_x vars = Some x /\ v_y vars = Some y
    /\ in_grid (BeamMap s) x y = true /\ in_grid (BeamFlag s) x y = true
    /\ BeamMap s' = grid_set (BeamMap s) x y (uint32 resid)
    /\ BeamFlag s' = grid_set (BeamFlag s) x y
                       (if bool_decide (flag > 1) then 2 else uint32 flag)
    /\ DiskBeamMap s' = DiskBeamMap s.
Proof.
  unfold store_beam. intros H.
  apply bind_Ok in H as (resid & _ & H).
  apply bind_Ok in H as (flag & _ & H).
  apply bind_Ok in H as (x & Hx & H). apply local_Ok in Hx.
  apply bind_Ok in H as (y & Hy & H). apply local_Ok in Hy.
  apply bind_Ok in H as (bm & Hbm & H). apply grid_write_Ok in Hbm as [Hin1 ->].
  apply bind_Ok in H as (bfl & Hbfl & H). apply grid_write_Ok in Hbfl as [Hin2 ->].
  injection H as <-. exists resid, flag, x, y. cbn. auto 10.
Qed.

Lemma store_beam_ok (cols rows : Z) (vars : scan_vars) (s s' : beam_state) :
  beam_ok cols rows s -> store_beam vars s = Ok s' -> beam_ok cols rows s'.
Proof.
  intros (Hc1 & Hr1 & Hc2 & Hr2 & Hmap & Hflag) Hrun.
  unfold beam_ok.
  apply store_beam_Ok in Hrun
    as (resid & flag & x & y & _ & _ & _ & _ & -> & -> & _).
  cbn [g_cols g_rows grid_set].
  do 4 (split; [assumption|]). split.
  - intros x' y' Hx Hy. destruct (decide ((x', y') = (x, y))) as [->|Hne].
    + rewrite cells_set_eq. eauto.
    + rewrite cells_set_ne by exact Hne. now apply Hmap.
  - intros xy fl. destruct (decide (xy = (x, y))) as [->|Hne].
    + rewrite cells_set_eq. intros [= <-].
      case_bool_decide; [lia|]. apply wrapu_range. lia.
    + rewrite cells_set_ne by exact Hne. apply Hflag.
Qed.

Lemma store_beam_flags (vars : scan_vars) (s s' : beam_state) (xy : Z * Z) :
  store_beam vars s = Ok s' ->
  (forall x y, v_x vars = Some x -> v_y vars = Some y -> xy <> (x, y)) ->
  g_cells (BeamFlag s') !! xy = g_cells (BeamFlag s) !! xy.
Proof.
  intros Hrun Hne.
  apply store_beam_Ok in Hrun
    as (resid & flag & x & y & Hx & Hy & _ & _ & _ & -> & _).
  apply cells_set_ne. now apply Hne.
Qed.

Lemma scan_line_Ok (s s' : beam_state) (line : Z * Z * Z * Z) :
  scan_line s line = Ok s' ->
  exists s0 vars,
    BeamMap s0 = BeamMap s /\ BeamFlag s0 = BeamFlag s
    /\ v_x vars = Some (line_pixel line).1 /\ v_y vars = Some (line_pixel line).2
    /\ store_beam vars s0 = Ok s'.
Proof.
  destruct line as [[[resid flag] x] y]. unfold scan_line. intros H.
  case_bool_decide; [|discriminate].
  eexists _, _. split; [|split; [|split; [|split; [|exact H]]]]; reflexivity.
Qed.

Lemma scan_line_ok (cols rows : Z) (s s' : beam_state) (line : Z * Z * Z * Z) :
  beam_ok cols rows s -> scan_line s line = Ok s' -> beam_ok cols rows s'.
Proof.
  intros Hok Hrun.
  apply scan_line_Ok in Hrun as (s0 & vars & Hbm & Hbf & _ & _ & Hstore).
  apply (store_beam_ok cols rows vars s0); [|exact Hstore].
  unfold beam_ok in *. now rewrite Hbm, Hbf.
Qed.

Lemma scan_lines_flags (lines : list (Z * Z * Z * Z)) (s s' : beam_state)
    (xy : Z * Z) :
  for_each scan_line s lines = Ok s' ->
  xy ∉ line_pixel <$> lines ->
  g_cells (BeamFlag s') !! xy = g_cells (BeamFlag s) !! xy.
Proof.
  revert s. induction lines as [|line lines IH]; intros s Hrun Hxy;
    cbn [for_each] in Hrun.
  - now injection Hrun as <-.
  - apply bind_Ok in Hrun as (s1 & H1 & Hrun).
    rewrite fmap_cons in Hxy. apply not_elem_of_cons in Hxy as [Hne Hxy].
    rewrite (IH s1 Hrun Hxy).
    apply scan_line_Ok in H1 as (s0 & vars & _ & Hbf & Hx & Hy & Hstore).
    rewrite <- Hbf. apply (store_beam_flags vars); [exact Hstore|].
    intros x y Hx' Hy'. rewrite Hx in Hx'. rewrite Hy in Hy'.
    injection Hx' as <-. injection Hy' as <-.
    destruct (line_pixel line). exact Hne.
Qed.

(** the beam map as [extract_photons] loads it *)
Lemma ParseBeamMapFile_spec (f : beam_file) (cols rows : Z) (s s' : beam_state) :
  beam_ok cols rows s ->
  ParseBeamMapFile f s = Ok s' ->
  beam_ok cols rows s'
  /\ forall xy, xy ∉ file_pixels f ->
       g_cells (BeamFlag s') !! xy = g_cells (BeamFlag s) !! xy.
Proof.
  intros Hok Hrun. unfold ParseBeamMapFile in Hrun.
  apply bind_Ok in Hrun as (s1 & Hlines & Hlast).
  assert (Hok1 : beam_ok cols rows s1).
  { apply (for_each_inv (beam_ok cols rows) scan_line (bf_lines f)) with (s := s);
      [|exact Hok|exact Hlines].
    intros s0 a s0' _. apply scan_line_ok. }
  split; [apply (store_beam_ok cols rows (vars_at_end f) s1); assumption|].
  intros xy Hxy. unfold file_pixels in Hxy.
  apply not_elem_of_app in Hxy as [Hlinesxy Hend].
  rewrite (store_beam_flags (vars_at_end f) s1 s' xy Hlast).
  - now apply (scan_lines_flags (bf_lines f)).
  - intros x y Hx Hy. rewrite Hx, Hy in Hend.
    intros ->. apply Hend. apply list_elem_of_singleton. reflexivity.
Qed.

(** when the failing call converts nothing, the last stores repeat those
    of the last full line *)
Lemma file_pixels_full_lines (f : beam_file) (xy : Z * Z) :
  bf_partial f = [] ->
  xy ∈ file_pixels f <-> xy ∈ line_pixel <$> bf_lines f.
Proof.
  intros Hp. unfold file_pixels, vars_at_end. rewrite Hp. cbn [lookup list_lookup].
  rewrite elem_of_app. split; [|now left].
  intros [H|H]; [exact H|].
  destruct (last (bf_lines f)) as [[[[r fl] x] y]|] eqn:El.
  - cbn in H. apply list_elem_of_singleton in H as ->.
    apply last_Some in El as [l' ->].
    rewrite fmap_app. apply elem_of_app. right.
    apply list_elem_of_singleton. reflexivity.
  - cbn in H. inversion H.
Qed.

Lemma last_line_for_cons (line : Z * Z * Z * Z) (lines : list (Z * Z * Z * Z))
    (xy : Z * Z) :
  last_line_for (line :: lines) xy
  = match last_line_for lines xy with
    | Some l => Some l
    | None => if decide (line_pixel line = xy) then Some line else None
    end.
Proof.
  unfold last_line_for. rewrite filter_cons.
  destruct (decide (line_pixel line = xy)).
  - apply last_cons.
  - now destruct (last _).
Qed.

Lemma last_line_for_last (lines : list (Z * Z * Z * Z)) (line : Z * Z * Z * Z) :
  last lines = Some line -> last_line_for lines (line_pixel line) = Some line.
Proof.
  intros Hl. apply last_Some in Hl as [m ->].
  unfold last_line_for. rewrite filter_app.
  rewrite (filter_cons_True _ line []) by reflexivity.
  rewrite filter_nil. apply last_snoc.
Qed.

(** the locals after a failing call that converted nothing are those of
    the last full line *)
Lemma vars_at_end_full (f : beam_file) (resid flag x y : Z) :
  bf_partial f = [] ->
  last (bf_lines f) = Some (resid, flag, x, y) ->
  vars_at_end f
  = {| v_resid := Some resid; v_flag := Some flag; v_x := Some x; v_y := Some y |}.
Proof.
  intros Hp Hl. unfold vars_at_end. rewrite Hp, Hl. reflexivity.
Qed.

(** the flag a round of the [do] loop stores for its line *)
Lemma scan_line_flag (s s' : beam_state) (line : Z * Z * Z * Z) :
  scan_line s line = Ok s' ->
  BeamFlag s' = grid_set (BeamFlag s) (line_pixel line).1 (line_pixel line).2
                  (stored_flag line).
Proof.
  destruct line as [[[resid flag] x] y]. unfold scan_line. intros H.
  case_bool_decide; [|discriminate].
  unfold store_beam in H. cbn [local v_resid v_flag v_x v_y mbind res_bind] in H.
  cbn [BeamMap BeamFlag] in H.
  apply bind_Ok in H as (bm & _ & H).
  apply bind_Ok in H as (bfl & Hbfl & H). apply grid_write_Ok in Hbfl as [_ ->].
  injection H as <-. reflexivity.
Qed.

(** the flags after the full lines: the last line that names a pixel
    decides its flag *)
Lemma scan_lines_loaded_flags (lines : list (Z * Z * Z * Z)) (s s' : beam_state)
    (xy : Z * Z) :
  for_each scan_line s lines = Ok s' ->
  g_cells (BeamFlag s') !! xy
  = match last_line_for lines xy with
    | Some line => Some (stored_flag line)
    | None => g_cells (BeamFlag s) !! xy
    end.
Proof.
  revert s. induction lines as [|line lines IH]; intros s Hrun;
    cbn [for_each] in Hrun.
  - now injection Hrun as <-.
  - apply bind_Ok in Hrun as (s1 & H1 & Hrun).
    rewrite (IH s1 Hrun), last_line_for_cons.
    destruct (last_line_for lines xy) as [l|]; [reflexivity|].
    rewrite (scan_line_flag s s1 line H1).
    destruct (line_pixel line) as [x y]. cbn [fst snd].
    destruct (decide ((x, y) = xy)) as [<-|Hne].
    + apply cells_set_eq.
    + apply cells_set_ne. congruence.
Qed.

(** the flags a beam-map file of full lines leaves *)
Lemma ParseBeamMapFile_loaded_flags (f : beam_file) (s s' : beam_state)
    (xy : Z * Z) :
  bf_partial f = [] ->
  ParseBeamMapFile f s = Ok s' ->
  g_cells (BeamFlag s') !! xy
  = match last_line_for (bf_lines f) xy with
    | Some line => Some (stored_flag line)
    | None => g_cells (BeamFlag s) !! xy
    end.
Proof.
  intros Hp Hrun. unfold ParseBeamMapFile in Hrun.
  apply bind_Ok in Hrun as (s1 & Hlines & Hlast).
  rewrite <- (scan_lines_loaded_flags (bf_lines f) s s1 xy Hlines).
  destruct (last (bf_lines f)) as [[[[resid flag] x] y]|] eqn:El.
  - rewrite (vars_at_end_full f resid flag x y Hp El) in Hlast.
    unfold store_beam in Hlast.
    cbn [local v_resid v_flag v_x v_y mbind res_bind] in Hlast.
    apply bind_Ok in Hlast as (bm & _ & Hlast).
    apply bind_Ok in Hlast as (bfl & Hbfl & Hlast).
    apply grid_write_Ok in Hbfl as [_ ->]. injection Hlast as <-.
    cbn [BeamFlag]. destruct (decide ((x, y) = xy)) as [<-|Hne].
    + rewrite cells_set_eq.
      rewrite (scan_lines_loaded_flags (bf_lines f) s s1 (x, y) Hlines).
      pose proof (last_line_for_last _ _ El) as Hl. cbn [line_pixel] in Hl.
      rewrite Hl. reflexivity.
    + apply cells_set_ne. congruence.
  - unfold store_beam, vars_at_end in Hlast. rewrite Hp, El in Hlast.
    discriminate.
Qed.

(** ** Valid-pixels-only decoding *)

Lemma skipped_false (c : decode_ctx) (data : datapacket) :
  mapflag c > 0 ->
  (forall xy fl, g_cells (c_BeamFlag c) !! xy = Some fl -> 0 <= fl) ->
  skipped c data = Ok false ->
  g_cells (c_BeamFlag c) !! (data_xcoord data, data_ycoord data) = Some 0.
Proof.
  intros Hmf Hnonneg. unfold skipped.
  case_bool_decide as Hout; [discriminate|].
  rewrite bool_decide_true by exact Hmf. intros Hrd.
  apply bind_Ok in Hrd as (fl & Hfl & Hrd). apply grid_read_Ok in Hfl as [_ Hfl].
  injection Hrd as Hrd. apply bool_decide_eq_false in Hrd.
  specialize (Hnonneg _ _ Hfl). rewrite Hfl. f_equal. lia.
Qed.

Lemma ParseToMem_word_flagged (c : decode_ctx) (packet : list byte)
    (basetime : Z) (t t' : tables) (i : Z) :
  mapflag c > 0 ->
  (forall xy fl, g_cells (c_BeamFlag c) !! xy = Some fl -> 0 <= fl) ->
  flagged_empty (c_BeamFlag c) (beamCols c) (beamRows c) t ->
  ParseToMem_word c packet basetime t i = Ok t' ->
  flagged_empty (c_BeamFlag c) (beamCols c) (beamRows c) t'.
Proof.
  intros Hmf Hnonneg Hinv Hrun. unfold ParseToMem_word in Hrun.
  apply bind_Ok in Hrun as (swp & _ & Hrun).
  apply bind_Ok in Hrun as (skip & Hskip & Hrun).
  destruct skip; [now injection Hrun as <-|].
  apply (skipped_false c _ Hmf Hnonneg) in Hskip.
  apply bind_Ok in Hrun as (t1 & Hgrow & Hrun).
  apply bind_Ok in Hrun as (bmval & _ & Hpush).
  apply grow_pixel_Ok in Hgrow.
  apply push_photon_Ok in Hpush as (ct & buf & _ & _ & _ & _ & Hctg).
  destruct Hinv as (Hc & Hr & Hinv).
  unfold flagged_empty, count_at in *. rewrite Hctg, Hgrow.
  cbn [g_cols g_rows grid_set]. split; [exact Hc|]. split; [exact Hr|].
  intros x y fl Hx Hy Hfl Hnz.
  rewrite cells_set_ne; [now apply (Hinv x y fl)|].
  intros E. rewrite E in Hfl. congruence.
Qed.

Lemma ParseToMem_flagged (c : decode_ctx) (packet : list byte)
    (l tsOffs FirstFile iFile : Z) (t t' : tables) :
  mapflag c > 0 ->
  (forall xy fl, g_cells (c_BeamFlag c) !! xy = Some fl -> 0 <= fl) ->
  flagged_empty (c_BeamFlag c) (beamCols c) (beamRows c) t ->
  ParseToMem c packet l tsOffs FirstFile iFile t = Ok t' ->
  flagged_empty (c_BeamFlag c) (beamCols c) (beamRows c) t'.
Proof.
  intros Hmf Hnonneg Hinv Hrun. unfold ParseToMem in Hrun.
  apply bind_Ok in Hrun as (swp & _ & Hrun).
  case_bool_decide; [now injection Hrun as <-|].
  case_bool_decide; [now injection Hrun as <-|].
  revert Hinv Hrun. apply for_each_inv.
  intros s i s' _. now apply ParseToMem_word_flagged.
Qed.

Lemma frame_word_flagged (c : decode_ctx) (data : list byte)
    (tsOffs FirstFile i : Z) (s s' : frame_state) (k : Z) :
  mapflag c > 0 ->
  (forall xy fl, g_cells (c_BeamFlag c) !! xy = Some fl -> 0 <= fl) ->
  flagged_empty (c_BeamFlag c) (beamCols c) (beamRows c) (f_tables s) ->
  frame_word c data tsOffs FirstFile i s k = Ok s' ->
  flagged_empty (c_BeamFlag c) (beamCols c) (beamRows c) (f_tables s').
Proof.
  intros Hmf Hnonneg Hinv Hrun. unfold frame_word in Hrun.
  apply bind_Ok in Hrun as (swp & _ & Hrun).
  destruct (is_header swp); [|now injection Hrun as <-].
  apply bind_Ok in Hrun as (ps & _ & Hrun).
  apply bind_Ok in Hrun as (pkt & _ & Hrun).
  apply bind_Ok in Hrun as (t & Hparse & Hrun).
  injection Hrun as <-. cbn [f_tables].
  eapply ParseToMem_flagged; eassumption.
Qed.

Lemma parse_file_flagged (w : world) (c : decode_ctx)
    (tsOffs FirstFile : Z) (s s' : frame_state) (i : Z) :
  mapflag c > 0 ->
  (forall xy fl, g_cells (c_BeamFlag c) !! xy = Some fl -> 0 <= fl) ->
  flagged_empty (c_BeamFlag c) (beamCols c) (beamRows c) (f_tables s) ->
  parse_file w c tsOffs FirstFile s i = Ok s' ->
  flagged_empty (c_BeamFlag c) (beamCols c) (beamRows c) (f_tables s').
Proof.
  intros Hmf Hnonneg Hinv Hrun. unfold parse_file in Hrun.
  destruct (binfile w (int64 (FirstFile + i))) as [data|]; [|discriminate].
  apply bind_Ok in Hrun as (found & _ & Hrun).
  apply bind_Ok in Hrun as (fh & _ & Hrun).
  revert Hrun.
  apply (for_each_inv
           (fun s => flagged_empty (c_BeamFlag c) (beamCols c) (beamRows c) (f_tables s))).
  - intros s0 k s0' _. now apply frame_word_flagged.
  - destruct found; exact Hinv.
Qed.

Lemma sort_pixel_counts (t t' : tables) (xy : Z * Z) :
  sort_pixel t xy = Ok t' -> ptablect t' = ptablect t.
Proof.
  destruct xy as [x y]. unfold sort_pixel. intros H.
  apply bind_Ok in H as (n & _ & H).
  case_bool_decide; [now injection H as <-|].
  apply bind_Ok in H as (buf & _ & H).
  case_bool_decide; [discriminate|].
  destruct (all_written _); [|discriminate].
  apply bind_Ok in H as (pt & _ & H). now injection H as <-.
Qed.

Lemma SortPhotonTables_counts (t t' : tables) (cols rows : Z) :
  SortPhotonTables t cols rows = Ok t' -> ptablect t' = ptablect t.
Proof.
  unfold SortPhotonTables.
  apply (for_each_inv (fun t0 => ptablect t0 = ptablect t)); [|reflexivity].
  intros s xy s' _ Hs Hrun. apply sort_pixel_counts in Hrun. congruence.
Qed.

(** C9.  [extract_photons] decodes with [mapflag] set to 1, whatever its
    arguments.  When its run gets as far as the copy into the output
    array, with the beam map [bs] as loaded and the sorted tables [t]:
    a pixel of the map that the beam-map file does not store to has the
    flag 1 it was initialized with; for a beam-map file of full lines
    only, the flag of a pixel is the one of the last line that names it,
    as the 32-bit flag array holds it (2 for a flag above 1, the flag
    modulo [2^32] otherwise), and 1 when no line names it; and every
    pixel of the map whose flag is not zero has count zero, so that any
    entry of [DiskBeamMap] naming it leaves the output array and the
    number of photons as they are. *)
Theorem valid_pixels_only (w : world) (a : call) (bs : beam_state) (t : tables) :
  run_tables w a = Ok (bs, t) ->
  let cols := uint32 (bmap_ncol a) in
  let rows := uint32 (bmap_nrow a) in
  (forall x y, 0 <= x < cols -> 0 <= y < rows ->
     (x, y) ∉ file_pixels (beammap w) ->
     g_cells (BeamFlag bs) !! (x, y) = Some 1)
  /\ (bf_partial (beammap w) = [] ->
      forall x y, 0 <= x < cols -> 0 <= y < rows ->
        g_cells (BeamFlag bs) !! (x, y)
        = Some match last_line_for (bf_lines (beammap w)) (x, y) with
               | Some line => stored_flag line
               | None => 1
               end)
  /\ (forall x y fl, 0 <= x < cols -> 0 <= y < rows ->
        g_cells (BeamFlag bs) !! (x, y) = Some fl -> fl <> 0 ->
        count_at t (x, y) = Some 0
        /\ forall j acc resid flag,
             DiskBeamMap bs !! Z.to_nat j = Some (resid, flag, x, y) ->
             flatten_entry bs t acc j = Ok acc).
Proof.
  intros Hrun cols rows. unfold run_tables in Hrun. cbv zeta in Hrun.
  fold cols rows in Hrun.
  apply bind_Ok in Hrun as (bm & Hbm & Hrun).
  apply bind_Ok in Hrun as (bfl & Hbfl & Hrun).
  apply bind_Ok in Hrun as (bs0 & Hload & Hrun).
  apply bind_Ok in Hrun as (pt & _ & Hrun).
  apply bind_Ok in Hrun as (s & Hfiles & Hrun).
  apply bind_Ok in Hrun as (t0 & Hsort & Hrun).
  injection Hrun as -> ->.
  apply InitializeBeamMap_spec in Hbm as (Hbmc & Hbmr & Hbmcells & _).
  apply InitializeBeamMap_spec in Hbfl as (Hbfc & Hbfr & Hbfcells & Hbfall).
  pose proof (fun Hp xy => ParseBeamMapFile_loaded_flags _ _ _ xy Hp Hload)
    as Hloaded.
  cbn [BeamFlag] in Hloaded.
  apply (ParseBeamMapFile_spec _ cols rows) in Hload as [Hok Hflags].
  2:{ unfold beam_ok. cbn [BeamMap BeamFlag].
      do 4 (split; [assumption|]). split.
      - intros x y Hx Hy. rewrite Hbmcells by assumption. eauto.
      - intros xy fl Hfl. apply Hbfall in Hfl. lia. }
  cbn [BeamFlag] in Hflags.
  split.
  { intros x y Hx Hy Hxy. rewrite Hflags by exact Hxy. now apply Hbfcells. }
  split.
  { intros Hp x y Hx Hy. rewrite (Hloaded Hp (x, y)).
    destruct (last_line_for _ _); [reflexivity|]. now apply Hbfcells. }
  destruct Hok as (Hc1 & Hr1 & Hc2 & Hr2 & Hmap & Hnonneg).
  assert (Hinv : flagged_empty (BeamFlag bs) cols rows (f_tables s)).
  { revert Hfiles.
    apply (for_each_inv (fun s => flagged_empty (BeamFlag bs) cols rows (f_tables s))).
    - intros s0 i s0' _.
      apply (parse_file_flagged w
               {| tstart := _; c_BeamMap := BeamMap bs; c_BeamFlag := BeamFlag bs;
                  mapflag := 1; beamCols := cols; beamRows := rows |});
        cbn [mapflag c_BeamFlag]; [lia|exact Hnonneg].
    - cbn [f_tables]. destruct (grid_calloc_spec cols rows) as (Hcc & Hcr & Hzero).
      unfold flagged_empty, count_at. cbn [ptablect].
      split; [exact Hcc|]. split; [exact Hcr|].
      intros x y fl Hx Hy _ _. now apply Hzero. }
  apply SortPhotonTables_counts in Hsort.
  destruct Hinv as (Hcc & Hcr & Hinv).
  intros x y fl Hx Hy Hfl Hnz.
  assert (Hcount : count_at t (x, y) = Some 0).
  { unfold count_at in *. rewrite Hsort. now apply (Hinv x y fl). }
  split; [exact Hcount|].
  intros j acc resid flag Hj. unfold flatten_entry. destruct acc as [nPhot out].
  rewrite Hj.
  destruct (Hmap x y Hx Hy) as [bmv Hbmv].
  rewrite (grid_read_Ok_2 BeamMapArr (BeamMap bs) x y bmv);
    [|apply in_grid_spec; rewrite Hc1, Hr1; auto|exact Hbmv].
  cbn [mbind res_bind].
  case_bool_decide; [reflexivity|].
  rewrite (grid_read_Ok_2 PtablectArr (ptablect t) x y 0);
    [|apply in_grid_spec; rewrite Hsort, Hcc, Hcr; auto|exact Hcount].
  cbn [mbind res_bind]. rewrite bool_decide_true by reflexivity. reflexivity.
Qed.

(** ** The run extractor on sample inputs *)

Lemma for_each_idle {S A : Type} (body : S -> A -> res S) (s : S) (l : list A) :
  (forall a, a ∈ l -> body s a = Ok s) -> for_each body s l = Ok s.
Proof.
  induction l as [|a l IH]; intros Hidle; cbn [for_each]; [reflexivity|].
  rewrite Hidle by (apply elem_of_cons; left; reflexivity).
  cbn [mbind res_bind]. apply IH.
  intros a' Hin. apply Hidle. apply elem_of_cons. right. exact Hin.
Qed.

(** a file in which no header word follows the first one is framed into
    no packet at all: whatever its data words, the tables stay as they
    are *)
Lemma single_packet_file_ignored (w : world) (c : decode_ctx)
    (tsOffs FirstFile i : Z) (s : frame_state) (data : list byte) (first : Z) :
  binfile w (int64 (FirstFile + i)) = Some data ->
  first_header data (seqZ 0 (Z.of_nat (length data) / 8)) = Ok (Some first) ->
  (forall k, first < k < Z.of_nat (length data) / 8 ->
     exists swp, load64 data (k * 8) = Some swp /\ is_header swp = false) ->
  exists s',
    parse_file w c tsOffs FirstFile s i = Ok s' /\ f_tables s' = f_tables s.
Proof.
  intros Hfile Hfirst Hnone. unfold parse_file. rewrite Hfile, Hfirst.
  cbn [mbind res_bind firstHeader local].
  exists {| firstHeader := Some first; pstart := Some first;
            packet := packet s; f_tables := f_tables s |}.
  split; [|reflexivity].
  apply for_each_idle. intros k Hk. apply elem_of_seqZ in Hk.
  destruct (Hnone k ltac:(lia)) as (swp & Hload & Hhdr).
  unfold frame_word. rewrite (load_Some _ _ _ _ Hload).
  cbn [mbind res_bind]. rewrite Hhdr. reflexivity.
Qed.

(** C1.  A file that holds a single packet, a header and one photon for
    a mapped pixel: the packet runs to the end of the file, no header
    follows it, and [ParseToMem] is never called.  The run returns 0
    photons and leaves the output array as it was. *)
Theorem final_packet_not_decoded :
  extract_photons (one_file [(7, 0, 0, 0)] last_packet_only) (one_second 1 1 4)
  = Ok (0, [None; None; None; None]).
Proof. vm_compute. reflexivity. Qed.

(** the same packet is decoded once a header follows it *)
Lemma interior_packet_decoded :
  extract_photons (one_file [(7, 0, 0, 0)] packet_then_header) (one_second 1 1 4)
  = Ok (1, [Some {| resID := 7; timestamp := 2503; wvl := F_scaled 10;
                    wSpec := F_one; wNoise := F_one |};
            None; None; None]).
Proof. vm_compute. reflexivity. Qed.

(** the two tests [extract_photons] makes return -1 with the output
    array untouched *)
Lemma extract_photons_no_directory (w : world) (a : call) :
  opendir_enoent w = true -> extract_photons w a = Ok (-1, otable a).
Proof. intros H. unfold extract_photons. now rewrite H. Qed.

Lemma extract_photons_bad_file_count (w : world) (a : call) :
  uint32 (integration_time a + 1) < 1 \/ uint32 (integration_time a + 1) > 1800 ->
  extract_photons w a = Ok (-1, otable a).
Proof.
  intros H. unfold extract_photons. destruct (opendir_enoent w); [reflexivity|].
  cbv zeta. now rewrite bool_decide_true.
Qed.

(** C5.  Two photons for an output array of one: [n_max_photons] is not
    looked at, nothing returns -1, and the copy runs over the end of the
    caller's array. *)
Theorem small_otable_overrun :
  extract_photons (one_file [(7, 0, 0, 0)] two_photons) (one_second 1 1 1)
  = Fault (OutOfBounds Otable).
Proof. vm_compute. reflexivity. Qed.

(** C7.  A map of two pixels and a beam-map file of the line [7 0 0 0]
    followed by the numbers [8 0 1]: pixel (0, 0) is named by the one
    full line, pixel (1, 0) gets its resid from the stores after the
    failing read, and [DiskBeamMap] holds one entry.  The loop over
    [DiskBeamMap] runs over both of its entries all the same; the second
    is the zeros of [calloc] and names pixel (0, 0) again, and the one
    photon of that pixel is copied twice. *)
Theorem short_beam_map_copies_twice :
  extract_photons (one_file_partial [(7, 0, 0, 0)] [8; 0; 1] packet_then_header)
    (one_second 2 1 4)
  = Ok (2, [Some {| resID := 7; timestamp := 2503; wvl := F_scaled 10;
                    wSpec := F_one; wNoise := F_one |};
            Some {| resID := 7; timestamp := 2503; wvl := F_scaled 10;
                    wSpec := F_one; wNoise := F_one |};
            None; None]).
Proof. vm_compute. reflexivity. Qed.

(** with the line [7 0 0 0] alone the same copy is made, and the release
    of the buffers then meets pixel (1, 0), which no store named *)
Lemma short_beam_map_unnamed_pixel :
  extract_photons (one_file [(7, 0, 0, 0)] packet_then_header) (one_second 2 1 4)
  = Fault (Uninitialised PtableArr).
Proof. vm_compute. reflexivity. Qed.

(** C9 as stated does not hold for every flag the file can give: the
    line [7 -4294967296 0 0] gives pixel (0, 0) a flag that is not zero,
    the 32-bit flag array holds it as 0, and the photon of the pixel is
    in the output. *)
Lemma negative_flag_counterexample :
  -4294967296 <> 0
  /\ extract_photons (one_file [(7, -4294967296, 0, 0)] packet_then_header)
       (one_second 1 1 4)
     = Ok (1, [Some {| resID := 7; timestamp := 2503; wvl := F_scaled 10;
                       wSpec := F_one; wNoise := F_one |};
               None; None; None]).
Proof. split; [discriminate|]. vm_compute. reflexivity. Qed.

(** a photon for a pixel the file flags 1 is left out of the output, and
    is in it once the file flags the pixel 0 *)
Lemma flagged_pixel_left_out :
  extract_photons (one_file [(7, 0, 0, 0); (8, 1, 1, 0)] two_pixel_packet)
    (one_second 2 1 4)
  = Ok (1, [Some {| resID := 7; timestamp := 2503; wvl := F_scaled 10;
                    wSpec := F_one; wNoise := F_one |};
            None; None; None])
  /\ extract_photons (one_file [(7, 0, 0, 0); (8, 0, 1, 0)] two_pixel_packet)
       (one_second 2 1 4)
     = Ok (2, [Some {| resID := 7; timestamp := 2503; wvl := F_scaled 10;
                       wSpec := F_one; wNoise := F_one |};
               Some {| resID := 8; timestamp := 2504; wvl := F_scaled 11;
                       wSpec := F_one; wNoise := F_one |};
               None; None]).
Proof. split; vm_compute; reflexivity. Qed.

(** ** The theorems on sample inputs *)

Lemma SortPhotonTables_sorts_witness :
  exists t',
    SortPhotonTables unsorted_tables 1 1 = Ok t'
    /\ buffer_at t' (0, 0)
       = Some [Some (sample_photon 10); Some (sample_photon 20);
               Some (sample_photon 30); None].
Proof.
  destruct (SortPhotonTables_sorts unsorted_tables 1 1) as (t' & Hrun & _ & _).
  { intros x y Hx Hy. assert (x = 0) as -> by lia. assert (y = 0) as -> by lia.
    split; [reflexivity|]. exists 3. split; [reflexivity|]. intros _.
    split; [reflexivity|].
    exists [Some (sample_photon 30); Some (sample_photon 10);
            Some (sample_photon 20); None],
           [sample_photon 30; sample_photon 10; sample_photon 20].
    split; [reflexivity|]. split; [reflexivity|]. cbn. lia. }
  exists t'. split; [exact Hrun|].
  vm_compute in Hrun. injection Hrun as <-. reflexivity.
Defined.

Lemma event_store_appends_witness :
  exists t' buf,
    appends fresh_tables 0 0 many_photons = Ok t'
    /\ count_at t' (0, 0) = Some 7499
    /\ buffer_at t' (0, 0) = Some buf
    /\ take (length many_photons) buf = Some <$> many_photons
    /\ exists k, 0 < k /\ Z.of_nat (length buf) = 2500 * k.
Proof.
  destruct (event_store_appends fresh_tables 0 0 many_photons (sample_photon 2))
    as (t' & buf & Hrun & Hct & Hbuf & Htake & Hcap & _).
  { repeat split; reflexivity. }
  { unfold many_photons. rewrite length_replicate. lia. }
  exists t', buf. split; [exact Hrun|]. split.
  { rewrite Hct. unfold many_photons. rewrite length_replicate. reflexivity. }
  split; [exact Hbuf|]. split; [exact Htake|]. exact Hcap.
Defined.

Lemma ParseToMem_early_packet_witness :
  ParseToMem sample_ctx early_packet 16 1514764800 1514764900 0 fresh_tables
  = Ok fresh_tables.
Proof.
  apply (ParseToMem_early_packet sample_ctx early_packet 16 1514764800 1514764900 0
           fresh_tables (le_value (take 8 early_packet))).
  - reflexivity.
  - zclosed.
  - zclosed.
Defined.

Lemma ParseToMem_word_skips_witness :
  ParseToMem_word sample_ctx stray_packet 5 fresh_tables 2 = Ok fresh_tables
  /\ for_each (ParseToMem_word sample_ctx stray_packet 5) fresh_tables [2; 1]
     = for_each (ParseToMem_word sample_ctx stray_packet 5) fresh_tables [1].
Proof.
  apply (ParseToMem_word_skips sample_ctx stray_packet 5 fresh_tables 2
           (le_value (take 8 (drop 16 stray_packet))) [1]).
  - reflexivity.
  - left. zclosed.
Defined.

Lemma stored_timestamp_mod_witness :
  exists t' buf,
    ParseToMem_word sample_ctx stray_packet 8589935 fresh_tables 1 = Ok t'
    /\ buffer_at t' (0, 0) = Some buf
    /\ exists p, buf !! 0%nat = Some (Some p) /\ timestamp p = 207.
Proof.
  destruct (ParseToMem_word sample_ctx stray_packet 8589935 fresh_tables 1)
    as [t'|f] eqn:Hrun; [|vm_compute in Hrun; discriminate].
  destruct (stored_timestamp_mod sample_ctx stray_packet 8589935 fresh_tables t' 1
              (le_value (take 8 (drop 8 stray_packet))))
    as (ct & buf & p & Hct & _ & Hbuf & Hp & Hts & _).
  { reflexivity. }
  { reflexivity. }
  { exact Hrun. }
  exists t', buf. split; [reflexivity|]. split; [exact Hbuf|].
  exists p. vm_compute in Hct. injection Hct as <-.
  split; [exact Hp|]. rewrite Hts. reflexivity.
Defined.

Lemma valid_pixels_only_witness :
  exists bs t,
    run_tables (one_file [(7, 0, 0, 0); (8, 1, 1, 0)] two_pixel_packet)
      (one_second 2 1 4)
    = Ok (bs, t)
    /\ (let data := as_datapacket
                      (bswap_64 (le_value (take 8 (drop 16 two_pixel_packet)))) in
        (data_xcoord data, data_ycoord data) = (1, 0))
    /\ g_cells (BeamFlag bs) !! (1, 0) = Some 1
    /\ count_at t (1, 0) = Some 0
    /\ count_at t (0, 0) = Some 1.
Proof.
  destruct (run_tables (one_file [(7, 0, 0, 0); (8, 1, 1, 0)] two_pixel_packet)
              (one_second 2 1 4))
    as [[bs t]|f] eqn:Hrun; [|vm_compute in Hrun; discriminate].
  destruct (valid_pixels_only _ _ bs t Hrun) as (_ & Hfile & Hcount).
  assert (H1 : g_cells (BeamFlag bs) !! (1, 0) = Some 1).
  { rewrite (Hfile eq_refl 1 0); [reflexivity|zclosed|zclosed]. }
  exists bs, t. split; [reflexivity|]. split; [reflexivity|]. split; [exact H1|].
  split.
  - apply (Hcount 1 0 1); [zclosed|zclosed|exact H1|discriminate].
  - vm_compute in Hrun. injection Hrun as <- <-. reflexivity.
Defined.

(** * Further properties *)

(** ** Bytes, words and bit-fields *)

Lemma byte_val_range (b : byte) : 0 <= byte_val b < 256.
Proof.
  unfold byte_val. pose proof (Byte.to_N_bounded b) as H. lia.
Qed.

Lemma le_value_range (bs : list byte) :
  0 <= le_value bs < 256 ^ Z.of_nat (length bs).
Proof.
  induction bs as [|b bs IH]; cbn [le_value length]; [lia|].
  pose proof (byte_val_range b).
  rewrite Nat2Z.inj_succ, Z.pow_succ_r by lia. lia.
Qed.

Lemma load64_range (mem : list byte) (off w : Z) :
  load64 mem off = Some w -> 0 <= w < 2 ^ 64.
Proof.
  unfold load64. case_bool_decide as Hr; [|discriminate]. intros [= <-].
  pose proof (le_value_range (take 8 (drop (Z.to_nat off) mem))) as H.
  rewrite length_take, length_drop in H.
  replace (8 `min` (length mem - Z.to_nat off))%nat with 8%nat in H by lia.
  exact H.
Qed.

Lemma ufield_div_mod (w lo width : Z) :
  0 <= lo -> 0 <= width -> ufield w lo width = (w / 2 ^ lo) mod 2 ^ width.
Proof.
  intros Hlo Hw. unfold ufield.
  rewrite Z.land_ones by exact Hw. now rewrite Z.shiftr_div_pow2.
Qed.

Lemma lor_shifted (a b n : Z) :
  0 <= n -> 0 <= b < 2 ^ n -> Z.lor (Z.shiftl a n) b = a * 2 ^ n + b.
Proof.
  intros Hn Hb. rewrite Z.shiftl_mul_pow2 by exact Hn.
  symmetry. apply Z.add_nocarry_lor.
  apply Z.bits_inj'. intros i Hi.
  rewrite Z.land_spec, Z.bits_0.
  destruct (Z.lt_ge_cases i n) as [Hlt|Hge].
  - rewrite Z.mul_pow2_bits_low by exact Hlt. reflexivity.
  - rewrite <- (Z.mod_small b (2 ^ n)) by exact Hb.
    rewrite Z.mod_pow2_bits_high by lia. apply andb_false_r.
Qed.

Lemma byte_of_word (v n : Z) :
  0 <= n -> Z.land (Z.shiftr v n) 255 = (v / 2 ^ n) mod 256.
Proof.
  intros Hn. change 255 with (Z.ones 8).
  rewrite Z.land_ones by lia. rewrite Z.shiftr_div_pow2 by lia. reflexivity.
Qed.

(** [__bswap_64] as arithmetic on the eight bytes of its argument *)
Lemma bswap_64_bytes (v : Z) :
  bswap_64 v
  = (v mod 256) * 2 ^ 56 + ((v / 2 ^ 8) mod 256) * 2 ^ 48
    + ((v / 2 ^ 16) mod 256) * 2 ^ 40 + ((v / 2 ^ 24) mod 256) * 2 ^ 32
    + ((v / 2 ^ 32) mod 256) * 2 ^ 24 + ((v / 2 ^ 40) mod 256) * 2 ^ 16
    + ((v / 2 ^ 48) mod 256) * 2 ^ 8 + (v / 2 ^ 56) mod 256.
Proof.
  unfold bswap_64.
  replace (Z.land v 255) with (v mod 256)
    by (change 255 with (Z.ones 8); now rewrite Z.land_ones by lia).
  rewrite !byte_of_word by lia.
  pose proof (Z.mod_pos_bound v 256 ltac:(lia)).
  pose proof (Z.mod_pos_bound (v / 2 ^ 8) 256 ltac:(lia)).
  pose proof (Z.mod_pos_bound (v / 2 ^ 16) 256 ltac:(lia)).
  pose proof (Z.mod_pos_bound (v / 2 ^ 24) 256 ltac:(lia)).
  pose proof (Z.mod_pos_bound (v / 2 ^ 32) 256 ltac:(lia)).
  pose proof (Z.mod_pos_bound (v / 2 ^ 40) 256 ltac:(lia)).
  pose proof (Z.mod_pos_bound (v / 2 ^ 48) 256 ltac:(lia)).
  pose proof (Z.mod_pos_bound (v / 2 ^ 56) 256 ltac:(lia)).
  rewrite (lor_shifted _ _ 8) by lia.
  rewrite (lor_shifted _ _ 16) by lia.
  rewrite (lor_shifted _ _ 24) by lia.
  rewrite (lor_shifted _ _ 32) by lia.
  rewrite (lor_shifted _ _ 40) by lia.
  rewrite (lor_shifted _ _ 48) by lia.
  rewrite (lor_shifted _ _ 56) by lia.
  lia.
Qed.

Lemma le_value_cons (b : byte) (bs : list byte) :
  le_value (b :: bs) / 256 = le_value bs /\ le_value (b :: bs) mod 256 = byte_val b.
Proof.
  cbn [le_value]. pose proof (byte_val_range b). Z.div_mod_to_equations. lia.
Qed.

Lemma le_value_byte (bs : list byte) (i : nat) (b : byte) :
  bs !! i = Some b -> (le_value bs / 256 ^ Z.of_nat i) mod 256 = byte_val b.
Proof.
  revert bs. induction i as [|i IH]; intros [|c bs] Hb; try discriminate.
  - cbn in Hb. injection Hb as ->. change (256 ^ Z.of_nat 0) with 1.
    rewrite Z.div_1_r. apply le_value_cons.
  - cbn in Hb. rewrite Nat2Z.inj_succ, Z.pow_succ_r by lia.
    rewrite <- Z.div_div by lia.
    rewrite (proj1 (le_value_cons c bs)). now apply IH.
Qed.

(** X1.  The word the decoder works on, [__bswap_64] of the host-order
    load of eight bytes, is the big-endian value of those bytes: the
    first byte of the stream is the most significant. *)
Theorem bswap_64_le_value (bs : list byte) :
  length bs = 8%nat -> bswap_64 (le_value bs) = be_value bs.
Proof.
  intros Hlen.
  destruct bs as [|c0 [|c1 [|c2 [|c3 [|c4 [|c5 [|c6 [|c7 [|]]]]]]]]];
    try discriminate.
  rewrite bswap_64_bytes.
  set (bs := [c0; c1; c2; c3; c4; c5; c6; c7]).
  pose proof (le_value_byte bs 0 c0 eq_refl) as H0.
  pose proof (le_value_byte bs 1 c1 eq_refl) as H1.
  pose proof (le_value_byte bs 2 c2 eq_refl) as H2.
  pose proof (le_value_byte bs 3 c3 eq_refl) as H3.
  pose proof (le_value_byte bs 4 c4 eq_refl) as H4.
  pose proof (le_value_byte bs 5 c5 eq_refl) as H5.
  pose proof (le_value_byte bs 6 c6 eq_refl) as H6.
  pose proof (le_value_byte bs 7 c7 eq_refl) as H7.
  change (256 ^ Z.of_nat 0) with 1 in H0. rewrite Z.div_1_r in H0.
  change (256 ^ Z.of_nat 1) with (2 ^ 8) in H1.
  change (256 ^ Z.of_nat 2) with (2 ^ 16) in H2.
  change (256 ^ Z.of_nat 3) with (2 ^ 24) in H3.
  change (256 ^ Z.of_nat 4) with (2 ^ 32) in H4.
  change (256 ^ Z.of_nat 5) with (2 ^ 40) in H5.
  change (256 ^ Z.of_nat 6) with (2 ^ 48) in H6.
  change (256 ^ Z.of_nat 7) with (2 ^ 56) in H7.
  rewrite H0, H1, H2, H3, H4, H5, H6, H7.
  unfold bs, be_value. cbn [foldl]. lia.
Qed.

Lemma bswap_64_le_value_witness :
  bswap_64 (le_value [x01; x02; x03; x04; x05; x06; x07; x08])
  = be_value [x01; x02; x03; x04; x05; x06; x07; x08].
Proof. apply bswap_64_le_value. reflexivity. Defined.

Lemma hdr_start_low_byte (v : Z) :
  hdr_start (as_hdrpacket (bswap_64 v)) = v mod 256.
Proof.
  cbn [hdr_start as_hdrpacket]. rewrite ufield_div_mod by lia.
  rewrite bswap_64_bytes.
  pose proof (Z.mod_pos_bound v 256 ltac:(lia)).
  pose proof (Z.mod_pos_bound (v / 2 ^ 8) 256 ltac:(lia)).
  pose proof (Z.mod_pos_bound (v / 2 ^ 16) 256 ltac:(lia)).
  pose proof (Z.mod_pos_bound (v / 2 ^ 24) 256 ltac:(lia)).
  pose proof (Z.mod_pos_bound (v / 2 ^ 32) 256 ltac:(lia)).
  pose proof (Z.mod_pos_bound (v / 2 ^ 40) 256 ltac:(lia)).
  pose proof (Z.mod_pos_bound (v / 2 ^ 48) 256 ltac:(lia)).
  pose proof (Z.mod_pos_bound (v / 2 ^ 56) 256 ltac:(lia)).
  set (r := (v / 2 ^ 8) mod 256 * 2 ^ 48 + (v / 2 ^ 16) mod 256 * 2 ^ 40
            + (v / 2 ^ 24) mod 256 * 2 ^ 32 + (v / 2 ^ 32) mod 256 * 2 ^ 24
            + (v / 2 ^ 40) mod 256 * 2 ^ 16 + (v / 2 ^ 48) mod 256 * 2 ^ 8
            + (v / 2 ^ 56) mod 256).
  assert (Hr : 0 <= r < 2 ^ 56) by (unfold r; lia).
  replace (v mod 256 * 2 ^ 56 + (v / 2 ^ 8) mod 256 * 2 ^ 48
           + (v / 2 ^ 16) mod 256 * 2 ^ 40 + (v / 2 ^ 24) mod 256 * 2 ^ 32
           + (v / 2 ^ 32) mod 256 * 2 ^ 24 + (v / 2 ^ 40) mod 256 * 2 ^ 16
           + (v / 2 ^ 48) mod 256 * 2 ^ 8 + (v / 2 ^ 56) mod 256)
    with (r + v mod 256 * 2 ^ 56) by (unfold r; lia).
  rewrite Z.div_add by lia. rewrite Z.div_small by exact Hr.
  apply Z.mod_small. lia.
Qed.

Lemma byte_val_xff (b : byte) : byte_val b = 255 <-> b = xff.
Proof.
  split; [|intros ->; reflexivity].
  unfold byte_val. intros H.
  pose proof (Byte.of_to_N b) as E.
  replace (Byte.to_N b) with 255%N in E by lia.
  cbn in E. congruence.
Qed.

(** the [start] field of a word loaded from a buffer is the first of its
    eight bytes *)
Lemma hdr_start_first_byte (mem : list byte) (off swp : Z) (b : byte) :
  load64 mem off = Some swp -> mem !! Z.to_nat off = Some b ->
  hdr_start (as_hdrpacket (bswap_64 swp)) = byte_val b.
Proof.
  unfold load64. case_bool_decide as Hr; [|discriminate]. intros [= <-] Hb.
  rewrite hdr_start_low_byte.
  assert (Hdrop : drop (Z.to_nat off) mem = b :: drop (S (Z.to_nat off)) mem)
    by (now apply drop_S).
  rewrite Hdrop. cbn [take].
  apply (proj2 (le_value_cons b _)).
Qed.

Lemma load64_first_byte (mem : list byte) (off swp : Z) :
  load64 mem off = Some swp -> is_Some (mem !! Z.to_nat off).
Proof.
  unfold load64. case_bool_decide as Hr; [|discriminate]. intros _.
  apply lookup_lt_is_Some_2. lia.
Qed.

(** X2.  A word of a buffer is taken for a header exactly when the first
    of its eight bytes is 0xFF; the seven bytes after it play no part. *)
Theorem is_header_first_byte (mem : list byte) (off swp : Z) :
  load64 mem off = Some swp ->
  is_header swp = true <-> mem !! Z.to_nat off = Some xff.
Proof.
  intros Hload. destruct (load64_first_byte mem off swp Hload) as [b Hb].
  unfold is_header.
  rewrite bool_decide_eq_true, (hdr_start_first_byte mem off swp b Hload Hb), Hb.
  rewrite byte_val_xff. split; congruence.
Qed.

Lemma is_header_first_byte_witness :
  is_header (le_value (take 8 last_packet_only)) = true
  <-> last_packet_only !! Z.to_nat 0 = Some xff.
Proof. apply (is_header_first_byte last_packet_only 0). reflexivity. Defined.

Lemma ufield_range (w lo width : Z) :
  0 <= lo -> 0 <= width -> 0 <= ufield w lo width < 2 ^ width.
Proof.
  intros Hlo Hw. rewrite ufield_div_mod by assumption.
  apply Z.mod_pos_bound. lia.
Qed.

Lemma sfield_cases (w lo width : Z) :
  0 <= lo -> 0 < width ->
  (ufield w lo width < 2 ^ (width - 1) /\ sfield w lo width = ufield w lo width)
  \/ (2 ^ (width - 1) <= ufield w lo width
      /\ sfield w lo width = ufield w lo width - 2 ^ width).
Proof.
  intros Hlo Hw. unfold sfield.
  pose proof (ufield_range w lo width Hlo ltac:(lia)) as Hu.
  set (u := ufield w lo width) in *.
  assert (E : 2 ^ width = 2 * 2 ^ (width - 1)).
  { replace width with (1 + (width - 1)) at 1 by lia.
    rewrite Z.pow_add_r by lia. reflexivity. }
  assert (Hp : 0 < 2 ^ (width - 1)) by (apply Z.pow_pos_nonneg; lia).
  destruct (Z.testbit u (width - 1)) eqn:Hbit.
  - right. split; [|reflexivity].
    apply Z.testbit_true in Hbit; [|lia].
    destruct (Z.lt_ge_cases u (2 ^ (width - 1))) as [Hlt|Hge]; [|exact Hge].
    rewrite Z.div_small in Hbit by lia. discriminate.
  - left. split; [|reflexivity].
    apply Z.testbit_false in Hbit; [|lia].
    destruct (Z.lt_ge_cases u (2 ^ (width - 1))) as [Hlt|Hge]; [exact Hlt|].
    replace (u / 2 ^ (width - 1)) with 1 in Hbit; [discriminate|].
    apply (Z.div_unique u (2 ^ (width - 1)) 1 (u - 2 ^ (width - 1))); lia.
Qed.

(** X3.  Whatever the word, the decoded fields lie in the ranges of
    their bit-fields: a header timestamp below [2^36], frame below 4096,
    board and marker below 256; a data word's coordinates below 1024, its
    timestamp below 512, its wavelength and baseline in the signed ranges
    of 18 and 17 bits. *)
Theorem decoded_fields_in_range (w : Z) :
  (0 <= hdr_timestamp (as_hdrpacket w) < 2 ^ 36
   /\ 0 <= hdr_frame (as_hdrpacket w) < 4096
   /\ 0 <= hdr_roach (as_hdrpacket w) < 256
   /\ 0 <= hdr_start (as_hdrpacket w) < 256)
  /\ (0 <= data_xcoord (as_datapacket w) < 1024
      /\ 0 <= data_ycoord (as_datapacket w) < 1024
      /\ 0 <= data_timestamp (as_datapacket w) < 512
      /\ - 2 ^ 17 <= data_wvl (as_datapacket w) < 2 ^ 17
      /\ - 2 ^ 16 <= data_baseline (as_datapacket w) < 2 ^ 16).
Proof.
  cbn [as_hdrpacket as_datapacket hdr_timestamp hdr_frame hdr_roach hdr_start
       data_xcoord data_ycoord data_timestamp data_wvl data_baseline].
  pose proof (ufield_range w 0 36 ltac:(lia) ltac:(lia)).
  pose proof (ufield_range w 36 12 ltac:(lia) ltac:(lia)).
  pose proof (ufield_range w 48 8 ltac:(lia) ltac:(lia)).
  pose proof (ufield_range w 56 8 ltac:(lia) ltac:(lia)).
  pose proof (ufield_range w 54 10 ltac:(lia) ltac:(lia)).
  pose proof (ufield_range w 44 10 ltac:(lia) ltac:(lia)).
  pose proof (ufield_range w 35 9 ltac:(lia) ltac:(lia)).
  pose proof (ufield_range w 17 18 ltac:(lia) ltac:(lia)).
  pose proof (ufield_range w 0 17 ltac:(lia) ltac:(lia)).
  pose proof (sfield_cases w 17 18 ltac:(lia) ltac:(lia)) as Hwvl.
  pose proof (sfield_cases w 0 17 ltac:(lia) ltac:(lia)) as Hbl.
  change (18 - 1) with 17 in Hwvl. change (17 - 1) with 16 in Hbl.
  repeat split; lia.
Qed.

(** X4.  The four fields of a header, and the five of a data word, cover
    the 64 bits without gap or overlap: a word below [2^64] is the sum of
    its fields at their positions (the signed fields taken modulo their
    width), so no bit of a packet word is lost in decoding. *)
Theorem fields_recompose_word (w : Z) :
  0 <= w < 2 ^ 64 ->
  w = hdr_timestamp (as_hdrpacket w) + hdr_frame (as_hdrpacket w) * 2 ^ 36
      + hdr_roach (as_hdrpacket w) * 2 ^ 48 + hdr_start (as_hdrpacket w) * 2 ^ 56
  /\ w = data_baseline (as_datapacket w) mod 2 ^ 17
         + (data_wvl (as_datapacket w) mod 2 ^ 18) * 2 ^ 17
         + data_timestamp (as_datapacket w) * 2 ^ 35
         + data_ycoord (as_datapacket w) * 2 ^ 44
         + data_xcoord (as_datapacket w) * 2 ^ 54.
Proof.
  intros Hw.
  cbn [as_hdrpacket as_datapacket hdr_timestamp hdr_frame hdr_roach hdr_start
       data_xcoord data_ycoord data_timestamp data_wvl data_baseline].
  assert (Hwvl : sfield w 17 18 mod 2 ^ 18 = ufield w 17 18).
  { pose proof (ufield_range w 17 18 ltac:(lia) ltac:(lia)).
    destruct (sfield_cases w 17 18 ltac:(lia) ltac:(lia)) as [[_ ->]|[_ ->]].
    - now apply Z.mod_small.
    - replace (ufield w 17 18 - 2 ^ 18) with (ufield w 17 18 + (-1) * 2 ^ 18) by lia.
      rewrite Z.mod_add by lia. now apply Z.mod_small. }
  assert (Hbl : sfield w 0 17 mod 2 ^ 17 = ufield w 0 17).
  { pose proof (ufield_range w 0 17 ltac:(lia) ltac:(lia)).
    destruct (sfield_cases w 0 17 ltac:(lia) ltac:(lia)) as [[_ ->]|[_ ->]].
    - now apply Z.mod_small.
    - replace (ufield w 0 17 - 2 ^ 17) with (ufield w 0 17 + (-1) * 2 ^ 17) by lia.
      rewrite Z.mod_add by lia. now apply Z.mod_small. }
  rewrite Hwvl, Hbl. rewrite !ufield_div_mod by lia.
  change (2 ^ 0) with 1. rewrite !Z.div_1_r.
  split; Z.div_mod_to_equations; lia.
Qed.

Lemma fields_recompose_word_witness :
  hdr_word 200005 3 9
  = hdr_timestamp (as_hdrpacket (hdr_word 200005 3 9))
    + hdr_frame (as_hdrpacket (hdr_word 200005 3 9)) * 2 ^ 36
    + hdr_roach (as_hdrpacket (hdr_word 200005 3 9)) * 2 ^ 48
    + hdr_start (as_hdrpacket (hdr_word 200005 3 9)) * 2 ^ 56.
Proof.
  apply (fields_recompose_word (hdr_word 200005 3 9)). zclosed.
Defined.

(** ** Timestamp corrector: one correction is enough *)

(** X5.  For a numerator [f - e - t/2000 + 3] between minus one period
    and two periods, and a timestamp that stays in its 36-bit field, the
    corrected timestamp is less than one period away from the file's
    second (plus the 3 seconds of margin), and correcting the corrected
    header again changes nothing. *)
Theorem FixOverflowTimestamps_settles (hdr : hdrpacket) (f e : Z) :
  0 <= hdr_timestamp hdr ->
  hdr_timestamp hdr + 2000 * 1048576 < 2 ^ 36 ->
  - 1048576 < f - e - hdr_timestamp hdr / 2000 + 3 < 2 * 1048576 ->
  let hdr' := FixOverflowTimestamps hdr f e in
  - 1048576 < f - e - hdr_timestamp hdr' / 2000 + 3 < 1048576
  /\ FixOverflowTimestamps hdr' f e = hdr'.
Proof.
  intros Ht Hfield Hnum hdr'.
  set (num := f - e - hdr_timestamp hdr / 2000 + 3) in *.
  assert (Hr : int_range num) by (unfold int_range; lia).
  pose proof (nWraps_quot hdr f e Hr) as En. fold num in En.
  assert (Hn : (nWraps hdr f e = 0 /\ num < 1048576)
               \/ (nWraps hdr f e = 1 /\ 1048576 <= num)).
  { destruct (Z.lt_ge_cases num 0) as [Hneg|Hpos].
    - left. split; [|lia]. rewrite En.
      replace num with (- (- num)) by lia.
      rewrite Z.quot_opp_l by lia. rewrite Z.quot_small by lia. reflexivity.
    - rewrite En, Z.quot_div_nonneg by lia.
      destruct (Z.lt_ge_cases num 1048576) as [Hlt|Hge].
      + left. split; [|lia]. apply Z.div_small. lia.
      + right. split; [|lia]. symmetry.
        apply (Z.div_unique num 1048576 1 (num - 1048576)); lia. }
  assert (Ets : hdr_timestamp hdr'
                = hdr_timestamp hdr + 2000 * nWraps hdr f e * 1048576).
  { unfold hdr'. rewrite FixOverflowTimestamps_small_wraps by lia.
    apply Z.mod_small. lia. }
  assert (Ediv : hdr_timestamp hdr' / 2000
                 = hdr_timestamp hdr / 2000 + nWraps hdr f e * 1048576).
  { rewrite Ets.
    replace (hdr_timestamp hdr + 2000 * nWraps hdr f e * 1048576)
      with (hdr_timestamp hdr + nWraps hdr f e * 1048576 * 2000) by lia.
    apply Z.div_add. lia. }
  assert (Hclose : - 1048576 < f - e - hdr_timestamp hdr' / 2000 + 3 < 1048576).
  { rewrite Ediv. unfold num in *. lia. }
  split; [exact Hclose|].
  assert (Hr' : int_range (f - e - hdr_timestamp hdr' / 2000 + 3))
    by (unfold int_range; lia).
  assert (En' : nWraps hdr' f e = 0).
  { rewrite (nWraps_quot hdr' f e Hr').
    destruct (Z.lt_ge_cases (f - e - hdr_timestamp hdr' / 2000 + 3) 0) as [Hneg|Hpos].
    - replace (f - e - hdr_timestamp hdr' / 2000 + 3)
        with (- (- (f - e - hdr_timestamp hdr' / 2000 + 3))) by lia.
      rewrite Z.quot_opp_l by lia. rewrite Z.quot_small by lia. reflexivity.
    - apply Z.quot_small. lia. }
  assert (E2 : hdr_timestamp (FixOverflowTimestamps hdr' f e) = hdr_timestamp hdr').
  { rewrite FixOverflowTimestamps_small_wraps by lia.
    rewrite En'. rewrite Z.mul_0_r, Z.mul_0_l, Z.add_0_r.
    apply Z.mod_small. lia. }
  unfold FixOverflowTimestamps in E2 |- *. cbn [hdr_timestamp set_hdr_timestamp] in E2.
  rewrite E2. unfold hdr', FixOverflowTimestamps, set_hdr_timestamp.
  reflexivity.
Qed.

Lemma FixOverflowTimestamps_settles_witness :
  - 1048576
    < 1514764800 + 2048581 - 1514764800
      - hdr_timestamp (FixOverflowTimestamps (header_at (2000 * 1000005))
                         (1514764800 + 2048581) 1514764800) / 2000 + 3
    < 1048576
  /\ FixOverflowTimestamps
       (FixOverflowTimestamps (header_at (2000 * 1000005))
          (1514764800 + 2048581) 1514764800)
       (1514764800 + 2048581) 1514764800
     = FixOverflowTimestamps (header_at (2000 * 1000005))
         (1514764800 + 2048581) 1514764800.
Proof.
  apply (FixOverflowTimestamps_settles (header_at (2000 * 1000005))
           (1514764800 + 2048581) 1514764800); zclosed.
Defined.

(** ** Table sorter: ties keep their order *)

Lemma at_time_later (v : Z) (x : photon) (m : list photon) :
  timestamp x = v ->
  Forall (fun q => timestamp x < timestamp q) m -> at_time v m = [].
Proof.
  intros Hx Hm. unfold at_time.
  induction Hm as [|q m Hq _ IH]; [reflexivity|].
  rewrite filter_cons_False by lia. exact IH.
Qed.

(** one round of the loop over [photonToSortAddr] *)
Lemma place_round (pre : list photon) (x : photon) (rest : list photon) :
  pre <> [] -> StronglySorted ts_le pre ->
  exists m1 m2,
    pre = m1 ++ m2
    /\ place (pre ++ x :: rest) (length pre) (length pre - 1)
       = (m1 ++ x :: m2) ++ rest
    /\ StronglySorted ts_le (m1 ++ x :: m2)
    /\ Forall (fun q => timestamp x < timestamp q) m2.
Proof.
  intros Hne Hs.
  destruct pre as [|c l1 _] using rev_ind; [congruence|].
  destruct (place_app l1 c [] x rest ltac:(constructor))
    as (m1 & m2 & Hsplit & Hplace & Hm2 & Hm1 & _).
  cbn [app length] in Hplace. rewrite app_nil_r in Hsplit.
  exists m1, m2. split; [exact Hsplit|]. split.
  { replace (length (l1 ++ [c]) - 1)%nat with (length l1)
      by (rewrite length_app; cbn; lia).
    replace (length (l1 ++ [c])) with (length l1 + 1 + 0)%nat
      by (rewrite length_app; cbn; lia).
    rewrite Hplace, <- app_assoc. reflexivity. }
  split; [|exact Hm2].
  rewrite Hsplit in Hs. apply StronglySorted_app in Hs as (H12 & Hs1 & Hs2).
  apply StronglySorted_app_2.
  - intros x1 x2 H1 H2. apply elem_of_cons in H2 as [->|H2].
    + destruct (last m1) as [q|] eqn:El.
      * pose proof (sorted_le_last m1 x1 q Hs1 El H1) as Hle.
        specialize (Hm1 q eq_refl). unfold ts_le in *. lia.
      * apply last_None in El. subst m1. set_solver.
    + apply H12; assumption.
  - exact Hs1.
  - constructor; [exact Hs2|].
    eapply Forall_impl; [exact Hm2|]. intros q Hq. cbn beta in Hq.
    unfold ts_le. lia.
Qed.

Lemma sort_from_at_time (v : Z) (rest pre : list photon) :
  pre <> [] -> StronglySorted ts_le pre ->
  at_time v (sort_from (pre ++ rest) (length pre) (length rest))
  = at_time v (pre ++ rest).
Proof.
  revert pre. induction rest as [|x rest' IH]; intros pre Hne Hs.
  - reflexivity.
  - cbn [sort_from length].
    destruct (place_round pre x rest' Hne Hs) as (m1 & m2 & Hsplit & Hplace & Hs' & Hm2).
    rewrite Hplace.
    replace (S (length pre)) with (length (m1 ++ x :: m2)).
    2:{ rewrite Hsplit, !length_app. cbn [length]. lia. }
    rewrite IH; [|destruct m1; discriminate|exact Hs'].
    rewrite Hsplit. unfold at_time.
    rewrite <- !app_assoc. cbn [app].
    rewrite (filter_app _ m1), (filter_app _ m1), (filter_app _ m2). f_equal.
    destruct (decide (timestamp x = v)) as [Hx|Hx].
    + pose proof (at_time_later v x m2 Hx Hm2) as Hnone. unfold at_time in Hnone.
      rewrite !filter_cons_True by exact Hx.
      rewrite filter_app, Hnone. reflexivity.
    + rewrite !filter_cons_False by exact Hx.
      rewrite filter_app. reflexivity.
Qed.

(** the three loops keep the order of the photons of one timestamp *)
Lemma sort_photons_stable (v : Z) (a : list photon) :
  at_time v (sort_photons a) = at_time v a.
Proof.
  destruct a as [|p rest]; [reflexivity|].
  rewrite sort_photons_cons.
  apply (sort_from_at_time v rest [p]); [discriminate|].
  constructor; constructor.
Qed.

Lemma sort_pixel_kernel (t t' : tables) (xy : Z * Z) :
  sort_pixel t xy = Ok t' ->
  ptablect t' = ptablect t
  /\ (forall xy', xy' <> xy -> buffer_at t' xy' = buffer_at t xy')
  /\ forall n buf ps,
       count_at t xy = Some n -> buffer_at t xy = Some buf ->
       take (Z.to_nat n) buf = Some <$> ps ->
       buffer_at t' xy = Some ((Some <$> sort_photons ps) ++ drop (Z.to_nat n) buf).
Proof.
  destruct xy as [x y]. unfold sort_pixel. intros H.
  apply bind_Ok in H as (n & Hn & H). apply grid_read_Ok in Hn as [_ Hn].
  case_bool_decide as Hle.
  - injection H as <-. split; [reflexivity|]. split; [reflexivity|].
    intros n' buf ps Hn' Hbuf Htake.
    unfold count_at in Hn'. rewrite Hn in Hn'. injection Hn' as <-.
    assert (Hshort : (length ps <= 1)%nat).
    { apply (f_equal length) in Htake.
      rewrite length_take, length_fmap in Htake. lia. }
    assert (Esort : sort_photons ps = ps)
      by (destruct ps as [|p [|q ps]]; [reflexivity|reflexivity|cbn in Hshort; lia]).
    rewrite Esort, <- Htake, take_drop. exact Hbuf.
  - apply bind_Ok in H as (buf & Hbuf & H). apply grid_read_Ok in Hbuf as [_ Hbuf].
    case_bool_decide as Hlen; [discriminate|].
    destruct (all_written (take (Z.to_nat n) buf)) as [ps|] eqn:Hall; [|discriminate].
    apply all_written_Some in Hall.
    apply bind_Ok in H as (pt & Hpt & H). apply grid_write_Ok in Hpt as [_ ->].
    injection H as <-. split; [reflexivity|]. split.
    { intros xy' Hne. unfold buffer_at. cbn [ptable]. now apply cells_set_ne. }
    intros n' buf' ps' Hn' Hbuf' Htake'.
    unfold count_at, buffer_at in *. rewrite Hn in Hn'. injection Hn' as <-.
    rewrite Hbuf in Hbuf'. injection Hbuf' as <-.
    rewrite Hall in Htake'. apply fmap_Some_inj in Htake' as <-.
    cbn [ptable]. apply cells_set_eq.
Qed.

Lemma for_each_sort_pixel_kernel (l : list (Z * Z)) (t t' : tables) :
  for_each sort_pixel t l = Ok t' -> NoDup l ->
  ptablect t' = ptablect t
  /\ (forall xy, xy ∉ l -> buffer_at t' xy = buffer_at t xy)
  /\ forall xy n buf ps,
       xy ∈ l -> count_at t xy = Some n -> buffer_at t xy = Some buf ->
       take (Z.to_nat n) buf = Some <$> ps ->
       buffer_at t' xy = Some ((Some <$> sort_photons ps) ++ drop (Z.to_nat n) buf).
Proof.
  revert t. induction l as [|a l IH]; intros t Hrun Hnd; cbn [for_each] in Hrun.
  - injection Hrun as <-. split; [reflexivity|]. split; [reflexivity|].
    intros xy n buf ps Hin. inversion Hin.
  - apply bind_Ok in Hrun as (t1 & H1 & Hrun).
    apply NoDup_cons in Hnd as [Hnotin Hnd].
    destruct (sort_pixel_kernel t t1 a H1) as (Hc1 & Hother1 & Hk1).
    destruct (IH t1 Hrun Hnd) as (Hc & Hother & Hk).
    split; [congruence|]. split.
    { intros xy Hxy. apply not_elem_of_cons in Hxy as [Hne Hxy].
      rewrite Hother by exact Hxy. now apply Hother1. }
    intros xy n buf ps Hxy Hn Hbuf Htake.
    apply elem_of_cons in Hxy as [->|Hxy].
    + rewrite Hother by exact Hnotin. now apply (Hk1 n buf ps).
    + assert (xy <> a) by (intros ->; contradiction).
      apply (Hk xy n buf ps Hxy).
      * unfold count_at in *. now rewrite Hc1.
      * rewrite Hother1 by assumption. exact Hbuf.
      * exact Htake.
Qed.

(** X6.  [SortPhotonTables] is stable.  When it returns, the photons
    [ps] a pixel of the map held below its count are replaced by a list
    in which, for every timestamp, the photons carrying it are those of
    [ps] in the order they had in [ps]; the list is what the three loops
    make of [ps], and the cells from the count on are not touched. *)
Theorem SortPhotonTables_stable (t t' : tables) (cols rows x y n : Z)
    (buf : list (option photon)) (ps : list photon) :
  SortPhotonTables t cols rows = Ok t' ->
  0 <= x < cols -> 0 <= y < rows ->
  count_at t (x, y) = Some n ->
  buffer_at t (x, y) = Some buf ->
  take (Z.to_nat n) buf = Some <$> ps ->
  buffer_at t' (x, y) = Some ((Some <$> sort_photons ps) ++ drop (Z.to_nat n) buf)
  /\ forall v, at_time v (sort_photons ps) = at_time v ps.
Proof.
  intros Hrun Hx Hy Hn Hbuf Htake. unfold SortPhotonTables in Hrun.
  destruct (for_each_sort_pixel_kernel _ t t' Hrun (NoDup_grid_indices cols rows))
    as (_ & _ & Hk).
  split.
  - apply (Hk (x, y) n buf ps); try assumption.
    apply elem_of_grid_indices. auto.
  - intros v. apply sort_photons_stable.
Qed.

Lemma SortPhotonTables_stable_witness :
  exists t',
    SortPhotonTables tied_tables 1 1 = Ok t'
    /\ buffer_at t' (0, 0)
       = Some [Some {| resID := 1; timestamp := 10; wvl := F_scaled 0;
                       wSpec := F_one; wNoise := F_one |};
               Some {| resID := 2; timestamp := 10; wvl := F_scaled 0;
                       wSpec := F_one; wNoise := F_one |};
               Some (sample_photon 30); None].
Proof.
  destruct (SortPhotonTables tied_tables 1 1) as [t'|f] eqn:Hrun;
    [|vm_compute in Hrun; discriminate].
  exists t'. split; [reflexivity|].
  destruct (SortPhotonTables_stable tied_tables t' 1 1 0 0 3
              [Some (sample_photon 30);
               Some {| resID := 1; timestamp := 10; wvl := F_scaled 0;
                       wSpec := F_one; wNoise := F_one |};
               Some {| resID := 2; timestamp := 10; wvl := F_scaled 0;
                       wSpec := F_one; wNoise := F_one |};
               None]
              [sample_photon 30;
               {| resID := 1; timestamp := 10; wvl := F_scaled 0;
                  wSpec := F_one; wNoise := F_one |};
               {| resID := 2; timestamp := 10; wvl := F_scaled 0;
                  wSpec := F_one; wNoise := F_one |}]
              Hrun) as [Hbuf _]; try reflexivity; try lia.
  rewrite Hbuf. reflexivity.
Defined.

(** ** Beam map: initialisation and load *)

Lemma grid_write_Ok_2 {A} (o : cobj) (g : grid A) (x y : Z) (v : A) :
  in_grid g x y = true -> grid_write o g x y v = Ok (grid_set g x y v).
Proof. intros H. unfold grid_write. now rewrite H. Qed.

Lemma for_each_grid_write_total (o : cobj) (v : Z) (l : list (Z * Z)) (g : grid Z) :
  (forall xy, xy ∈ l -> in_grid g xy.1 xy.2 = true) ->
  exists g', for_each (fun g '(x, y) => grid_write o g x y v) g l = Ok g'.
Proof.
  revert g. induction l as [|[x y] l IH]; intros g Hin; cbn [for_each].
  - eauto.
  - cbv beta iota.
    pose proof (Hin (x, y) ltac:(apply elem_of_cons; left; reflexivity)) as Hxy0.
    cbn [fst snd] in Hxy0. rewrite (grid_write_Ok_2 o g x y v Hxy0).
    cbn [mbind res_bind]. apply IH.
    intros xy Hxy. rewrite in_grid_set. apply Hin.
    apply elem_of_cons. right. exact Hxy.
Qed.

(** X7.  [InitializeBeamMap], asked for no more columns and rows than
    the array has, returns; afterwards every cell of the rectangle holds
    the value, whatever it held before, and every other cell and the
    extent of the array are as they were. *)
Theorem InitializeBeamMap_fills (g : grid Z) (v cols rows : Z) :
  cols <= g_cols g -> rows <= g_rows g ->
  exists g',
    InitializeBeamMap g v cols rows = Ok g'
    /\ g_cols g' = g_cols g /\ g_rows g' = g_rows g
    /\ forall x y,
         g_cells g' !! (x, y)
         = if bool_decide (0 <= x < cols /\ 0 <= y < rows)
           then Some v else g_cells g !! (x, y).
Proof.
  intros Hc Hr. unfold InitializeBeamMap.
  destruct (for_each_grid_write_total BeamMapArr v (grid_indices cols rows) g)
    as [g' Hrun].
  { intros [x y] Hxy. apply elem_of_grid_indices in Hxy. cbn [fst snd].
    apply in_grid_spec. lia. }
  exists g'. split; [exact Hrun|].
  apply for_each_grid_write in Hrun as (Hcols & Hrows & Hcells).
  split; [exact Hcols|]. split; [exact Hrows|].
  intros x y. destruct (Hcells (x, y)) as [Hin Hout].
  case_bool_decide as Hrect.
  - apply Hin. apply elem_of_grid_indices. exact Hrect.
  - apply Hout. rewrite elem_of_grid_indices. exact Hrect.
Qed.

Lemma InitializeBeamMap_fills_witness :
  exists g',
    InitializeBeamMap (BeamFlag blank_beam_state) 5 2 1 = Ok g'
    /\ g_cells g' !! (1, 0) = Some 5.
Proof.
  destruct (InitializeBeamMap_fills (BeamFlag blank_beam_state) 5 2 1)
    as (g' & Hrun & _ & _ & Hcells); [zclosed|zclosed|].
  exists g'. split; [exact Hrun|]. rewrite Hcells. reflexivity.
Defined.

(** a round of the [do] loop that converts a full line *)
Lemma scan_line_step (s : beam_state) (line : Z * Z * Z * Z) :
  in_grid (BeamMap s) (line_pixel line).1 (line_pixel line).2 = true ->
  in_grid (BeamFlag s) (line_pixel line).1 (line_pixel line).2 = true ->
  0 <= count s < Z.of_nat (length (DiskBeamMap s)) ->
  scan_line s line
  = Ok {| BeamMap := grid_set (BeamMap s) (line_pixel line).1 (line_pixel line).2
                       (stored_resid line);
          BeamFlag := grid_set (BeamFlag s) (line_pixel line).1 (line_pixel line).2
                        (stored_flag line);
          DiskBeamMap := <[Z.to_nat (count s) := line]> (DiskBeamMap s);
          count := count s + 1 |}.
Proof.
  destruct line as [[[resid flag] x] y]. cbn [line_pixel fst snd].
  intros Hbm Hbf Hct. unfold scan_line, store_beam.
  rewrite bool_decide_true by exact Hct.
  cbn [local v_resid v_flag v_x v_y mbind res_bind BeamMap BeamFlag].
  rewrite (grid_write_Ok_2 BeamMapArr _ x y _ Hbm). cbn [mbind res_bind].
  rewrite (grid_write_Ok_2 BeamFlagArr _ x y _ Hbf). reflexivity.
Qed.

Lemma scan_lines_load (lines : list (Z * Z * Z * Z)) (s : beam_state)
    (cols rows : Z) :
  beam_extent cols rows s ->
  Forall (in_map cols rows) lines ->
  0 <= count s ->
  count s + Z.of_nat (length lines) <= Z.of_nat (length (DiskBeamMap s)) ->
  exists s',
    for_each scan_line s lines = Ok s'
    /\ beam_extent cols rows s'
    /\ count s' = count s + Z.of_nat (length lines)
    /\ DiskBeamMap s'
       = take (Z.to_nat (count s)) (DiskBeamMap s) ++ lines
         ++ drop (Z.to_nat (count s) + length lines) (DiskBeamMap s)
    /\ forall xy,
         g_cells (BeamMap s') !! xy
         = match last_line_for lines xy with
           | Some line => Some (stored_resid line)
           | None => g_cells (BeamMap s) !! xy
           end
         /\ g_cells (BeamFlag s') !! xy
            = match last_line_for lines xy with
              | Some line => Some (stored_flag line)
              | None => g_cells (BeamFlag s) !! xy
              end.
Proof.
  revert s. induction lines as [|line lines IH]; intros s Hext Hin Hc Hroom.
  - exists s. cbn [for_each length]. split; [reflexivity|]. split; [exact Hext|].
    split; [lia|]. split.
    { cbn [app]. rewrite Nat.add_0_r, take_drop. reflexivity. }
    intros xy. split; reflexivity.
  - apply Forall_cons in Hin as [[Hx Hy] Hin]. cbn [length] in Hroom.
    destruct Hext as (Hc1 & Hr1 & Hc2 & Hr2).
    cbn [for_each].
    rewrite (scan_line_step s line);
      [|apply in_grid_spec; lia|apply in_grid_spec; lia|lia].
    cbn [mbind res_bind].
    destruct (IH {| BeamMap := grid_set (BeamMap s) (line_pixel line).1
                                 (line_pixel line).2 (stored_resid line);
                    BeamFlag := grid_set (BeamFlag s) (line_pixel line).1
                                  (line_pixel line).2 (stored_flag line);
                    DiskBeamMap := <[Z.to_nat (count s) := line]> (DiskBeamMap s);
                    count := count s + 1 |})
      as (s' & Hrun & Hext' & Hcount & Hdisk & Hcells).
    { repeat split; assumption. }
    { exact Hin. }
    { cbn [count]. lia. }
    { cbn [count DiskBeamMap]. rewrite length_insert. lia. }
    cbn [count DiskBeamMap BeamMap BeamFlag] in Hcount, Hdisk, Hcells.
    exists s'. split; [exact Hrun|].
    split; [exact Hext'|]. split; [cbn [length]; lia|]. split.
    { rewrite Hdisk.
      replace (Z.to_nat (count s + 1)) with (S (Z.to_nat (count s))) by lia.
      rewrite (take_S_r _ _ line) by (apply list_lookup_insert_eq; lia).
      rewrite take_insert_ge by lia.
      rewrite drop_insert_lt by lia.
      rewrite <- app_assoc. cbn [app length].
      rewrite Nat.add_succ_r. reflexivity. }
    intros xy. destruct (Hcells xy) as [Hbm Hbf].
    rewrite last_line_for_cons, Hbm, Hbf.
    destruct (last_line_for lines xy) as [l|]; [split; reflexivity|].
    destruct (line_pixel line) as [x y] eqn:Epix. cbn [fst snd].
    destruct (decide ((x, y) = xy)) as [<-|Hne].
    + rewrite !cells_set_eq. split; reflexivity.
    + rewrite !cells_set_ne by congruence. split; reflexivity.
Qed.

(** X8.  A beam-map file of full lines only, at least one, each for a
    pixel of the map, and no more of them than [DiskBeamMap] has entries:
    [ParseBeamMapFile] returns, the count is the number of lines, the
    lines are the first entries of [DiskBeamMap] in file order, and a
    pixel named by a line holds the resid and the flag of the LAST line
    that names it (the resid cut to 32 bits, every flag above 1 stored as
    2); a pixel no line names is as it was. *)
Theorem ParseBeamMapFile_loads (f : beam_file) (s : beam_state) (cols rows : Z) :
  bf_partial f = [] ->
  bf_lines f <> [] ->
  beam_extent cols rows s ->
  count s = 0 ->
  Forall (in_map cols rows) (bf_lines f) ->
  (length (bf_lines f) <= length (DiskBeamMap s))%nat ->
  exists s',
    ParseBeamMapFile f s = Ok s'
    /\ count s' = Z.of_nat (length (bf_lines f))
    /\ DiskBeamMap s'
       = bf_lines f ++ drop (length (bf_lines f)) (DiskBeamMap s)
    /\ forall xy,
         g_cells (BeamMap s') !! xy
         = match last_line_for (bf_lines f) xy with
           | Some line => Some (stored_resid line)
           | None => g_cells (BeamMap s) !! xy
           end
         /\ g_cells (BeamFlag s') !! xy
            = match last_line_for (bf_lines f) xy with
              | Some line => Some (stored_flag line)
              | None => g_cells (BeamFlag s) !! xy
              end.
Proof.
  intros Hp Hne Hext Hc Hin Hroom.
  destruct (scan_lines_load (bf_lines f) s cols rows Hext Hin)
    as (s1 & Hrun & Hext1 & Hcount & Hdisk & Hcells); [lia|lia|].
  rewrite Hc in Hcount, Hdisk. cbn [Z.to_nat take app Nat.add] in Hdisk.
  destruct (last (bf_lines f)) as [[[[resid flag] x] y]|] eqn:Hlast;
    [|apply last_None in Hlast; contradiction].
  assert (Hxy : in_map cols rows (resid, flag, x, y)).
  { rewrite Forall_forall in Hin. apply Hin.
    apply last_Some in Hlast as [m ->]. apply elem_of_app. right.
    apply list_elem_of_singleton. reflexivity. }
  destruct Hxy as [Hx Hy]. cbn [line_pixel fst snd] in Hx, Hy.
  destruct Hext1 as (Hc1 & Hr1 & Hc2 & Hr2).
  unfold ParseBeamMapFile. rewrite Hrun. cbn [mbind res_bind].
  rewrite (vars_at_end_full f resid flag x y Hp Hlast).
  unfold store_beam.
  cbn [local v_resid v_flag v_x v_y mbind res_bind].
  rewrite (grid_write_Ok_2 BeamMapArr (BeamMap s1) x y)
    by (apply in_grid_spec; lia).
  cbn [mbind res_bind].
  rewrite (grid_write_Ok_2 BeamFlagArr (BeamFlag s1) x y)
    by (apply in_grid_spec; lia).
  eexists. split; [reflexivity|]. cbn [count DiskBeamMap BeamMap BeamFlag].
  split; [lia|]. split; [exact Hdisk|].
  intros xy. destruct (decide ((x, y) = xy)) as [<-|Hother].
  - rewrite !cells_set_eq.
    pose proof (last_line_for_last _ _ Hlast) as Hl.
    cbn [line_pixel] in Hl. rewrite Hl. split; reflexivity.
  - rewrite !cells_set_ne by congruence. apply Hcells.
Qed.

Lemma ParseBeamMapFile_loads_witness :
  exists s',
    ParseBeamMapFile sample_beam_file blank_beam_state = Ok s'
    /\ count s' = 2
    /\ g_cells (BeamMap s') !! (1, 0) = Some 9
    /\ g_cells (BeamFlag s') !! (1, 0) = Some 0
    /\ g_cells (BeamMap s') !! (0, 0) = Some beamMapInitVal.
Proof.
  destruct (ParseBeamMapFile_loads sample_beam_file blank_beam_state 2 1)
    as (s' & Hrun & Hcount & _ & Hcells).
  - reflexivity.
  - discriminate.
  - repeat split; reflexivity.
  - reflexivity.
  - repeat constructor; cbn; lia.
  - cbn. lia.
  - exists s'. split; [exact Hrun|]. split; [exact Hcount|].
    destruct (Hcells (1, 0)) as [H1 H2]. destruct (Hcells (0, 0)) as [H3 _].
    split; [exact H1|]. split; [exact H2|exact H3].
Defined.

(** X9.  A beam-map file in which no full line precedes the end: the
    stores after the failing call read locals that were never assigned,
    [y] always, and [resid], [flag] and [x] unless the failing call
    converted them. *)
Theorem ParseBeamMapFile_no_line (f : beam_file) (s : beam_state) :
  bf_lines f = [] ->
  ParseBeamMapFile f s = Fault (Uninitialised LocalVar).
Proof.
  intros Hl. unfold ParseBeamMapFile. rewrite Hl. cbn [for_each mbind res_bind].
  unfold store_beam, vars_at_end. rewrite Hl. cbn [last fmap option_fmap option_map].
  destruct (bf_partial f !! 0%nat); [|reflexivity].
  destruct (bf_partial f !! 1%nat); [|reflexivity].
  destruct (bf_partial f !! 2%nat); reflexivity.
Qed.

Lemma ParseBeamMapFile_no_line_witness :
  ParseBeamMapFile {| bf_lines := []; bf_partial := [5; 0] |} blank_beam_state
  = Fault (Uninitialised LocalVar).
Proof. apply ParseBeamMapFile_no_line. reflexivity. Defined.

Lemma for_each_Fault {S A : Type} (body : S -> A -> res S) (s s1 : S)
    (l1 l2 : list A) (a : A) (e : fault) :
  for_each body s l1 = Ok s1 -> body s1 a = Fault e ->
  for_each body s (l1 ++ a :: l2) = Fault e.
Proof.
  intros H1 Ha. rewrite for_each_app, H1. cbn [mbind res_bind for_each].
  rewrite Ha. reflexivity.
Qed.

(** X10.  A beam-map file with more full lines than [DiskBeamMap] has
    entries, each for a pixel of the map: the line after the last entry
    is stored past the end of [DiskBeamMap]. *)
Theorem ParseBeamMapFile_too_many_lines (f : beam_file) (s : beam_state)
    (cols rows : Z) :
  beam_extent cols rows s ->
  count s = 0 ->
  Forall (in_map cols rows) (bf_lines f) ->
  (length (DiskBeamMap s) < length (bf_lines f))%nat ->
  ParseBeamMapFile f s = Fault (OutOfBounds DiskBeamMapArr).
Proof.
  intros Hext Hc Hin Hlen.
  set (n := length (DiskBeamMap s)) in *.
  destruct (drop n (bf_lines f)) as [|line rest] eqn:Hdrop.
  { apply (f_equal length) in Hdrop. rewrite length_drop in Hdrop.
    cbn [length] in Hdrop. lia. }
  pose proof (take_drop n (bf_lines f)) as Hsplit. rewrite Hdrop in Hsplit.
  destruct (scan_lines_load (take n (bf_lines f)) s cols rows Hext)
    as (s1 & Hrun & _ & Hcount & Hdisk & _).
  { rewrite <- Hsplit in Hin. now apply Forall_app in Hin as [Hin _]. }
  { lia. }
  { rewrite length_take. fold n. lia. }
  unfold ParseBeamMapFile. rewrite <- Hsplit.
  rewrite (for_each_Fault scan_line s s1 _ rest line (OutOfBounds DiskBeamMapArr) Hrun);
    [reflexivity|].
  destruct line as [[[resid flag] x] y]. unfold scan_line.
  rewrite bool_decide_false; [reflexivity|].
  rewrite Hcount, Hdisk, Hc.
  rewrite !length_app, !length_take, length_drop. fold n. lia.
Qed.

Lemma ParseBeamMapFile_too_many_lines_witness :
  ParseBeamMapFile
    {| bf_lines := [(7, 0, 0, 0); (8, 0, 1, 0); (9, 0, 0, 0)]; bf_partial := [] |}
    blank_beam_state
  = Fault (OutOfBounds DiskBeamMapArr).
Proof.
  apply (ParseBeamMapFile_too_many_lines _ _ 2 1).
  - repeat split; reflexivity.
  - reflexivity.
  - repeat constructor; cbn; lia.
  - cbn. lia.
Defined.

(** X11.  A beam-map file that ends in numbers that do not make a full
    line: the numbers converted by the failing call replace the resid,
    then the flag, then the column of the last full line, and the stores
    after the loop put the resulting resid and flag into the pixel so
    named.  The numbers are not counted and not kept in [DiskBeamMap]. *)
Theorem ParseBeamMapFile_trailing_numbers (f : beam_file) (s : beam_state)
    (cols rows r r0 fl0 x0 y0 : Z) (rest : list Z) :
  bf_partial f = r :: rest ->
  last (bf_lines f) = Some (r0, fl0, x0, y0) ->
  beam_extent cols rows s ->
  count s = 0 ->
  Forall (in_map cols rows) (bf_lines f) ->
  (length (bf_lines f) <= length (DiskBeamMap s))%nat ->
  let fl := default fl0 (rest !! 0%nat) in
  let x := default x0 (rest !! 1%nat) in
  0 <= x < cols ->
  exists s',
    ParseBeamMapFile f s = Ok s'
    /\ count s' = Z.of_nat (length (bf_lines f))
    /\ DiskBeamMap s'
       = bf_lines f ++ drop (length (bf_lines f)) (DiskBeamMap s)
    /\ g_cells (BeamMap s') !! (x, y0) = Some (stored_resid (r, fl, x, y0))
    /\ g_cells (BeamFlag s') !! (x, y0) = Some (stored_flag (r, fl, x, y0)).
Proof.
  intros Hp Hlast Hext Hc Hin Hroom fl x Hx.
  destruct (scan_lines_load (bf_lines f) s cols rows Hext Hin)
    as (s1 & Hrun & Hext1 & Hcount & Hdisk & _); [lia|lia|].
  rewrite Hc in Hcount, Hdisk.
  change (Z.to_nat 0) with 0%nat in Hdisk. rewrite take_0 in Hdisk.
  cbn [app Nat.add] in Hdisk.
  assert (Hy : 0 <= y0 < rows).
  { rewrite Forall_forall in Hin.
    assert (Hl : in_map cols rows (r0, fl0, x0, y0)).
    { apply Hin. apply last_Some in Hlast as [m ->]. apply elem_of_app. right.
      apply list_elem_of_singleton. reflexivity. }
    destruct Hl as [_ Hl]. exact Hl. }
  destruct Hext1 as (Hc1 & Hr1 & Hc2 & Hr2).
  assert (Hvars : vars_at_end f
                  = {| v_resid := Some r; v_flag := Some fl;
                       v_x := Some x; v_y := Some y0 |}).
  { unfold vars_at_end, fl, x. rewrite Hp, Hlast.
    cbn [lookup list_lookup fmap option_fmap option_map].
    destruct rest as [|a [|b rest']]; reflexivity. }
  unfold ParseBeamMapFile. rewrite Hrun. cbn [mbind res_bind]. rewrite Hvars.
  unfold store_beam.
  cbn [local v_resid v_flag v_x v_y mbind res_bind].
  rewrite (grid_write_Ok_2 BeamMapArr (BeamMap s1) x y0)
    by (apply in_grid_spec; lia).
  cbn [mbind res_bind].
  rewrite (grid_write_Ok_2 BeamFlagArr (BeamFlag s1) x y0)
    by (apply in_grid_spec; lia).
  eexists. split; [reflexivity|]. cbn [count DiskBeamMap BeamMap BeamFlag].
  split; [lia|]. split; [exact Hdisk|].
  rewrite !cells_set_eq. split; reflexivity.
Qed.

Lemma ParseBeamMapFile_trailing_numbers_witness :
  exists s',
    ParseBeamMapFile {| bf_lines := [(7, 0, 0, 0)]; bf_partial := [9] |}
      blank_beam_state = Ok s'
    /\ count s' = 1
    /\ g_cells (BeamMap s') !! (0, 0) = Some 9
    /\ g_cells (BeamFlag s') !! (0, 0) = Some 0.
Proof.
  destruct (ParseBeamMapFile_trailing_numbers
              {| bf_lines := [(7, 0, 0, 0)]; bf_partial := [9] |}
              blank_beam_state 2 1 9 7 0 0 0 [])
    as (s' & Hrun & Hcount & _ & Hbm & Hbf).
  - reflexivity.
  - reflexivity.
  - repeat split; reflexivity.
  - reflexivity.
  - repeat constructor; cbn; lia.
  - cbn. lia.
  - cbn. lia.
  - exists s'. split; [exact Hrun|]. split; [exact Hcount|].
    split; [exact Hbm|exact Hbf].
Defined.

(** X12.  The column and the row of a line are not compared with the
    extent of the map: the first line that names a pixel outside it is
    stored through [BeamMap] all the same, outside the array. *)
Theorem ParseBeamMapFile_line_outside_map (f : beam_file) (s : beam_state)
    (cols rows : Z) (before after : list (Z * Z * Z * Z)) (line : Z * Z * Z * Z) :
  bf_lines f = before ++ line :: after ->
  beam_extent cols rows s ->
  count s = 0 ->
  Forall (in_map cols rows) before ->
  ~ in_map cols rows line ->
  (length before < length (DiskBeamMap s))%nat ->
  ParseBeamMapFile f s = Fault (OutOfBounds BeamMapArr).
Proof.
  intros Hlines Hext Hc Hin Hout Hroom.
  destruct (scan_lines_load before s cols rows Hext Hin)
    as (s1 & Hrun & Hext1 & Hcount & Hdisk & _); [lia|lia|].
  unfold ParseBeamMapFile. rewrite Hlines.
  rewrite (for_each_Fault scan_line s s1 before after line
             (OutOfBounds BeamMapArr) Hrun); [reflexivity|].
  destruct line as [[[resid flag] x] y]. unfold scan_line.
  rewrite bool_decide_true.
  2:{ rewrite Hcount, Hdisk, Hc, !length_app, !length_take, length_drop. lia. }
  unfold store_beam. cbn [local v_resid v_flag v_x v_y mbind res_bind BeamMap].
  destruct Hext1 as (Hc1 & Hr1 & _).
  unfold grid_write.
  assert (E : in_grid (BeamMap s1) x y = false).
  { apply not_true_iff_false. intros E. apply in_grid_spec in E.
    apply Hout. unfold in_map. cbn [line_pixel fst snd]. lia. }
  rewrite E. reflexivity.
Qed.

Lemma ParseBeamMapFile_line_outside_map_witness :
  ParseBeamMapFile {| bf_lines := [(7, 0, 0, 0); (8, 0, 2, 0)]; bf_partial := [] |}
    blank_beam_state
  = Fault (OutOfBounds BeamMapArr).
Proof.
  apply (ParseBeamMapFile_line_outside_map _ _ 2 1 [(7, 0, 0, 0)] [] (8, 0, 2, 0)).
  - reflexivity.
  - repeat split; reflexivity.
  - reflexivity.
  - repeat constructor; cbn; lia.
  - unfold in_map. cbn. lia.
  - cbn. lia.
Defined.

(** ** Packet decoder: the bytes it reads *)

Lemma for_each_ext {S A : Type} (f g : S -> A -> res S) (l : list A) (s : S) :
  (forall s a, a ∈ l -> f s a = g s a) -> for_each f s l = for_each g s l.
Proof.
  revert s. induction l as [|a l IH]; intros s Hfg; cbn [for_each]; [reflexivity|].
  rewrite (Hfg s a) by (apply elem_of_cons; left; reflexivity).
  destruct (g s a) as [s1|e]; cbn [mbind res_bind]; [|reflexivity].
  apply IH. intros s0 a0 Ha0. apply Hfg. apply elem_of_cons. right. exact Ha0.
Qed.

(** a load inside the first [n] bytes sees only those *)
Lemma load64_take (mem : list byte) (n : nat) (off : Z) :
  0 <= off -> off + 8 <= Z.of_nat n -> (n <= length mem)%nat ->
  load64 (take n mem) off = load64 mem off.
Proof.
  intros Hoff Hn Hlen. unfold load64.
  rewrite length_take.
  rewrite !bool_decide_true by lia.
  f_equal. f_equal.
  rewrite <- (take_drop n mem) at 2.
  rewrite drop_app_le by (rewrite length_take; lia).
  rewrite take_app_le by (rewrite length_drop, length_take; lia).
  reflexivity.
Qed.

Lemma ParseToMem_take (c : decode_ctx) (packet : list byte) (l : Z)
    (tsOffs FirstFile iFile : Z) (t : tables) :
  8 <= l <= Z.of_nat (length packet) ->
  ParseToMem c packet l tsOffs FirstFile iFile t
  = ParseToMem c (take (Z.to_nat l) packet) l tsOffs FirstFile iFile t.
Proof.
  intros Hl. unfold ParseToMem, load.
  rewrite (load64_take packet (Z.to_nat l) 0) by lia.
  destruct (load64 packet 0) as [swp|]; cbn [mbind res_bind]; [|reflexivity].
  case_bool_decide; [reflexivity|].
  case_bool_decide; [reflexivity|].
  apply for_each_ext. intros t0 i Hi. apply elem_of_seqZ in Hi.
  unfold ParseToMem_word, load.
  rewrite (load64_take packet (Z.to_nat l) (i * 8)); [reflexivity|lia| |lia].
  pose proof (Z.mul_div_le l 8 ltac:(lia)). lia.
Qed.

(** X13.  [ParseToMem] reads the first [l] bytes of the packet buffer
    and no others: two buffers that agree on them are decoded alike,
    whatever follows in either. *)
Theorem ParseToMem_reads_l_bytes (c : decode_ctx) (p1 p2 : list byte) (l : Z)
    (tsOffs FirstFile iFile : Z) (t : tables) :
  8 <= l -> l <= Z.of_nat (length p1) -> l <= Z.of_nat (length p2) ->
  take (Z.to_nat l) p1 = take (Z.to_nat l) p2 ->
  ParseToMem c p1 l tsOffs FirstFile iFile t
  = ParseToMem c p2 l tsOffs FirstFile iFile t.
Proof.
  intros Hl H1 H2 Heq.
  rewrite (ParseToMem_take c p1) by lia.
  rewrite (ParseToMem_take c p2) by lia.
  now rewrite Heq.
Qed.

Lemma ParseToMem_reads_l_bytes_witness :
  ParseToMem sample_ctx stray_packet 16 1514764800 1514764900 0 fresh_tables
  = ParseToMem sample_ctx (take 16 stray_packet ++ [xff; xff; xff; xff; xff; xff; xff; xff])
      16 1514764800 1514764900 0 fresh_tables.
Proof.
  apply ParseToMem_reads_l_bytes.
  - lia.
  - vm_compute. discriminate.
  - vm_compute. discriminate.
  - reflexivity.
Defined.

(** X14.  A packet whose first byte is not the marker 0xff is dropped
    whole: the tables are as before, whatever its other bytes. *)
Theorem ParseToMem_bad_marker (c : decode_ctx) (packet : list byte) (l : Z)
    (tsOffs FirstFile iFile : Z) (t : tables) (b : byte) :
  (8 <= length packet)%nat ->
  packet !! 0%nat = Some b -> b <> xff ->
  ParseToMem c packet l tsOffs FirstFile iFile t = Ok t.
Proof.
  intros Hlen Hb Hne. unfold ParseToMem, load.
  destruct (load64 packet 0) as [swp|] eqn:Hload.
  2:{ unfold load64 in Hload. rewrite bool_decide_true in Hload by lia.
      discriminate. }
  cbn [mbind res_bind].
  rewrite bool_decide_true; [reflexivity|].
  rewrite (hdr_start_first_byte packet 0 swp b Hload Hb).
  now rewrite byte_val_xff.
Qed.

Lemma ParseToMem_bad_marker_witness :
  ParseToMem sample_ctx (x00 :: drop 1 stray_packet) 24 1514764800 1514764900 0
    fresh_tables
  = Ok fresh_tables.
Proof.
  apply (ParseToMem_bad_marker _ _ _ _ _ _ _ x00).
  - vm_compute. lia.
  - reflexivity.
  - discriminate.
Defined.

(** ** Framing of a file into packets *)

Lemma word_is_header_load (data : list byte) (k swp : Z) :
  load64 data (k * 8) = Some swp -> is_header swp = word_is_header data k.
Proof.
  intros Hload. destruct (load64_first_byte data (k * 8) swp Hload) as [b Hb].
  unfold is_header, word_is_header.
  rewrite (hdr_start_first_byte data (k * 8) swp b Hload Hb), Hb.
  destruct (Byte.eqb b xff) eqn:E.
  - apply byte_dec_bl in E. apply bool_decide_eq_true. now apply byte_val_xff.
  - apply eqb_false in E. apply bool_decide_eq_false. now rewrite byte_val_xff.
Qed.

Lemma load64_in_bounds (data : list byte) (off : Z) :
  0 <= off -> off + 8 <= Z.of_nat (length data) ->
  exists swp, load64 data off = Some swp.
Proof.
  intros H0 H1. unfold load64. rewrite bool_decide_true by lia. eauto.
Qed.

Lemma first_header_from (data : list byte) (len : nat) (m : Z) :
  0 <= m -> (m + Z.of_nat len) * 8 <= Z.of_nat (length data) ->
  match first_header data (seqZ m (Z.of_nat len)) with
  | Ok (Some j) =>
      m <= j < m + Z.of_nat len /\ word_is_header data j = true
      /\ forall i, m <= i < j -> word_is_header data i = false
  | Ok None => forall i, m <= i < m + Z.of_nat len -> word_is_header data i = false
  | Fault _ => False
  end.
Proof.
  revert m. induction len as [|len IH]; intros m Hm Hlen.
  - cbn. intros i Hi. lia.
  - rewrite seqZ_cons by lia. cbn [first_header].
    destruct (load64_in_bounds data (m * 8)) as [swp Hload]; [lia|lia|].
    unfold load. rewrite Hload. cbn [mbind res_bind].
    rewrite (word_is_header_load data m swp Hload).
    destruct (word_is_header data m) eqn:Hm0.
    + split; [lia|]. split; [exact Hm0|]. intros i Hi. lia.
    + replace (Z.pred (Z.of_nat (S len))) with (Z.of_nat len) by lia.
      specialize (IH (Z.succ m) ltac:(lia) ltac:(lia)).
      destruct (first_header data (seqZ (Z.succ m) (Z.of_nat len))) as [[j|]|e].
      * destruct IH as (Hj & Hhdr & Hleast). split; [lia|]. split; [exact Hhdr|].
        intros i Hi. destruct (decide (i = m)) as [->|Hne]; [exact Hm0|].
        apply Hleast. lia.
      * intros i Hi. destruct (decide (i = m)) as [->|Hne]; [exact Hm0|].
        apply IH. lia.
      * exact IH.
Qed.

Lemma first_header_scan (data : list byte) :
  match first_header data (seqZ 0 (Z.of_nat (length data) / 8)) with
  | Ok (Some j) =>
      0 <= j < Z.of_nat (length data) / 8 /\ word_is_header data j = true
      /\ forall i, 0 <= i < j -> word_is_header data i = false
  | Ok None =>
      forall i, 0 <= i < Z.of_nat (length data) / 8 -> word_is_header data i = false
  | Fault _ => False
  end.
Proof.
  pose proof (Z.div_pos (Z.of_nat (length data)) 8 ltac:(lia) ltac:(lia)) as Hn.
  pose proof (Z.mul_div_le (Z.of_nat (length data)) 8 ltac:(lia)) as Hle.
  pose proof (first_header_from data (Z.to_nat (Z.of_nat (length data) / 8)) 0
                ltac:(lia) ltac:(lia)) as H.
  rewrite Z2Nat.id in H by lia. exact H.
Qed.

Lemma word_is_header_byte (data : list byte) (j : Z) :
  word_is_header data j = true <-> data !! Z.to_nat (j * 8) = Some xff.
Proof.
  unfold word_is_header. destruct (data !! Z.to_nat (j * 8)) as [b|].
  - split.
    + intros H. apply byte_dec_bl in H. now subst.
    + intros [= ->]. reflexivity.
  - split; discriminate.
Qed.

Lemma word_is_header_not_byte (data : list byte) (j : Z) :
  word_is_header data j = false <-> data !! Z.to_nat (j * 8) <> Some xff.
Proof.
  rewrite <- word_is_header_byte. destruct (word_is_header data j).
  - split; [discriminate|]. intros H. now contradiction H.
  - split; [discriminate|reflexivity].
Qed.

(** X15.  The scan for the first header of a file never reads outside
    the file, and stops at the first word whose first byte is 0xff: the
    index it finds is that of a whole word of the file, the words before
    it start with another byte, and when it finds none, no whole word of
    the file starts with 0xff. *)
Theorem first_header_least (data : list byte) :
  match first_header data (seqZ 0 (Z.of_nat (length data) / 8)) with
  | Ok (Some j) =>
      0 <= j < Z.of_nat (length data) / 8
      /\ data !! Z.to_nat (j * 8) = Some xff
      /\ forall i, 0 <= i < j -> data !! Z.to_nat (i * 8) <> Some xff
  | Ok None =>
      forall i, 0 <= i < Z.of_nat (length data) / 8 ->
        data !! Z.to_nat (i * 8) <> Some xff
  | Fault _ => False
  end.
Proof.
  pose proof (first_header_scan data) as H.
  destruct (first_header data _) as [[j|]|e]; [| |exact H].
  - destruct H as (Hj & Hhdr & Hleast). split; [exact Hj|].
    split; [now apply word_is_header_byte|].
    intros i Hi. apply word_is_header_not_byte. now apply Hleast.
  - intros i Hi. apply word_is_header_not_byte. now apply H.
Qed.

(** X16.  A first file in which no word starts with 0xff: the loop over
    the packets starts from [firstHeader], which was never assigned. *)
Theorem parse_file_no_header (w : world) (c : decode_ctx)
    (tsOffs FirstFile i : Z) (s : frame_state) (data : list byte) :
  binfile w (int64 (FirstFile + i)) = Some data ->
  (forall j, 0 <= j < Z.of_nat (length data) / 8 -> word_is_header data j = false) ->
  firstHeader s = None ->
  parse_file w c tsOffs FirstFile s i = Fault (Uninitialised LocalVar).
Proof.
  intros Hfile Hnone Hfirst. unfold parse_file. rewrite Hfile.
  pose proof (first_header_scan data) as Hscan.
  destruct (first_header data _) as [[j|]|e]; [| |contradiction].
  - destruct Hscan as (Hj & Hhdr & _). rewrite Hnone in Hhdr by exact Hj.
    discriminate.
  - cbn [mbind res_bind]. rewrite Hfirst. reflexivity.
Qed.

Lemma parse_file_no_header_witness :
  parse_file (one_file [(7, 0, 0, 0)] (be_bytes (data_word 0 0 3 10 0)))
    sample_ctx 1514764800 1514764900 idle_frame 0
  = Fault (Uninitialised LocalVar).
Proof.
  apply (parse_file_no_header _ _ _ _ _ _ (be_bytes (data_word 0 0 3 10 0))).
  - reflexivity.
  - intros j Hj. change (Z.of_nat (length (be_bytes (data_word 0 0 3 10 0))) / 8)
      with 1 in Hj. assert (j = 0) as -> by lia. reflexivity.
  - reflexivity.
Defined.

Lemma frame_word_data (c : decode_ctx) (data : list byte)
    (tsOffs FirstFile i : Z) (s : frame_state) (k : Z) :
  0 <= k -> k * 8 + 8 <= Z.of_nat (length data) ->
  word_is_header data k = false ->
  frame_word c data tsOffs FirstFile i s k = Ok s.
Proof.
  intros Hk Hlen Hhdr. unfold frame_word, load.
  destruct (load64_in_bounds data (k * 8)) as [swp Hload]; [lia|lia|].
  rewrite Hload. cbn [mbind res_bind].
  rewrite (word_is_header_load data k swp Hload), Hhdr. reflexivity.
Qed.

(** X17.  A later file in which no word starts with 0xff is passed over:
    the loop over its words runs from the [firstHeader] of an earlier
    file, meets no header and calls [ParseToMem] for nothing; the tables,
    [pstart] and the packet buffer stay as they were. *)
Theorem parse_file_no_header_later (w : world) (c : decode_ctx)
    (tsOffs FirstFile i fh : Z) (s : frame_state) (data : list byte) :
  binfile w (int64 (FirstFile + i)) = Some data ->
  (forall j, 0 <= j < Z.of_nat (length data) / 8 -> word_is_header data j = false) ->
  firstHeader s = Some fh -> 0 <= fh ->
  parse_file w c tsOffs FirstFile s i = Ok s.
Proof.
  intros Hfile Hnone Hfirst Hfh. unfold parse_file. rewrite Hfile.
  pose proof (first_header_scan data) as Hscan.
  destruct (first_header data _) as [[j|]|e]; [| |contradiction].
  { destruct Hscan as (Hj & Hhdr & _). rewrite Hnone in Hhdr by exact Hj.
    discriminate. }
  cbn [mbind res_bind]. rewrite Hfirst. cbn [local mbind res_bind].
  apply for_each_idle. intros k Hk. apply elem_of_seqZ in Hk.
  pose proof (Z.mul_div_le (Z.of_nat (length data)) 8 ltac:(lia)) as Hle.
  apply frame_word_data; [lia|lia|]. apply Hnone. lia.
Qed.

Lemma parse_file_no_header_later_witness :
  parse_file (one_file [(7, 0, 0, 0)] (be_bytes (data_word 0 0 3 10 0)))
    sample_ctx 1514764800 1514764900 (after_first_header 0) 0
  = Ok (after_first_header 0).
Proof.
  apply (parse_file_no_header_later _ _ _ _ _ 0 _ (be_bytes (data_word 0 0 3 10 0))).
  - reflexivity.
  - intros j Hj. change (Z.of_nat (length (be_bytes (data_word 0 0 3 10 0))) / 8)
      with 1 in Hj. assert (j = 0) as -> by lia. reflexivity.
  - reflexivity.
  - lia.
Defined.

Lemma frame_word_header (c : decode_ctx) (data : list byte)
    (tsOffs FirstFile i : Z) (s : frame_state) (k ps : Z) :
  0 <= k -> k * 8 + 8 <= Z.of_nat (length data) ->
  Z.of_nat (length data) < 2 ^ 64 ->
  word_is_header data k = true ->
  pstart s = Some ps -> 0 <= ps <= k * 8 ->
  k * 8 - ps <= Z.of_nat (length (packet s)) ->
  frame_word c data tsOffs FirstFile i s k
  = (t ← ParseToMem c
          (take (Z.to_nat (k * 8 - ps)) (drop (Z.to_nat (ps / 8 * 8)) data)
           ++ drop (Z.to_nat (k * 8 - ps)) (packet s))
          (k * 8 - ps) (int32 tsOffs) FirstFile (int32 i) (f_tables s);
     Ok {| firstHeader := firstHeader s; pstart := Some (k * 8);
           packet := take (Z.to_nat (k * 8 - ps)) (drop (Z.to_nat (ps / 8 * 8)) data)
                     ++ drop (Z.to_nat (k * 8 - ps)) (packet s);
           f_tables := t |}).
Proof.
  intros Hk Hlen Hbig Hhdr Hps Hrange Hfit. unfold frame_word, load.
  destruct (load64_in_bounds data (k * 8)) as [swp Hload]; [lia|lia|].
  rewrite Hload. cbn [mbind res_bind].
  rewrite (word_is_header_load data k swp Hload), Hhdr, Hps.
  cbn [local mbind res_bind]. cbv zeta.
  assert (El : uint64 (k * 8 - ps) = k * 8 - ps).
  { unfold uint64. apply wrapu_small. lia. }
  rewrite El. unfold memmove_packet.
  rewrite bool_decide_true by exact Hfit.
  pose proof (Z.mul_div_le ps 8 ltac:(lia)) as Hdiv.
  rewrite bool_decide_true by lia.
  reflexivity.
Qed.

(** X18.  When the first header of a file is not its word 0, the packet
    that starts at that header is lost: [pstart] then holds a word index
    where a byte offset is meant, the copy starts at an earlier word,
    which is no header, and [ParseToMem] drops what it is given. *)
Theorem frame_word_first_packet_misframed (c : decode_ctx) (data : list byte)
    (tsOffs FirstFile i : Z) (s : frame_state) (j k : Z) :
  pstart s = Some j -> 0 < j < k ->
  (forall m, 0 <= m < j -> word_is_header data m = false) ->
  word_is_header data k = true ->
  k * 8 + 8 <= Z.of_nat (length data) ->
  Z.of_nat (length data) < 2 ^ 64 ->
  k * 8 - j <= Z.of_nat (length (packet s)) ->
  exists s',
    frame_word c data tsOffs FirstFile i s k = Ok s'
    /\ f_tables s' = f_tables s /\ pstart s' = Some (k * 8).
Proof.
  intros Hps Hjk Hleast Hhdr Hlen Hbig Hfit.
  rewrite (frame_word_header c data tsOffs FirstFile i s k j) by (auto; lia).
  pose proof (Z.mul_div_le j 8 ltac:(lia)) as Hdiv.
  assert (Hlow : j / 8 < j) by (apply Z.div_lt; lia).
  assert (H0 : 0 <= j / 8) by (apply Z.div_pos; lia).
  specialize (Hleast (j / 8) ltac:(lia)).
  unfold word_is_header in Hleast.
  destruct (lookup_lt_is_Some_2 data (Z.to_nat (j / 8 * 8)) ltac:(lia)) as [b Hb].
  rewrite Hb in Hleast. apply eqb_false in Hleast.
  set (pkt := _ ++ _).
  assert (Hpkt : ParseToMem c pkt (k * 8 - j) (int32 tsOffs) FirstFile (int32 i)
                   (f_tables s) = Ok (f_tables s)).
  { unfold ParseToMem, load.
    assert (Hlenp : length pkt = length (packet s)).
    { unfold pkt. rewrite length_app, length_take, !length_drop. lia. }
    destruct (load64_in_bounds pkt 0) as [swp Hload]; [lia|lia|].
    rewrite Hload. cbn [mbind res_bind].
    rewrite bool_decide_true; [reflexivity|].
    rewrite (hdr_start_first_byte pkt 0 swp b Hload).
    - now rewrite byte_val_xff.
    - unfold pkt. cbn [Z.to_nat].
      rewrite lookup_app_l by (rewrite length_take, length_drop; lia).
      rewrite lookup_take_lt by lia. rewrite lookup_drop, Nat.add_0_r. exact Hb. }
  rewrite Hpkt. cbn [mbind res_bind].
  eexists. split; [reflexivity|]. split; reflexivity.
Qed.

Lemma frame_word_first_packet_misframed_witness :
  exists s',
    frame_word sample_ctx late_header_file 1514764800 1514764900 0
      (after_first_header 1) 3
    = Ok s'
    /\ f_tables s' = f_tables (after_first_header 1) /\ pstart s' = Some (3 * 8).
Proof.
  apply (frame_word_first_packet_misframed sample_ctx late_header_file
           1514764800 1514764900 0 (after_first_header 1) 1 3).
  - reflexivity.
  - lia.
  - intros m Hm. assert (m = 0) as -> by lia. reflexivity.
  - reflexivity.
  - vm_compute. discriminate.
  - vm_compute. reflexivity.
  - vm_compute. discriminate.
Defined.

(** X19.  The test for a packet that is too long only prints: a packet
    of more bytes than the array [packet] holds is copied all the same,
    past the end of the array. *)
Theorem frame_word_long_packet (c : decode_ctx) (data : list byte)
    (tsOffs FirstFile i : Z) (s : frame_state) (k ps : Z) :
  0 <= k -> k * 8 + 8 <= Z.of_nat (length data) ->
  Z.of_nat (length data) < 2 ^ 64 ->
  word_is_header data k = true ->
  pstart s = Some ps -> 0 <= ps <= k * 8 ->
  Z.of_nat (length (packet s)) < k * 8 - ps ->
  frame_word c data tsOffs FirstFile i s k = Fault (OutOfBounds PacketBuf).
Proof.
  intros Hk Hlen Hbig Hhdr Hps Hrange Hlong. unfold frame_word, load.
  destruct (load64_in_bounds data (k * 8)) as [swp Hload]; [lia|lia|].
  rewrite Hload. cbn [mbind res_bind].
  rewrite (word_is_header_load data k swp Hload), Hhdr, Hps.
  cbn [local mbind res_bind]. cbv zeta.
  assert (El : uint64 (k * 8 - ps) = k * 8 - ps).
  { unfold uint64. apply wrapu_small. lia. }
  rewrite El. unfold memmove_packet.
  rewrite bool_decide_false by lia. reflexivity.
Qed.

Lemma frame_word_long_packet_witness :
  frame_word sample_ctx
    (be_bytes (hdr_word 200005 0 0) ++ be_bytes (data_word 0 0 3 10 0)
     ++ be_bytes (hdr_word 200007 0 0))
    1514764800 1514764900 0
    {| firstHeader := Some 0; pstart := Some 0;
       packet := replicate 8 x00; f_tables := fresh_tables |} 2
  = Fault (OutOfBounds PacketBuf).
Proof.
  apply (frame_word_long_packet _ _ _ _ _ _ 2 0).
  - lia.
  - vm_compute. discriminate.
  - vm_compute. reflexivity.
  - reflexivity.
  - reflexivity.
  - lia.
  - vm_compute. reflexivity.
Defined.

Lemma length_words_between (data : list byte) (p k : Z) :
  0 <= p <= k -> k * 8 <= Z.of_nat (length data) ->
  Z.of_nat (length (words_between data p k)) = (k - p) * 8.
Proof.
  intros Hp Hk. unfold words_between. rewrite length_take, length_drop. lia.
Qed.

(** the loop over [k] from a byte offset [pstart] that is the start of a
    word: each header word closes the packet that runs up to it *)
Lemma frame_words_packets (c : decode_ctx) (data : list byte)
    (tsOffs FirstFile i : Z) (len : nat) :
  forall (s : frame_state) (p a : Z),
    pstart s = Some (p * 8) -> 0 <= p < a ->
    (a + Z.of_nat len) * 8 <= Z.of_nat (length data) ->
    Z.of_nat (length data) < 2 ^ 64 ->
    Forall (fun pk => (length pk <= length (packet s))%nat)
      (packets_from data p (header_words data (seqZ a (Z.of_nat len)))) ->
    (s' ← for_each (frame_word c data tsOffs FirstFile i) s (seqZ a (Z.of_nat len));
     Ok (f_tables s'))
    = for_each (decode_packet c tsOffs FirstFile i) (f_tables s)
        (packets_from data p (header_words data (seqZ a (Z.of_nat len)))).
Proof.
  induction len as [|len IH]; intros s p a Hps Hpa Hlen Hbig Hfit.
  - reflexivity.
  - rewrite seqZ_cons in Hfit |- * by lia.
    replace (Z.pred (Z.of_nat (S len))) with (Z.of_nat len) in Hfit |- * by lia.
    cbn [for_each]. unfold header_words in Hfit |- *.
    destruct (word_is_header data a) eqn:Hhdr.
    + rewrite filter_cons_True in Hfit |- * by exact Hhdr.
      cbn [packets_from for_each] in Hfit |- *.
      apply Forall_cons in Hfit as [Hfit0 Hfit].
      pose proof (length_words_between data p a ltac:(lia) ltac:(lia)) as Hlw.
      rewrite (frame_word_header c data tsOffs FirstFile i s a (p * 8))
        by (auto; lia).
      rewrite Z.div_mul by lia.
      replace (a * 8 - p * 8) with ((a - p) * 8) by lia.
      fold (words_between data p a).
      set (pkt := words_between data p a ++ _).
      assert (Hsame : ParseToMem c pkt ((a - p) * 8) (int32 tsOffs) FirstFile
                        (int32 i) (f_tables s)
                      = decode_packet c tsOffs FirstFile i (f_tables s)
                          (words_between data p a)).
      { unfold decode_packet. rewrite Hlw.
        rewrite (ParseToMem_take c pkt).
        2:{ unfold pkt. rewrite length_app, length_drop. lia. }
        unfold pkt. rewrite take_app_length' by lia. reflexivity. }
      rewrite Hsame.
      destruct (decode_packet c tsOffs FirstFile i (f_tables s)
                  (words_between data p a)) as [t|e]; [|reflexivity].
      cbn [mbind res_bind].
      apply (IH {| firstHeader := firstHeader s; pstart := Some (a * 8);
                   packet := pkt; f_tables := t |} a (Z.succ a));
        [reflexivity|lia|lia|exact Hbig|].
      cbn [packet]. unfold pkt.
      replace (length (words_between data p a ++ drop (Z.to_nat ((a - p) * 8)) (packet s)))
        with (length (packet s))
        by (rewrite length_app, length_drop; lia).
      exact Hfit.
    + rewrite filter_cons_False in Hfit |- * by (rewrite Hhdr; discriminate).
      rewrite (frame_word_data c data tsOffs FirstFile i s a) by (auto; lia).
      cbn [mbind res_bind].
      apply IH; [exact Hps|lia|lia|exact Hbig|exact Hfit].
Qed.

(** X20.  A file that starts with a header word is cut at its header
    words: every stretch from one header word to the next is decoded as
    one packet, from its own bytes only and in file order; the words
    after the last header word are decoded by no call.  The tables after
    the file, or the fault, are those of decoding these packets one
    after the other. *)
Theorem parse_file_frames (w : world) (c : decode_ctx)
    (tsOffs FirstFile i : Z) (s : frame_state) (data : list byte) :
  binfile w (int64 (FirstFile + i)) = Some data ->
  word_is_header data 0 = true ->
  8 <= Z.of_nat (length data) < 2 ^ 64 ->
  Forall (fun pk => (length pk <= length (packet s))%nat)
    (packets_from data 0
       (header_words data (seqZ 1 (Z.of_nat (length data) / 8 - 1)))) ->
  (s' ← parse_file w c tsOffs FirstFile s i; Ok (f_tables s'))
  = for_each (decode_packet c tsOffs FirstFile i) (f_tables s)
      (packets_from data 0
         (header_words data (seqZ 1 (Z.of_nat (length data) / 8 - 1)))).
Proof.
  intros Hfile Hhdr [Hsmall Hbig] Hfit. unfold parse_file. rewrite Hfile.
  pose proof (Z.mul_div_le (Z.of_nat (length data)) 8 ltac:(lia)) as Hle.
  assert (Hn : 1 <= Z.of_nat (length data) / 8)
    by (apply Z.div_le_lower_bound; lia).
  pose proof (first_header_scan data) as Hscan.
  destruct (first_header data _) as [[j|]|e]; [| |contradiction].
  2:{ rewrite Hscan in Hhdr by lia. discriminate. }
  destruct Hscan as (Hj & _ & Hleast).
  assert (Hj0 : j = 0).
  { destruct (decide (j = 0)) as [E|E]; [exact E|].
    rewrite (Hleast 0) in Hhdr by lia. discriminate. }
  subst j.
  cbn [mbind res_bind firstHeader local].
  set (s1 := {| firstHeader := Some 0; pstart := Some 0;
                packet := packet s; f_tables := f_tables s |}).
  change (f_tables s) with (f_tables s1).
  replace (Z.of_nat (length data) / 8 - (0 + 1))
    with (Z.of_nat (length data) / 8 - 1) by lia.
  destruct (Z_of_nat_complete (Z.of_nat (length data) / 8 - 1) ltac:(lia))
    as [m Em].
  rewrite Em in Hfit |- *.
  apply (frame_words_packets c data tsOffs FirstFile i m s1 0 1);
    [reflexivity|lia|lia|exact Hbig|exact Hfit].
Qed.

Lemma parse_file_frames_witness :
  (s' ← parse_file (one_file [(7, 0, 0, 0)] packet_then_header) sample_ctx
          1514764800 1514764900 idle_frame 0;
   Ok (f_tables s'))
  = for_each (decode_packet sample_ctx 1514764800 1514764900 0)
      (f_tables idle_frame)
      (packets_from packet_then_header 0
         (header_words packet_then_header
            (seqZ 1 (Z.of_nat (length packet_then_header) / 8 - 1)))).
Proof.
  apply parse_file_frames.
  - reflexivity.
  - reflexivity.
  - split; [vm_compute; discriminate|vm_compute; reflexivity].
  - assert (E : packets_from packet_then_header 0
                  (header_words packet_then_header
                     (seqZ 1 (Z.of_nat (length packet_then_header) / 8 - 1)))
                = [take 16 packet_then_header]) by reflexivity.
    rewrite E. constructor; [|constructor].
    apply Nat.leb_le. vm_compute. reflexivity.
Defined.

(** ** Copy into the output array *)

Lemma flatten_entry_Ok (bs : beam_state) (t : tables) (n0 n1 : Z)
    (o o1 : list (option photon)) (j : Z) :
  (forall x y ct, in_grid (ptablect t) x y = true ->
     count_at t (x, y) = Some ct -> 0 <= ct) ->
  0 <= n0 ->
  flatten_entry bs t (n0, o) j = Ok (n1, o1) ->
  n1 = n0 + Z.of_nat (length (entry_cells bs t j))
  /\ o1 = take (Z.to_nat n0) o ++ entry_cells bs t j ++ drop (Z.to_nat n1) o
  /\ (entry_cells bs t j <> [] -> n1 <= Z.of_nat (length o)).
Proof.
  intros Hpos Hn0. unfold flatten_entry, entry_cells.
  destruct (DiskBeamMap bs !! Z.to_nat j) as [[[[resid flag] x] y]|]; [|discriminate].
  intros Hrun.
  apply bind_Ok in Hrun as (bm & Hbm & Hrun).
  apply grid_read_Ok in Hbm as [_ Hbm]. rewrite Hbm.
  case_bool_decide as Hinit.
  { injection Hrun as <- <-.
    destruct (count_at t (x, y)), (buffer_at t (x, y)); cbn [length app];
      (split; [lia|]); (split; [now rewrite take_drop|]); intros H; contradiction. }
  apply bind_Ok in Hrun as (ct & Hct & Hrun).
  apply grid_read_Ok in Hct as [Hin Hct]. unfold count_at. rewrite Hct.
  pose proof (Hpos x y ct Hin Hct) as Hct0.
  case_bool_decide as Hzero.
  { injection Hrun as <- <-. subst ct.
    change (Z.to_nat 0) with 0%nat.
    destruct (buffer_at t (x, y)); rewrite ?take_0; cbn [length app];
      (split; [lia|]); (split; [now rewrite take_drop|]); intros H; contradiction. }
  apply bind_Ok in Hrun as (buf & Hbuf & Hrun).
  apply grid_read_Ok in Hbuf as [_ Hbuf]. unfold buffer_at. rewrite Hbuf.
  apply bind_Ok in Hrun as (out' & Hcopy & Hrun).
  injection Hrun as <- <-.
  unfold memcpy_photons in Hcopy.
  case_bool_decide as Hlen; [|discriminate].
  case_bool_decide as Hroom; [|discriminate].
  injection Hcopy as <-.
  rewrite length_take. split; [lia|]. split; [reflexivity|]. intros _. exact Hroom.
Qed.

Lemma flatten_entries (bs : beam_state) (t : tables) (js : list Z) :
  (forall x y ct, in_grid (ptablect t) x y = true ->
     count_at t (x, y) = Some ct -> 0 <= ct) ->
  forall (n0 n : Z) (o o' : list (option photon)),
    0 <= n0 ->
    for_each (flatten_entry bs t) (n0, o) js = Ok (n, o') ->
    n = n0 + Z.of_nat (length (js ≫= entry_cells bs t))
    /\ o' = take (Z.to_nat n0) o ++ (js ≫= entry_cells bs t) ++ drop (Z.to_nat n) o
    /\ ((js ≫= entry_cells bs t) <> [] -> n <= Z.of_nat (length o)).
Proof.
  intros Hpos. induction js as [|j js IH]; intros n0 n o o' Hn0 Hrun.
  - cbn in Hrun. injection Hrun as <- <-. cbn [mbind list_bind length app].
    split; [lia|]. split; [now rewrite take_drop|]. intros H; contradiction.
  - cbn [for_each] in Hrun. apply bind_Ok in Hrun as ([n1 o1] & Hstep & Hrun).
    apply (flatten_entry_Ok bs t n0 n1 o o1 j Hpos Hn0) in Hstep
      as (Hn1 & Ho1 & Hroom1).
    apply (IH n1 n o1 o' ltac:(lia)) in Hrun as (Hn & Ho' & Hroom).
    cbn [mbind list_bind]. fold (js ≫= entry_cells bs t).
    rewrite length_app. split; [lia|].
    set (seg := entry_cells bs t j) in *. set (segs := js ≫= entry_cells bs t) in *.
    destruct seg as [|c seg'] eqn:Eseg.
    + cbn [length app] in *. assert (n1 = n0) as -> by lia.
      rewrite take_drop in Ho1. subst o1. split; [exact Ho'|exact Hroom].
    + specialize (Hroom1 ltac:(discriminate)).
      assert (Hlen1 : length o1 = length o).
      { rewrite Ho1, !length_app, length_take, length_drop. lia. }
      assert (Htake : take (Z.to_nat n1) o1 = take (Z.to_nat n0) o ++ c :: seg').
      { rewrite Ho1, app_assoc. apply take_app_length'.
        rewrite length_app, length_take. lia. }
      assert (Hdrop : drop (Z.to_nat n) o1 = drop (Z.to_nat n) o).
      { rewrite Ho1, app_assoc.
        rewrite drop_app_ge by (rewrite length_app, length_take; lia).
        rewrite drop_drop. f_equal.
        rewrite length_app, length_take. lia. }
      split.
      * rewrite Ho', Htake, Hdrop, <- !app_assoc. reflexivity.
      * intros _. destruct segs as [|c' segs'] eqn:Esegs.
        -- cbn [length] in Hn. lia.
        -- specialize (Hroom ltac:(discriminate)). lia.
Qed.



(** ** The tables over a run *)

Lemma alloc_pixels (bm : grid Z) (l : list (Z * Z))
    (pt pt' : grid (list (option photon))) :
  for_each (alloc_pixel bm) pt l = Ok pt' ->
  g_cols pt' = g_cols pt /\ g_rows pt' = g_rows pt
  /\ forall xy,
       (xy ∈ l -> exists v, g_cells bm !! xy = Some v
                   /\ (v <> beamMapInitVal ->
                       g_cells pt' !! xy = Some (replicate 2500 None))
                   /\ (v = beamMapInitVal -> g_cells pt' !! xy = g_cells pt !! xy))
       /\ (xy ∉ l -> g_cells pt' !! xy = g_cells pt !! xy).
Proof.
  revert pt. induction l as [|[i j] l IH]; intros pt Hrun; cbn [for_each] in Hrun.
  - injection Hrun as <-. split; [reflexivity|]. split; [reflexivity|].
    intros xy. split; [intros H; inversion H|reflexivity].
  - apply bind_Ok in Hrun as (pt1 & Hstep & Hrun).
    destruct (IH pt1 Hrun) as (Hc & Hr & Hcells).
    unfold alloc_pixel in Hstep.
    apply bind_Ok in Hstep as (v & Hv & Hstep).
    apply grid_read_Ok in Hv as [_ Hv].
    assert (H1 : g_cols pt1 = g_cols pt /\ g_rows pt1 = g_rows pt
                 /\ (forall xy, xy <> (i, j) -> g_cells pt1 !! xy = g_cells pt !! xy)
                 /\ (v <> beamMapInitVal ->
                     g_cells pt1 !! (i, j) = Some (replicate 2500 None))
                 /\ (v = beamMapInitVal -> pt1 = pt)).
    { case_bool_decide as Hinit.
      - injection Hstep as <-. repeat split; auto. intros; contradiction.
      - apply grid_write_Ok in Hstep as [_ ->].
        split; [reflexivity|]. split; [reflexivity|]. split.
        + intros xy Hne. now apply cells_set_ne.
        + split; [intros _; apply cells_set_eq|intros; contradiction]. }
    destruct H1 as (Hc1 & Hr1 & Hother1 & Hnew1 & Hsame1).
    split; [congruence|]. split; [congruence|].
    intros xy. destruct (Hcells xy) as [Hin Hout]. split.
    + intros Hxy. destruct (decide (xy ∈ l)) as [Hl|Hl].
      * destruct (Hin Hl) as (v' & Hv' & Hnew & Hsame).
        exists v'. split; [exact Hv'|]. split; [exact Hnew|].
        intros Hinit. rewrite (Hsame Hinit).
        destruct (decide (xy = (i, j))) as [->|Hne]; [|now apply Hother1].
        assert (v = v') as -> by congruence. now rewrite (Hsame1 Hinit).
      * apply elem_of_cons in Hxy as [->|Hxy]; [|contradiction].
        exists v. split; [exact Hv|]. rewrite (Hout Hl). split; [exact Hnew1|].
        intros Hinit. now rewrite (Hsame1 Hinit).
    + intros Hxy. apply not_elem_of_cons in Hxy as [Hne Hxy].
      rewrite (Hout Hxy). now apply Hother1.
Qed.

Lemma uint32_le (z : Z) : 0 <= z -> uint32 z <= z.
Proof. intros Hz. unfold uint32, wrapu. apply Z.mod_le; lia. Qed.

Lemma grow_pixel_cases (t t' : tables) (x y : Z) :
  grow_pixel t x y = Ok t' ->
  t' = t
  \/ exists ct buf,
       count_at t (x, y) = Some ct /\ buffer_at t (x, y) = Some buf
       /\ t' = {| ptable := grid_set (ptable t) x y
                              (realloc_photons buf (cursize_of ct + 1));
                  ptablect := ptablect t |}.
Proof.
  unfold grow_pixel. intros H.
  apply bind_Ok in H as (ct & Hct & H). apply grid_read_Ok in Hct as [_ Hct].
  case_bool_decide; [|left; now injection H as <-].
  apply bind_Ok in H as (buf & Hbuf & H). apply grid_read_Ok in Hbuf as [_ Hbuf].
  apply bind_Ok in H as (pt & Hpt & H). apply grid_write_Ok in Hpt as [_ ->].
  injection H as <-. right. exists ct, buf. auto.
Qed.

Lemma take_resize_written (buf : list (option photon)) (n m : nat) :
  (n <= length buf)%nat -> (n <= m)%nat ->
  take n (resize m None buf) = take n buf.
Proof.
  intros Hn Hm. destruct (decide (m <= length buf)%nat) as [Hle|Hgt].
  - rewrite resize_le by exact Hle. rewrite take_take. f_equal. lia.
  - rewrite resize_ge by lia. now rewrite take_app_le.
Qed.

(** one append to a pixel: the cells below the new count are the cells
    that were below the old one, then the photon *)
Lemma append_keeps_written (buf buf1 : list (option photon)) (ps : list photon)
    (p : photon) (ct n' : Z) :
  0 <= ct -> ct <= Z.of_nat (length buf) -> ct < Z.of_nat (length buf1) ->
  take (Z.to_nat ct) buf1 = take (Z.to_nat ct) buf ->
  take (Z.to_nat ct) buf = Some <$> ps ->
  0 <= n' <= ct + 1 ->
  take (Z.to_nat n') (<[Z.to_nat ct := Some p]> buf1)
  = Some <$> take (Z.to_nat n') (ps ++ [p]).
Proof.
  intros Hct Hlen Hlen1 Hsame Hps Hn'.
  assert (Hfull : take (S (Z.to_nat ct)) (<[Z.to_nat ct := Some p]> buf1)
                  = Some <$> (ps ++ [p])).
  { rewrite (take_S_r _ _ (Some p)) by (apply list_lookup_insert_eq; lia).
    rewrite take_insert_ge by lia. rewrite Hsame, Hps, fmap_app. reflexivity. }
  rewrite fmap_take, <- Hfull, take_take. f_equal. lia.
Qed.

Lemma ParseToMem_word_ok (c : decode_ctx) (packet : list byte)
    (basetime : Z) (t t' : tables) (i : Z) :
  tables_ok (c_BeamMap c) (beamCols c) (beamRows c) t ->
  ParseToMem_word c packet basetime t i = Ok t' ->
  tables_ok (c_BeamMap c) (beamCols c) (beamRows c) t'.
Proof.
  intros Hinv Hrun. unfold ParseToMem_word in Hrun.
  apply bind_Ok in Hrun as (swp & _ & Hrun).
  set (data := as_datapacket (bswap_64 swp)) in *.
  apply bind_Ok in Hrun as (skip & Hskip & Hrun).
  destruct skip; [now injection Hrun as <-|].
  assert (Hxy : 0 <= data_xcoord data < beamCols c
                /\ 0 <= data_ycoord data < beamRows c).
  { unfold skipped in Hskip. case_bool_decide as Hout; [discriminate|].
    pose proof (ufield_range (bswap_64 swp) 54 10 ltac:(lia) ltac:(lia)).
    pose proof (ufield_range (bswap_64 swp) 44 10 ltac:(lia) ltac:(lia)).
    unfold data in Hout |- *.
    cbn [as_datapacket data_xcoord data_ycoord] in Hout |- *. lia. }
  set (x := data_xcoord data) in *. set (y := data_ycoord data) in *.
  apply bind_Ok in Hrun as (t1 & Hgrow & Hrun).
  apply bind_Ok in Hrun as (bmval & _ & Hpush).
  set (p := new_photon bmval basetime data) in *.
  apply push_photon_Ok in Hpush as (ct & buf1 & Hct1 & Hbuf1 & Hroom & Hpt & Hctg).
  destruct Hinv as (Hpc & Hpr & Hcc & Hcr & Hpix).
  assert (Ht1 : ptablect t1 = ptablect t
                /\ g_cols (ptable t1) = g_cols (ptable t)
                /\ g_rows (ptable t1) = g_rows (ptable t)
                /\ (forall xy, xy <> (x, y) -> buffer_at t1 xy = buffer_at t xy)
                /\ exists buf, buffer_at t (x, y) = Some buf
                     /\ (ct <= Z.of_nat (length buf) ->
                         take (Z.to_nat ct) buf1 = take (Z.to_nat ct) buf)).
  { apply grow_pixel_cases in Hgrow as [->|(ct' & buf & Hct' & Hbuf & ->)].
    - do 3 (split; [reflexivity|]). split; [reflexivity|].
      exists buf1. split; [exact Hbuf1|reflexivity].
    - cbn [ptable ptablect]. do 3 (split; [reflexivity|]). split.
      + intros xy Hne. unfold buffer_at. cbn [ptable]. now apply cells_set_ne.
      + exists buf. split; [exact Hbuf|]. intros Hle.
        unfold buffer_at in Hbuf1. cbn [ptable] in Hbuf1.
        rewrite cells_set_eq in Hbuf1. injection Hbuf1 as <-.
        unfold realloc_photons in *. rewrite length_resize in Hroom.
        apply take_resize_written; lia. }
  destruct Ht1 as (Hcts & Hcols1 & Hrows1 & Hother & buf & Hbuf & Hsame).
  unfold tables_ok. rewrite Hpt, Hctg. cbn [g_cols g_rows grid_set].
  rewrite Hcols1, Hrows1, Hcts.
  do 4 (split; [assumption|]).
  intros x' y' Hx' Hy'. specialize (Hpix x' y' Hx' Hy').
  destruct (decide ((x', y') = (x, y))) as [E|Hne].
  - rewrite E in Hpix |- *. destruct Hpix as (n & v & Hn & Hn0 & Hv & Hcell).
    rewrite Hbuf in Hcell. destruct Hcell as (Hinit & Hle & ps & Hps).
    unfold count_at in Hct1, Hn. rewrite Hcts, Hn in Hct1. injection Hct1 as <-.
    exists (uint32 (n + 1)), v.
    pose proof (wrapu_range 32 (n + 1) ltac:(lia)) as Hw.
    pose proof (uint32_le (n + 1) ltac:(lia)) as Hw'. fold (uint32 (n + 1)) in Hw.
    unfold count_at, buffer_at. rewrite Hpt, Hctg, !cells_set_eq.
    split; [reflexivity|]. split; [lia|]. split; [exact Hv|].
    split; [exact Hinit|]. rewrite length_insert. split; [lia|].
    exists (take (Z.to_nat (uint32 (n + 1))) (ps ++ [p])).
    apply (append_keeps_written buf buf1 ps p n); auto; lia.
  - destruct Hpix as (n & v & Hn & Hn0 & Hv & Hcell).
    exists n, v. unfold count_at, buffer_at in *.
    rewrite Hpt, Hctg, !cells_set_ne by exact Hne.
    rewrite Hcts. split; [exact Hn|]. split; [exact Hn0|]. split; [exact Hv|].
    specialize (Hother (x', y') Hne). unfold buffer_at in Hother.
    rewrite Hother. exact Hcell.
Qed.

Lemma ParseToMem_ok (c : decode_ctx) (packet : list byte)
    (l tsOffs FirstFile iFile : Z) (t t' : tables) :
  tables_ok (c_BeamMap c) (beamCols c) (beamRows c) t ->
  ParseToMem c packet l tsOffs FirstFile iFile t = Ok t' ->
  tables_ok (c_BeamMap c) (beamCols c) (beamRows c) t'.
Proof.
  intros Hinv Hrun. unfold ParseToMem in Hrun.
  apply bind_Ok in Hrun as (swp & _ & Hrun).
  case_bool_decide; [now injection Hrun as <-|].
  case_bool_decide; [now injection Hrun as <-|].
  revert Hinv Hrun. apply for_each_inv.
  intros s i s' _. now apply ParseToMem_word_ok.
Qed.

Lemma frame_word_ok (c : decode_ctx) (data : list byte)
    (tsOffs FirstFile i : Z) (s s' : frame_state) (k : Z) :
  tables_ok (c_BeamMap c) (beamCols c) (beamRows c) (f_tables s) ->
  frame_word c data tsOffs FirstFile i s k = Ok s' ->
  tables_ok (c_BeamMap c) (beamCols c) (beamRows c) (f_tables s').
Proof.
  intros Hinv Hrun. unfold frame_word in Hrun.
  apply bind_Ok in Hrun as (swp & _ & Hrun).
  destruct (is_header swp); [|now injection Hrun as <-].
  apply bind_Ok in Hrun as (ps & _ & Hrun).
  apply bind_Ok in Hrun as (pkt & _ & Hrun).
  apply bind_Ok in Hrun as (t & Hparse & Hrun).
  injection Hrun as <-. cbn [f_tables].
  eapply ParseToMem_ok; eassumption.
Qed.

Lemma parse_file_ok (w : world) (c : decode_ctx)
    (tsOffs FirstFile : Z) (s s' : frame_state) (i : Z) :
  tables_ok (c_BeamMap c) (beamCols c) (beamRows c) (f_tables s) ->
  parse_file w c tsOffs FirstFile s i = Ok s' ->
  tables_ok (c_BeamMap c) (beamCols c) (beamRows c) (f_tables s').
Proof.
  intros Hinv Hrun. unfold parse_file in Hrun.
  destruct (binfile w (int64 (FirstFile + i))) as [data|]; [|discriminate].
  apply bind_Ok in Hrun as (found & _ & Hrun).
  apply bind_Ok in Hrun as (fh & _ & Hrun).
  revert Hrun.
  apply (for_each_inv
           (fun s => tables_ok (c_BeamMap c) (beamCols c) (beamRows c) (f_tables s))).
  - intros s0 k s0' _. now apply frame_word_ok.
  - destruct found; exact Hinv.
Qed.

Lemma sort_pixel_no_buffer (t t' : tables) (xy xy' : Z * Z) :
  sort_pixel t xy = Ok t' -> buffer_at t xy' = None -> buffer_at t' xy' = None.
Proof.
  destruct xy as [x y]. unfold sort_pixel. intros H Hnone.
  apply bind_Ok in H as (n & _ & H).
  case_bool_decide; [now injection H as <-|].
  apply bind_Ok in H as (buf & Hbuf & H). apply grid_read_Ok in Hbuf as [_ Hbuf].
  case_bool_decide; [discriminate|].
  destruct (all_written _); [|discriminate].
  apply bind_Ok in H as (pt & Hpt & H). apply grid_write_Ok in Hpt as [_ ->].
  injection H as <-. unfold buffer_at in *. cbn [ptable].
  rewrite cells_set_ne; [exact Hnone|]. intros ->. congruence.
Qed.

Lemma SortPhotonTables_no_buffer (t t' : tables) (cols rows : Z) (xy : Z * Z) :
  SortPhotonTables t cols rows = Ok t' ->
  buffer_at t xy = None -> buffer_at t' xy = None.
Proof.
  unfold SortPhotonTables. intros Hrun Hnone. revert Hnone Hrun.
  apply (for_each_inv (fun t0 => buffer_at t0 xy = None)).
  intros s a s' _ Hs Hstep. now apply (sort_pixel_no_buffer s s' a).
Qed.

(** the beam map and the tables of a run before the sort *)
Lemma run_tables_before_sort (w : world) (a : call) (bs : beam_state) (t : tables) :
  run_tables w a = Ok (bs, t) ->
  beam_ok (uint32 (bmap_ncol a)) (uint32 (bmap_nrow a)) bs
  /\ exists t0,
       tables_ok (BeamMap bs) (uint32 (bmap_ncol a)) (uint32 (bmap_nrow a)) t0
       /\ SortPhotonTables t0 (uint32 (bmap_ncol a)) (uint32 (bmap_nrow a)) = Ok t.
Proof.
  intros Hrun. unfold run_tables in Hrun. cbv zeta in Hrun.
  set (cols := uint32 (bmap_ncol a)) in *. set (rows := uint32 (bmap_nrow a)) in *.
  apply bind_Ok in Hrun as (bm & Hbm & Hrun).
  apply bind_Ok in Hrun as (bfl & Hbfl & Hrun).
  apply bind_Ok in Hrun as (bs0 & Hload & Hrun).
  apply bind_Ok in Hrun as (pt & Hpt & Hrun).
  apply bind_Ok in Hrun as (s & Hfiles & Hrun).
  apply bind_Ok in Hrun as (t0 & Hsort & Hrun).
  injection Hrun as -> ->.
  apply InitializeBeamMap_spec in Hbm as (Hbmc & Hbmr & Hbmcells & _).
  apply InitializeBeamMap_spec in Hbfl as (Hbfc & Hbfr & Hbfcells & Hbfall).
  apply (ParseBeamMapFile_spec _ cols rows) in Hload as [Hok _].
  2:{ unfold beam_ok. cbn [BeamMap BeamFlag].
      do 4 (split; [assumption|]). split.
      - intros x y Hx Hy. rewrite Hbmcells by assumption. eauto.
      - intros xy fl Hfl. apply Hbfall in Hfl. lia. }
  split; [exact Hok|]. exists (f_tables s). split; [|exact Hsort].
  revert Hfiles.
  apply (for_each_inv (fun s => tables_ok (BeamMap bs) cols rows (f_tables s))).
  { intros s0 i s0' _.
    apply (parse_file_ok w
             {| tstart := _; c_BeamMap := BeamMap bs; c_BeamFlag := BeamFlag bs;
                mapflag := 1; beamCols := cols; beamRows := rows |}). }
  cbn [f_tables]. apply alloc_pixels in Hpt as (Hpc & Hpr & Hcells).
  destruct (grid_calloc_spec cols rows) as (Hcc & Hcr & Hzero).
  unfold tables_ok. cbn [ptable ptablect].
  split; [exact Hpc|]. split; [exact Hpr|]. split; [exact Hcc|]. split; [exact Hcr|].
  intros x y Hx Hy.
  destruct (Hcells (x, y)) as [Hin _].
  destruct Hin as (v & Hv & Hnew & Hsame);
    [apply elem_of_grid_indices; auto|].
  exists 0, v. unfold count_at, buffer_at. cbn [ptable ptablect].
  split; [now apply Hzero|]. split; [lia|]. split; [exact Hv|].
  destruct (decide (v = beamMapInitVal)) as [Hinit|Hinit].
  - rewrite (Hsame Hinit). cbn [grid_alloc g_cells]. rewrite lookup_empty. auto.
  - rewrite (Hnew Hinit). split; [exact Hinit|].
    rewrite length_replicate. split; [lia|]. exists []. reflexivity.
Qed.

(** X22.  When a run gets as far as the copy into the output array,
    every pixel of the map has a count; a pixel that kept the initial
    resid has no buffer and count zero; every other pixel has a buffer
    whose cells below the count all hold photons, in non-decreasing
    order of timestamp. *)
Theorem run_tables_sorted (w : world) (a : call) (bs : beam_state) (t : tables)
    (x y : Z) :
  run_tables w a = Ok (bs, t) ->
  0 <= x < uint32 (bmap_ncol a) -> 0 <= y < uint32 (bmap_nrow a) ->
  exists n v,
    count_at t (x, y) = Some n /\ 0 <= n
    /\ g_cells (BeamMap bs) !! (x, y) = Some v
    /\ match buffer_at t (x, y) with
       | None => n = 0 /\ v = beamMapInitVal
       | Some buf =>
           v <> beamMapInitVal
           /\ exists ps, take (Z.to_nat n) buf = Some <$> ps /\ Sorted ts_le ps
       end.
Proof.
  intros Hrun Hx Hy.
  apply run_tables_before_sort in Hrun as (_ & t0 & Hinv & Hsort).
  destruct Hinv as (_ & _ & _ & _ & Hpix).
  destruct (Hpix x y Hx Hy) as (n & v & Hn & Hn0 & Hv & Hcell).
  pose proof (SortPhotonTables_counts _ _ _ _ Hsort) as Hcts.
  exists n, v. unfold count_at in *. rewrite Hcts.
  split; [exact Hn|]. split; [exact Hn0|]. split; [exact Hv|].
  destruct (buffer_at t0 (x, y)) as [buf|] eqn:Hbuf.
  - destruct Hcell as (Hinit & Hle & ps & Hps).
    unfold SortPhotonTables in Hsort.
    apply for_each_sort_pixel_kernel in Hsort as (_ & _ & Hk);
      [|apply NoDup_grid_indices].
    rewrite (Hk (x, y) n buf ps); auto;
      [|apply elem_of_grid_indices; auto].
    split; [exact Hinit|]. exists (sort_photons ps). split.
    + apply take_app_length'. rewrite length_fmap, sort_photons_length.
      apply (f_equal length) in Hps. rewrite length_take, length_fmap in Hps. lia.
    + apply sort_photons_correct.
  - rewrite (SortPhotonTables_no_buffer _ _ _ _ _ Hsort Hbuf). exact Hcell.
Qed.

Lemma run_tables_sorted_witness :
  exists bs t n v,
    run_tables (one_file [(7, 0, 0, 0)] two_photons) (one_second 1 1 4) = Ok (bs, t)
    /\ count_at t (0, 0) = Some n /\ 0 <= n
    /\ g_cells (BeamMap bs) !! (0, 0) = Some v
    /\ match buffer_at t (0, 0) with
       | None => n = 0 /\ v = beamMapInitVal
       | Some buf =>
           v <> beamMapInitVal
           /\ exists ps, take (Z.to_nat n) buf = Some <$> ps /\ Sorted ts_le ps
       end.
Proof.
  destruct (run_tables (one_file [(7, 0, 0, 0)] two_photons) (one_second 1 1 4))
    as [[bs t]|f] eqn:Hrun; [|vm_compute in Hrun; discriminate].
  destruct (run_tables_sorted _ _ bs t 0 0 Hrun) as (n & v & H);
    [zclosed|zclosed|].
  exists bs, t, n, v. split; [reflexivity|exact H].
Defined.

(** which pixels of the map have a buffer at the end of a run *)
Lemma run_tables_buffers (w : world) (a : call) (bs : beam_state) (t : tables)
    (x y : Z) :
  run_tables w a = Ok (bs, t) ->
  0 <= x < uint32 (bmap_ncol a) -> 0 <= y < uint32 (bmap_nrow a) ->
  exists v, g_cells (BeamMap bs) !! (x, y) = Some v
    /\ (v = beamMapInitVal -> buffer_at t (x, y) = None)
    /\ (v <> beamMapInitVal -> is_Some (buffer_at t (x, y))).
Proof.
  intros Hrun Hx Hy.
  apply run_tables_before_sort in Hrun as (_ & t0 & Hinv & Hsort).
  destruct Hinv as (_ & _ & _ & _ & Hpix).
  destruct (Hpix x y Hx Hy) as (n & v & Hn & Hn0 & Hv & Hcell).
  exists v. split; [exact Hv|].
  destruct (buffer_at t0 (x, y)) as [buf|] eqn:Hbuf.
  - destruct Hcell as (Hinit & Hle & ps & Hps). split; [intros; contradiction|].
    intros _. unfold SortPhotonTables in Hsort.
    apply for_each_sort_pixel_kernel in Hsort as (_ & _ & Hk);
      [|apply NoDup_grid_indices].
    assert (Hxy : (x, y) ∈ grid_indices (uint32 (bmap_ncol a)) (uint32 (bmap_nrow a)))
      by (apply elem_of_grid_indices; auto).
    rewrite (Hk (x, y) n buf ps Hxy Hn Hbuf Hps). eauto.
  - destruct Hcell as [_ Hinit]. split; [|intros; contradiction].
    intros _. exact (SortPhotonTables_no_buffer _ _ _ _ _ Hsort Hbuf).
Qed.

Lemma for_each_first_fault {A : Type} (body : unit -> A -> res unit) (e : fault)
    (l : list A) (a : A) :
  (forall b, b ∈ l -> body tt b = Ok tt \/ body tt b = Fault e) ->
  a ∈ l -> body tt a = Fault e ->
  for_each body tt l = Fault e.
Proof.
  induction l as [|b l IH]; intros Hall Ha Hfault; [inversion Ha|].
  cbn [for_each].
  destruct (Hall b ltac:(apply elem_of_cons; left; reflexivity)) as [Hb|Hb];
    rewrite Hb; cbn [mbind res_bind]; [|reflexivity].
  apply elem_of_cons in Ha as [->|Ha]; [congruence|].
  apply IH; [|exact Ha|exact Hfault].
  intros b' Hb'. apply Hall. apply elem_of_cons. right. exact Hb'.
Qed.

(** X23.  The release of the buffers after the copy skips the pixels
    whose resid is 0, not those that kept the initial resid: when some
    pixel of the map is named by no line of the beam-map file, the
    pointer passed to [free] for it was never assigned. *)
Theorem release_unnamed_pixel (w : world) (a : call) (bs : beam_state)
    (t : tables) (x y : Z) :
  run_tables w a = Ok (bs, t) ->
  0 <= x < uint32 (bmap_ncol a) -> 0 <= y < uint32 (bmap_nrow a) ->
  g_cells (BeamMap bs) !! (x, y) = Some beamMapInitVal ->
  release_tables (BeamMap bs) (ptable t) (uint32 (bmap_ncol a)) (uint32 (bmap_nrow a))
  = Fault (Uninitialised PtableArr).
Proof.
  intros Hrun Hx Hy Hinit.
  pose proof (run_tables_before_sort w a bs t Hrun) as (Hok & t0 & Hinv & Hsort).
  destruct Hok as (Hbc & Hbr & _).
  destruct Hinv as (Hpc & Hpr & _ & _ & Hpix).
  assert (Hext : g_cols (ptable t) = uint32 (bmap_ncol a)
                 /\ g_rows (ptable t) = uint32 (bmap_nrow a)).
  { unfold SortPhotonTables in Hsort.
    revert Hsort.
    apply (for_each_inv (fun t1 => g_cols (ptable t1) = uint32 (bmap_ncol a)
                                   /\ g_rows (ptable t1) = uint32 (bmap_nrow a)));
      [|auto].
    intros s [i j] s' _ [Hc Hr] Hstep. unfold sort_pixel in Hstep.
    apply bind_Ok in Hstep as (n & _ & Hstep).
    case_bool_decide; [injection Hstep as <-; auto|].
    apply bind_Ok in Hstep as (buf & _ & Hstep).
    case_bool_decide; [discriminate|].
    destruct (all_written _); [|discriminate].
    apply bind_Ok in Hstep as (pt & Hpt & Hstep).
    apply grid_write_Ok in Hpt as [_ ->]. injection Hstep as <-. auto. }
  destruct Hext as [Hpc' Hpr'].
  assert (Hcell : forall i j, 0 <= i < uint32 (bmap_ncol a) ->
                    0 <= j < uint32 (bmap_nrow a) ->
                    exists v, g_cells (BeamMap bs) !! (i, j) = Some v
                      /\ (v = beamMapInitVal -> buffer_at t (i, j) = None)
                      /\ (v <> beamMapInitVal -> is_Some (buffer_at t (i, j)))).
  { intros i j Hi Hj.
    exact (run_tables_buffers w a bs t i j Hrun Hi Hj). }
  unfold release_tables.
  apply (for_each_first_fault _ _ _ (x, y)).
  - intros [i j] Hij. apply elem_of_grid_indices in Hij as [Hi Hj].
    destruct (Hcell i j Hi Hj) as (v & Hv & Hnone & Hsome).
    unfold free_pixel.
    rewrite (grid_read_Ok_2 BeamMapArr (BeamMap bs) i j v)
      by (auto; apply in_grid_spec; lia).
    cbn [mbind res_bind]. case_bool_decide; [now left|].
    unfold grid_read. rewrite (proj2 (in_grid_spec _ _ _)) by lia.
    destruct (decide (v = beamMapInitVal)) as [E|E].
    + specialize (Hnone E). unfold buffer_at in Hnone. rewrite Hnone. now right.
    + destruct (Hsome E) as [buf Hbuf]. unfold buffer_at in Hbuf. rewrite Hbuf.
      now left.
  - apply elem_of_grid_indices. auto.
  - destruct (Hcell x y Hx Hy) as (v & Hv & Hnone & _).
    assert (v = beamMapInitVal) as E by congruence.
    specialize (Hnone E). unfold buffer_at in Hnone.
    unfold free_pixel.
    rewrite (grid_read_Ok_2 BeamMapArr (BeamMap bs) x y beamMapInitVal)
      by (auto; apply in_grid_spec; lia).
    cbn [mbind res_bind]. rewrite bool_decide_false by discriminate.
    unfold grid_read. rewrite (proj2 (in_grid_spec _ _ _)) by lia.
    rewrite Hnone. reflexivity.
Qed.

Lemma release_unnamed_pixel_witness :
  exists bs t,
    run_tables (one_file [(7, 0, 0, 0)] packet_then_header) (one_second 2 1 4)
    = Ok (bs, t)
    /\ release_tables (BeamMap bs) (ptable t) 2 1 = Fault (Uninitialised PtableArr).
Proof.
  destruct (run_tables (one_file [(7, 0, 0, 0)] packet_then_header) (one_second 2 1 4))
    as [[bs t]|f] eqn:Hrun; [|vm_compute in Hrun; discriminate].
  exists bs, t. split; [reflexivity|].
  apply (release_unnamed_pixel _ _ bs t 1 0 Hrun); [zclosed|zclosed|].
  vm_compute in Hrun. injection Hrun as <- <-. reflexivity.
Defined.

Lemma run_tables_counts (w : world) (a : call) (bs : beam_state) (t : tables) :
  run_tables w a = Ok (bs, t) ->
  forall x y ct, in_grid (ptablect t) x y = true ->
    count_at t (x, y) = Some ct -> 0 <= ct.
Proof.
  intros Hrun x y ct Hin Hct.
  apply run_tables_before_sort in Hrun as (_ & t0 & Hinv & Hsort).
  apply SortPhotonTables_counts in Hsort.
  destruct Hinv as (_ & _ & Hcc & Hcr & Hpix).
  unfold count_at in Hct. rewrite Hsort in Hin, Hct.
  apply in_grid_spec in Hin. rewrite Hcc, Hcr in Hin.
  destruct (Hpix x y ltac:(lia) ltac:(lia)) as (n & v & Hn & Hn0 & _).
  unfold count_at in Hn. congruence.
Qed.

(** X24.  What [extract_photons] hands back when it runs to its return
    with no store or read outside an array and none through a pointer
    never assigned.  The value is -1 exactly when [errno] is [ENOENT]
    after [opendir] or the number of files is not between 1 and 1800,
    and the output array is then untouched.  Otherwise the value is the
    number of cells written; the cells start at index 0 and are the
    cells below the counts of the pixels that the entries of
    [DiskBeamMap] name, entry after entry, and the array beyond them is
    as the caller passed it. *)
Theorem extract_photons_result (w : world) (a : call) (n : Z)
    (out : list (option photon)) :
  extract_photons w a = Ok (n, out) ->
  (n = -1 <-> opendir_enoent w = true
              \/ uint32 (integration_time a + 1) < 1
              \/ uint32 (integration_time a + 1) > 1800)
  /\ (n = -1 -> out = otable a)
  /\ (n <> -1 ->
      exists bs t,
        run_tables w a = Ok (bs, t)
        /\ let cells :=
             seqZ 0 (uint32 (uint32 (bmap_ncol a) * uint32 (bmap_nrow a)))
             ≫= entry_cells bs t in
           n = Z.of_nat (length cells)
           /\ out = cells ++ drop (Z.to_nat n) (otable a)).
Proof.
  unfold extract_photons. destruct (opendir_enoent w) eqn:Hdir.
  { intros [= <- <-]. split; [tauto|].
    split; [reflexivity|]. intros H; contradiction. }
  cbv zeta. case_bool_decide as Hfiles.
  { intros [= <- <-]. split; [tauto|].
    split; [reflexivity|]. intros H; contradiction. }
  intros Hrun. apply bind_Ok in Hrun as ([bs t] & Htab & Hrun).
  apply bind_Ok in Hrun as ([n' out'] & Hcopy & Hrun).
  apply bind_Ok in Hrun as (u & _ & Hrun). injection Hrun as -> ->.
  pose proof (run_tables_counts w a bs t Htab) as Hpos.
  apply (flatten_entries bs t _ Hpos 0 n (otable a) out ltac:(lia)) in Hcopy
    as (Hn & Hout & _).
  change (Z.to_nat 0) with 0%nat in Hout. rewrite take_0 in Hout.
  cbn [app] in Hout.
  set (cells := seqZ 0 _ ≫= entry_cells bs t) in *.
  split.
  { split; [lia|]. intros [H|H]; [discriminate|]. exfalso. apply Hfiles. exact H. }
  split; [lia|].
  intros _. exists bs, t. split; [exact Htab|]. cbv zeta. fold cells.
  split; [lia|exact Hout].
Qed.

Lemma extract_photons_result_witness :
  (1 = -1 <-> opendir_enoent (one_file [(7, 0, 0, 0)] packet_then_header) = true
              \/ uint32 (integration_time (one_second 1 1 4) + 1) < 1
              \/ uint32 (integration_time (one_second 1 1 4) + 1) > 1800)
  /\ exists bs t,
       run_tables (one_file [(7, 0, 0, 0)] packet_then_header) (one_second 1 1 4)
       = Ok (bs, t)
       /\ [Some {| resID := 7; timestamp := 2503; wvl := F_scaled 10;
                   wSpec := F_one; wNoise := F_one |}; None; None; None]
          = (seqZ 0 1 ≫= entry_cells bs t)
            ++ drop (Z.to_nat 1) (otable (one_second 1 1 4)).
Proof.
  destruct (extract_photons_result
              (one_file [(7, 0, 0, 0)] packet_then_header) (one_second 1 1 4) 1
              [Some {| resID := 7; timestamp := 2503; wvl := F_scaled 10;
                       wSpec := F_one; wNoise := F_one |}; None; None; None])
    as (Hiff & _ & Hrun).
  - vm_compute. reflexivity.
  - split; [exact Hiff|].
    destruct (Hrun ltac:(discriminate)) as (bs & t & Htab & _ & Hout).
    exists bs, t. split; [exact Htab|exact Hout].
Defined.

(** ** Packet decoder: what each pixel receives *)

Lemma holds_length (t : tables) (xy : Z * Z) (ps : list photon)
    (buf : list (option photon)) :
  take (length ps) buf = Some <$> ps -> (length ps <= length buf)%nat.
Proof.
  intros H. apply (f_equal length) in H.
  rewrite length_take, length_fmap in H. lia.
Qed.

Lemma ParseToMem_word_event (c : decode_ctx) (packet : list byte)
    (basetime : Z) (t t' : tables) (i : Z) (xy : Z * Z) (ps : list photon) :
  ParseToMem_word c packet basetime t i = Ok t' ->
  holds t xy ps -> Z.of_nat (length ps) + 1 < 2 ^ 32 ->
  holds t' xy (ps ++ events_for c packet basetime xy [i]).
Proof.
  intros Hrun Hold Hsmall. unfold events_for. cbn [mbind list_bind].
  rewrite app_nil_r. unfold word_event.
  unfold ParseToMem_word, load in Hrun.
  destruct (load64 packet (i * 8)) as [swp|]; [|discriminate].
  cbn [mbind res_bind] in Hrun. cbv zeta.
  set (data := as_datapacket (bswap_64 swp)) in *.
  set (x := data_xcoord data) in *. set (y := data_ycoord data) in *.
  apply bind_Ok in Hrun as (skip & Hskip & Hrun). rewrite Hskip.
  destruct skip; [injection Hrun as <-; now rewrite app_nil_r|].
  apply bind_Ok in Hrun as (t1 & Hgrow & Hrun).
  apply bind_Ok in Hrun as (bmval & Hbm & Hpush).
  apply grid_read_Ok in Hbm as [_ Hbm]. rewrite Hbm.
  set (p := new_photon bmval basetime data) in *.
  apply push_photon_Ok in Hpush as (ct & buf1 & Hct1 & Hbuf1 & Hroom & Hpt & Hctg).
  destruct Hold as (Hn & buf & Hbuf & Hps).
  pose proof (holds_length t xy ps buf Hps) as Hlen.
  destruct (decide ((x, y) = xy)) as [<-|Hne].
  - assert (Ht1 : ptablect t1 = ptablect t
                  /\ take (length ps) buf1 = take (length ps) buf).
    { apply grow_pixel_cases in Hgrow as [->|(ct' & buf' & Hct' & Hbuf' & ->)].
      - split; [reflexivity|]. congruence.
      - cbn [ptablect]. split; [reflexivity|].
        unfold buffer_at in Hbuf1. cbn [ptable] in Hbuf1.
        rewrite cells_set_eq in Hbuf1. injection Hbuf1 as <-.
        assert (buf' = buf) as -> by congruence.
        unfold count_at in Hct1. cbn [ptablect] in Hct1.
        unfold count_at in Hn. rewrite Hn in Hct1. injection Hct1 as <-.
        unfold realloc_photons in *. rewrite length_resize in Hroom.
        apply take_resize_written; lia. }
    destruct Ht1 as [Hcts Hsame].
    unfold count_at in Hct1, Hn. rewrite Hcts, Hn in Hct1. injection Hct1 as <-.
    unfold holds, count_at, buffer_at. rewrite Hpt, Hctg, !cells_set_eq.
    rewrite length_app. cbn [length]. split.
    + f_equal. unfold uint32. rewrite wrapu_small by lia. lia.
    + eexists. split; [reflexivity|].
      rewrite Nat2Z.id in *.
      replace (length ps + 1)%nat with (S (length ps)) by lia.
      rewrite (take_S_r _ _ (Some p)) by (apply list_lookup_insert_eq; lia).
      rewrite take_insert_ge by lia. rewrite Hsame, Hps, fmap_app. reflexivity.
  - rewrite app_nil_r.
    assert (Ht1 : ptablect t1 = ptablect t /\ buffer_at t1 xy = buffer_at t xy).
    { apply grow_pixel_cases in Hgrow as [->|(ct' & buf' & Hct' & Hbuf' & ->)].
      - split; reflexivity.
      - cbn [ptablect]. split; [reflexivity|].
        unfold buffer_at. cbn [ptable]. apply cells_set_ne. congruence. }
    destruct Ht1 as [Hcts Hsame].
    unfold holds, count_at, buffer_at in *.
    rewrite Hpt, Hctg, !cells_set_ne by congruence. rewrite Hcts, Hsame.
    split; [exact Hn|]. exists buf. split; [exact Hbuf|exact Hps].
Qed.

Lemma events_for_cons (c : decode_ctx) (packet : list byte) (basetime : Z)
    (xy : Z * Z) (i : Z) (js : list Z) :
  events_for c packet basetime xy (i :: js)
  = events_for c packet basetime xy [i] ++ events_for c packet basetime xy js.
Proof.
  unfold events_for. cbn [mbind list_bind]. now rewrite app_nil_r.
Qed.

Lemma events_for_length (c : decode_ctx) (packet : list byte) (basetime : Z)
    (xy : Z * Z) (js : list Z) :
  (length (events_for c packet basetime xy js) <= length js)%nat.
Proof.
  induction js as [|i js IH]; [cbn; lia|].
  rewrite events_for_cons, length_app. cbn [length].
  assert (length (events_for c packet basetime xy [i]) <= 1)%nat; [|lia].
  unfold events_for. cbn [mbind list_bind]. rewrite app_nil_r.
  destruct (word_event c packet basetime i) as [[[x y] p]|]; [|cbn; lia].
  destruct (decide ((x, y) = xy)); cbn; lia.
Qed.

Lemma ParseToMem_words_events (c : decode_ctx) (packet : list byte)
    (basetime : Z) (xy : Z * Z) (js : list Z) :
  forall (t t' : tables) (ps : list photon),
    for_each (ParseToMem_word c packet basetime) t js = Ok t' ->
    holds t xy ps ->
    Z.of_nat (length ps) + Z.of_nat (length js) < 2 ^ 32 ->
    holds t' xy (ps ++ events_for c packet basetime xy js).
Proof.
  induction js as [|i js IH]; intros t t' ps Hrun Hold Hsmall.
  - cbn in Hrun. injection Hrun as <-. unfold events_for. cbn [mbind list_bind].
    now rewrite app_nil_r.
  - cbn [for_each] in Hrun. apply bind_Ok in Hrun as (t1 & Hstep & Hrun).
    cbn [length] in Hsmall.
    apply (ParseToMem_word_event c packet basetime t t1 i xy ps) in Hstep;
      [|exact Hold|lia].
    rewrite events_for_cons, app_assoc.
    apply (IH t1 t' _ Hrun Hstep).
    rewrite length_app.
    pose proof (events_for_length c packet basetime xy [i]) as Hone.
    cbn [length] in Hone. lia.
Qed.

(** X25.  What a packet adds to a pixel.  A packet with the marker in
    its header and a header time not before the tick origin adds to every
    pixel the photons of the data words that name it and are not
    skipped, after those the pixel held and in the order of the words;
    any other packet adds nothing. *)
Theorem ParseToMem_events (c : decode_ctx) (packet : list byte)
    (l tsOffs FirstFile iFile swp : Z) (t t' : tables) (xy : Z * Z)
    (ps : list photon) :
  load64 packet 0 = Some swp ->
  holds t xy ps ->
  0 <= l -> Z.of_nat (length ps) + l / 8 < 2 ^ 32 ->
  ParseToMem c packet l tsOffs FirstFile iFile t = Ok t' ->
  let basetime := basetime_of (fixed_header swp tsOffs FirstFile iFile) (tstart c) in
  holds t' xy
    (ps ++ if bool_decide (hdr_start (as_hdrpacket (bswap_64 swp)) = 255
                           /\ 0 <= basetime)
           then events_for c packet basetime xy (seqZ 1 (l / 8 - 1))
           else []).
Proof.
  intros Hload Hold Hl Hsmall Hrun basetime. unfold ParseToMem, load in Hrun.
  rewrite Hload in Hrun. cbn [mbind res_bind] in Hrun. cbv zeta in Hrun.
  fold basetime in Hrun.
  case_bool_decide as Hmark.
  { injection Hrun as <-. rewrite bool_decide_false by tauto.
    now rewrite app_nil_r. }
  case_bool_decide as Hearly.
  { injection Hrun as <-. rewrite bool_decide_false by lia.
    now rewrite app_nil_r. }
  rewrite bool_decide_true by (split; [exact Hmark|lia]).
  apply (ParseToMem_words_events c packet basetime xy _ t t' ps Hrun Hold).
  rewrite length_seqZ.
  pose proof (Z.div_pos l 8 Hl ltac:(lia)). lia.
Qed.

Lemma ParseToMem_events_witness :
  exists t',
    ParseToMem sample_ctx (take 24 two_photons) 24 1514764800 1514764900 0
      fresh_tables = Ok t'
    /\ holds t' (0, 0)
         [{| resID := 7; timestamp := 2503; wvl := F_scaled 10;
             wSpec := F_one; wNoise := F_one |};
          {| resID := 7; timestamp := 2504; wvl := F_scaled 11;
             wSpec := F_one; wNoise := F_one |}].
Proof.
  destruct (ParseToMem sample_ctx (take 24 two_photons) 24 1514764800 1514764900 0
              fresh_tables) as [t'|f] eqn:Hrun; [|vm_compute in Hrun; discriminate].
  exists t'. split; [reflexivity|].
  apply (ParseToMem_events sample_ctx (take 24 two_photons) 24 1514764800
           1514764900 0 (le_value (take 8 two_photons)) fresh_tables t' (0, 0) []).
  - reflexivity.
  - split; [reflexivity|]. exists (replicate 2500 None). split; reflexivity.
  - lia.
  - zclosed.
  - exact Hrun.
Defined.

(** X26.  A pixel whose resid is the initial value gets no buffer, but
    its flag decides whether its photons are taken: a word that is not
    skipped and names a pixel without a buffer is stored through a
    pointer that was never assigned. *)
Theorem ParseToMem_word_no_buffer (c : decode_ctx) (packet : list byte)
    (basetime : Z) (t : tables) (i swp ct bmval : Z) :
  load64 packet (i * 8) = Some swp ->
  let data := as_datapacket (bswap_64 swp) in
  skipped c data = Ok false ->
  grid_read PtablectArr (ptablect t) (data_xcoord data) (data_ycoord data) = Ok ct ->
  grid_read BeamMapArr (c_BeamMap c) (data_xcoord data) (data_ycoord data) = Ok bmval ->
  in_grid (ptable t) (data_xcoord data) (data_ycoord data) = true ->
  buffer_at t (data_xcoord data, data_ycoord data) = None ->
  ParseToMem_word c packet basetime t i = Fault (Uninitialised PtableArr).
Proof.
  intros Hload data Hskip Hct Hbm Hin Hnone.
  unfold ParseToMem_word, load. rewrite Hload. cbn [mbind res_bind]. cbv zeta.
  fold data. rewrite Hskip. cbn [mbind res_bind].
  assert (Hread : grid_read PtableArr (ptable t) (data_xcoord data) (data_ycoord data)
                  = Fault (Uninitialised PtableArr)).
  { unfold grid_read. rewrite Hin. unfold buffer_at in Hnone. now rewrite Hnone. }
  unfold grow_pixel. rewrite Hct. cbn [mbind res_bind].
  case_bool_decide.
  - rewrite Hread. reflexivity.
  - cbn [mbind res_bind]. rewrite Hbm. cbn [mbind res_bind].
    unfold push_photon. rewrite Hct. cbn [mbind res_bind]. rewrite Hread.
    reflexivity.
Qed.

Lemma ParseToMem_word_no_buffer_witness :
  ParseToMem_word unnamed_ctx stray_packet 5 unnamed_tables 1
  = Fault (Uninitialised PtableArr).
Proof.
  apply (ParseToMem_word_no_buffer unnamed_ctx stray_packet 5 unnamed_tables 1
           (le_value (take 8 (drop 8 stray_packet))) 0 beamMapInitVal).
  - reflexivity.
  - reflexivity.
  - reflexivity.
  - reflexivity.
  - reflexivity.
  - reflexivity.
Defined.
